(** * The live quiz session engine of [backend/server.js]

    A shallow embedding of the Socket.IO handlers of [backend/server.js]
    ([join-quiz], [start-quiz], [submit-answer], [next-question],
    [finish-quiz], [get-leaderboard], [disconnect]) and of the
    properties the specification states about them.

    Modelling conventions.
    - Every handler is a function from the connection and the current
      [world] to the next world and the list of effects it performs,
      the answer of each awaited external collaborator ([Quiz.findById],
      [Question.findById], [question.save], [Score.create],
      [quiz.updateStats]) being an argument of the handler: this is the
      handler when no other event is handled during its awaits. What
      happens when handlers overlap is modelled apart ([play]): there
      every synchronous stretch of a handler is a step of its own and
      sessions and participants are objects held by reference. The two
      agree on handlers that do not overlap ([sequential_agrees]).
    - A synchronous handler has no [try]: a [TypeError] it throws is
      [Uncaught] and ends the run. The asynchronous handlers catch and
      report to the connection.
    - [activeQuizSessions] is a finite map from room ids to sessions.
      [session.participants] is a JavaScript [Map], which iterates in
      insertion order: it is an association list with the [Map]
      operations written out ([JsMap]).
    - Scores and point values are integers ([Z]); [Number] arithmetic on
      them is exact, the quotient under [Math.round] is the exact
      rational, and the results a division by zero produces are kept
      ([JNaN], [JInf]).
    - The texts the handlers compare and normalise (option texts,
      correct answers, submitted answers) are JavaScript strings,
      sequences of UTF-16 code units ([Js.str]), with [toLowerCase] and
      [trim] as ECMAScript defines them over Unicode 14.0. Identifiers
      and the texts the handlers only pass on are [string]s.
    - The client is not among the sources. Where a property depends on
      how it answers the timer's [next-question], that answer is modelled
      from the specification ([fire]).

    The file has the embedding first, then the vocabulary of the
    properties and the quizzes they are tried on, then the properties,
    claim by claim, and last the agreement of the two models of the
    handlers. *)

From Stdlib Require Import ZArith Lia Ascii String List Permutation Sorted.
From stdpp Require Import base gmap strings list fin_maps pretty.
Import ListNotations.

Local Open Scope Z_scope.

(** ** JavaScript values the handlers compute with *)

Module Js.

(** The value of [correctOption && correctOption.text === selectedAnswer]:
    [undefined] when [find] returned nothing, a boolean otherwise. *)
Inductive jsbool := JTrue | JFalse | JUndefined.

Definition of_bool (b : bool) : jsbool := if b then JTrue else JFalse.

(** Truthiness, as the conditional operator [c ? a : b] tests it. *)
Definition truthy (b : jsbool) : bool :=
  match b with JTrue => true | _ => false end.

(** A [Number] that came out of a division followed by [Math.round]. *)
Inductive jsnum := JInt (z : Z) | JNaN | JInf (positive : bool).

(** [Math.round((a / b) * 100)] for integers [a] and [b].
    [Math.round x] is [floor (x + 1/2)]; for [b <> 0] that is the floor
    of [(200 a + b) / (2 b)]. [0 / 0] is [NaN], [a / 0] is an infinity
    with the sign of [a], and both pass through [* 100] and
    [Math.round]. The quotient is taken exactly; in double precision a
    quotient at an exact half can fall on either side of it, and the
    properties below use only that the result is a nearest integer. *)
Definition round_percent (a b : Z) : jsnum :=
  if b =? 0 then
    if a =? 0 then JNaN else JInf (0 <? a)
  else JInt ((200 * a + b) / (2 * b)).

(** *** Strings

    A string is a sequence of UTF-16 code units, the integers from 0 to
    65535. *)
Definition str := list Z.

(** The string of a literal, one code unit per character: the literals
    of this file are ASCII. *)
Definition lit (s : string) : str :=
  map (fun c => Z.of_nat (nat_of_ascii c)) (list_ascii_of_string s).

(** [a === b] on two strings. *)
Fixpoint eqb (a b : str) : bool :=
  match a, b with
  | [], [] => true
  | x :: a', y :: b' => (x =? y) && eqb a' b'
  | _, _ => false
  end.

Definition within (ranges : list (Z * Z)) (c : Z) : bool :=
  existsb (fun r => (fst r <=? c) && (c <=? snd r)) ranges.

(** The code points [String.prototype.trim] strips: WhiteSpace (TAB, VT,
    FF, the BOM U+FEFF and the space separators [Zs]) and LineTerminator
    (LF, CR, U+2028, U+2029). None is a surrogate, so code units can be
    tested. *)
Definition white_space : list (Z * Z) :=
  [(0x9, 0xD); (0x20, 0x20); (0xA0, 0xA0); (0x1680, 0x1680);
   (0x2000, 0x200A); (0x2028, 0x2029); (0x202F, 0x202F);
   (0x205F, 0x205F); (0x3000, 0x3000); (0xFEFF, 0xFEFF)].

Definition is_space (u : Z) : bool := within white_space u.

(** The lowercase mappings of the Unicode Character Database (version
    14.0), other than that of U+0130 and the context rule for U+03A3:
    [(lo, hi, step, delta)] maps the code points [lo], [lo + step], ...
    up to [hi] to themselves plus [delta]. *)
Definition lower_runs : list (Z * Z * Z * Z) :=
  [(0x41, 0x5A, 1, 32); (0xC0, 0xD6, 1, 32); (0xD8, 0xDE, 1, 32);
   (0x100, 0x12E, 2, 1); (0x132, 0x136, 2, 1); (0x139, 0x147, 2, 1);
   (0x14A, 0x176, 2, 1); (0x178, 0x178, 1, -121); (0x179, 0x17D, 2, 1);
   (0x181, 0x181, 1, 210); (0x182, 0x184, 2, 1); (0x186, 0x186, 1, 206);
   (0x187, 0x187, 1, 1); (0x189, 0x18A, 1, 205); (0x18B, 0x18B, 1, 1);
   (0x18E, 0x18E, 1, 79); (0x18F, 0x18F, 1, 202); (0x190, 0x190, 1, 203);
   (0x191, 0x191, 1, 1); (0x193, 0x193, 1, 205); (0x194, 0x194, 1, 207);
   (0x196, 0x196, 1, 211); (0x197, 0x197, 1, 209); (0x198, 0x198, 1, 1);
   (0x19C, 0x19C, 1, 211); (0x19D, 0x19D, 1, 213); (0x19F, 0x19F, 1, 214);
   (0x1A0, 0x1A4, 2, 1); (0x1A6, 0x1A6, 1, 218); (0x1A7, 0x1A7, 1, 1);
   (0x1A9, 0x1A9, 1, 218); (0x1AC, 0x1AC, 1, 1); (0x1AE, 0x1AE, 1, 218);
   (0x1AF, 0x1AF, 1, 1); (0x1B1, 0x1B2, 1, 217); (0x1B3, 0x1B5, 2, 1);
   (0x1B7, 0x1B7, 1, 219); (0x1B8, 0x1B8, 1, 1); (0x1BC, 0x1BC, 1, 1);
   (0x1C4, 0x1C4, 1, 2); (0x1C5, 0x1C5, 1, 1); (0x1C7, 0x1C7, 1, 2);
   (0x1C8, 0x1C8, 1, 1); (0x1CA, 0x1CA, 1, 2); (0x1CB, 0x1DB, 2, 1);
   (0x1DE, 0x1EE, 2, 1); (0x1F1, 0x1F1, 1, 2); (0x1F2, 0x1F4, 2, 1);
   (0x1F6, 0x1F6, 1, -97); (0x1F7, 0x1F7, 1, -56); (0x1F8, 0x21E, 2, 1);
   (0x220, 0x220, 1, -130); (0x222, 0x232, 2, 1); (0x23A, 0x23A, 1, 10795);
   (0x23B, 0x23B, 1, 1); (0x23D, 0x23D, 1, -163); (0x23E, 0x23E, 1, 10792);
   (0x241, 0x241, 1, 1); (0x243, 0x243, 1, -195); (0x244, 0x244, 1, 69);
   (0x245, 0x245, 1, 71); (0x246, 0x24E, 2, 1); (0x370, 0x372, 2, 1);
   (0x376, 0x376, 1, 1); (0x37F, 0x37F, 1, 116); (0x386, 0x386, 1, 38);
   (0x388, 0x38A, 1, 37); (0x38C, 0x38C, 1, 64); (0x38E, 0x38F, 1, 63);
   (0x391, 0x3A1, 1, 32); (0x3A3, 0x3AB, 1, 32); (0x3CF, 0x3CF, 1, 8);
   (0x3D8, 0x3EE, 2, 1); (0x3F4, 0x3F4, 1, -60); (0x3F7, 0x3F7, 1, 1);
   (0x3F9, 0x3F9, 1, -7); (0x3FA, 0x3FA, 1, 1); (0x3FD, 0x3FF, 1, -130);
   (0x400, 0x40F, 1, 80); (0x410, 0x42F, 1, 32); (0x460, 0x480, 2, 1);
   (0x48A, 0x4BE, 2, 1); (0x4C0, 0x4C0, 1, 15); (0x4C1, 0x4CD, 2, 1);
   (0x4D0, 0x52E, 2, 1); (0x531, 0x556, 1, 48); (0x10A0, 0x10C5, 1, 7264);
   (0x10C7, 0x10C7, 1, 7264); (0x10CD, 0x10CD, 1, 7264);
   (0x13A0, 0x13EF, 1, 38864); (0x13F0, 0x13F5, 1, 8);
   (0x1C90, 0x1CBA, 1, -3008); (0x1CBD, 0x1CBF, 1, -3008);
   (0x1E00, 0x1E94, 2, 1); (0x1E9E, 0x1E9E, 1, -7615); (0x1EA0, 0x1EFE, 2, 1);
   (0x1F08, 0x1F0F, 1, -8); (0x1F18, 0x1F1D, 1, -8); (0x1F28, 0x1F2F, 1, -8);
   (0x1F38, 0x1F3F, 1, -8); (0x1F48, 0x1F4D, 1, -8); (0x1F59, 0x1F59, 1, -8);
   (0x1F5B, 0x1F5B, 1, -8); (0x1F5D, 0x1F5D, 1, -8); (0x1F5F, 0x1F5F, 1, -8);
   (0x1F68, 0x1F6F, 1, -8); (0x1F88, 0x1F8F, 1, -8); (0x1F98, 0x1F9F, 1, -8);
   (0x1FA8, 0x1FAF, 1, -8); (0x1FB8, 0x1FB9, 1, -8); (0x1FBA, 0x1FBB, 1, -74);
   (0x1FBC, 0x1FBC, 1, -9); (0x1FC8, 0x1FCB, 1, -86); (0x1FCC, 0x1FCC, 1, -9);
   (0x1FD8, 0x1FD9, 1, -8); (0x1FDA, 0x1FDB, 1, -100);
   (0x1FE8, 0x1FE9, 1, -8); (0x1FEA, 0x1FEB, 1, -112);
   (0x1FEC, 0x1FEC, 1, -7); (0x1FF8, 0x1FF9, 1, -128);
   (0x1FFA, 0x1FFB, 1, -126); (0x1FFC, 0x1FFC, 1, -9);
   (0x2126, 0x2126, 1, -7517); (0x212A, 0x212A, 1, -8383);
   (0x212B, 0x212B, 1, -8262); (0x2132, 0x2132, 1, 28);
   (0x2160, 0x216F, 1, 16); (0x2183, 0x2183, 1, 1); (0x24B6, 0x24CF, 1, 26);
   (0x2C00, 0x2C2F, 1, 48); (0x2C60, 0x2C60, 1, 1);
   (0x2C62, 0x2C62, 1, -10743); (0x2C63, 0x2C63, 1, -3814);
   (0x2C64, 0x2C64, 1, -10727); (0x2C67, 0x2C6B, 2, 1);
   (0x2C6D, 0x2C6D, 1, -10780); (0x2C6E, 0x2C6E, 1, -10749);
   (0x2C6F, 0x2C6F, 1, -10783); (0x2C70, 0x2C70, 1, -10782);
   (0x2C72, 0x2C72, 1, 1); (0x2C75, 0x2C75, 1, 1);
   (0x2C7E, 0x2C7F, 1, -10815); (0x2C80, 0x2CE2, 2, 1);
   (0x2CEB, 0x2CED, 2, 1); (0x2CF2, 0x2CF2, 1, 1); (0xA640, 0xA66C, 2, 1);
   (0xA680, 0xA69A, 2, 1); (0xA722, 0xA72E, 2, 1); (0xA732, 0xA76E, 2, 1);
   (0xA779, 0xA77B, 2, 1); (0xA77D, 0xA77D, 1, -35332);
   (0xA77E, 0xA786, 2, 1); (0xA78B, 0xA78B, 1, 1);
   (0xA78D, 0xA78D, 1, -42280); (0xA790, 0xA792, 2, 1);
   (0xA796, 0xA7A8, 2, 1); (0xA7AA, 0xA7AA, 1, -42308);
   (0xA7AB, 0xA7AB, 1, -42319); (0xA7AC, 0xA7AC, 1, -42315);
   (0xA7AD, 0xA7AD, 1, -42305); (0xA7AE, 0xA7AE, 1, -42308);
   (0xA7B0, 0xA7B0, 1, -42258); (0xA7B1, 0xA7B1, 1, -42282);
   (0xA7B2, 0xA7B2, 1, -42261); (0xA7B3, 0xA7B3, 1, 928);
   (0xA7B4, 0xA7C2, 2, 1); (0xA7C4, 0xA7C4, 1, -48);
   (0xA7C5, 0xA7C5, 1, -42307); (0xA7C6, 0xA7C6, 1, -35384);
   (0xA7C7, 0xA7C9, 2, 1); (0xA7D0, 0xA7D0, 1, 1); (0xA7D6, 0xA7D8, 2, 1);
   (0xA7F5, 0xA7F5, 1, 1); (0xFF21, 0xFF3A, 1, 32); (0x10400, 0x10427, 1, 40);
   (0x104B0, 0x104D3, 1, 40); (0x10570, 0x1057A, 1, 39);
   (0x1057C, 0x1058A, 1, 39); (0x1058C, 0x10592, 1, 39);
   (0x10594, 0x10595, 1, 39); (0x10C80, 0x10CB2, 1, 64);
   (0x118A0, 0x118BF, 1, 32); (0x16E40, 0x16E5F, 1, 32);
   (0x1E900, 0x1E921, 1, 34)].

(** The code points with the property [Cased]. *)
Definition cased_ranges : list (Z * Z) :=
  [(0x41, 0x5A); (0x61, 0x7A); (0xAA, 0xAA); (0xB5, 0xB5); (0xBA, 0xBA);
   (0xC0, 0xD6); (0xD8, 0xF6); (0xF8, 0x1BA); (0x1BC, 0x1BF); (0x1C4, 0x293);
   (0x295, 0x2B8); (0x2C0, 0x2C1); (0x2E0, 0x2E4); (0x345, 0x345);
   (0x370, 0x373); (0x376, 0x377); (0x37A, 0x37D); (0x37F, 0x37F);
   (0x386, 0x386); (0x388, 0x38A); (0x38C, 0x38C); (0x38E, 0x3A1);
   (0x3A3, 0x3F5); (0x3F7, 0x481); (0x48A, 0x52F); (0x531, 0x556);
   (0x560, 0x588); (0x10A0, 0x10C5); (0x10C7, 0x10C7); (0x10CD, 0x10CD);
   (0x10D0, 0x10FA); (0x10FD, 0x10FF); (0x13A0, 0x13F5); (0x13F8, 0x13FD);
   (0x1C80, 0x1C88); (0x1C90, 0x1CBA); (0x1CBD, 0x1CBF); (0x1D00, 0x1DBF);
   (0x1E00, 0x1F15); (0x1F18, 0x1F1D); (0x1F20, 0x1F45); (0x1F48, 0x1F4D);
   (0x1F50, 0x1F57); (0x1F59, 0x1F59); (0x1F5B, 0x1F5B); (0x1F5D, 0x1F5D);
   (0x1F5F, 0x1F7D); (0x1F80, 0x1FB4); (0x1FB6, 0x1FBC); (0x1FBE, 0x1FBE);
   (0x1FC2, 0x1FC4); (0x1FC6, 0x1FCC); (0x1FD0, 0x1FD3); (0x1FD6, 0x1FDB);
   (0x1FE0, 0x1FEC); (0x1FF2, 0x1FF4); (0x1FF6, 0x1FFC); (0x2071, 0x2071);
   (0x207F, 0x207F); (0x2090, 0x209C); (0x2102, 0x2102); (0x2107, 0x2107);
   (0x210A, 0x2113); (0x2115, 0x2115); (0x2119, 0x211D); (0x2124, 0x2124);
   (0x2126, 0x2126); (0x2128, 0x2128); (0x212A, 0x212D); (0x212F, 0x2134);
   (0x2139, 0x2139); (0x213C, 0x213F); (0x2145, 0x2149); (0x214E, 0x214E);
   (0x2160, 0x217F); (0x2183, 0x2184); (0x24B6, 0x24E9); (0x2C00, 0x2CE4);
   (0x2CEB, 0x2CEE); (0x2CF2, 0x2CF3); (0x2D00, 0x2D25); (0x2D27, 0x2D27);
   (0x2D2D, 0x2D2D); (0xA640, 0xA66D); (0xA680, 0xA69D); (0xA722, 0xA787);
   (0xA78B, 0xA78E); (0xA790, 0xA7CA); (0xA7D0, 0xA7D1); (0xA7D3, 0xA7D3);
   (0xA7D5, 0xA7D9); (0xA7F5, 0xA7F6); (0xA7F8, 0xA7FA); (0xAB30, 0xAB5A);
   (0xAB5C, 0xAB68); (0xAB70, 0xABBF); (0xFB00, 0xFB06); (0xFB13, 0xFB17);
   (0xFF21, 0xFF3A); (0xFF41, 0xFF5A); (0x10400, 0x1044F); (0x104B0, 0x104D3);
   (0x104D8, 0x104FB); (0x10570, 0x1057A); (0x1057C, 0x1058A);
   (0x1058C, 0x10592); (0x10594, 0x10595); (0x10597, 0x105A1);
   (0x105A3, 0x105B1); (0x105B3, 0x105B9); (0x105BB, 0x105BC);
   (0x10780, 0x10780); (0x10783, 0x10785); (0x10787, 0x107B0);
   (0x107B2, 0x107BA); (0x10C80, 0x10CB2); (0x10CC0, 0x10CF2);
   (0x118A0, 0x118DF); (0x16E40, 0x16E7F); (0x1D400, 0x1D454);
   (0x1D456, 0x1D49C); (0x1D49E, 0x1D49F); (0x1D4A2, 0x1D4A2);
   (0x1D4A5, 0x1D4A6); (0x1D4A9, 0x1D4AC); (0x1D4AE, 0x1D4B9);
   (0x1D4BB, 0x1D4BB); (0x1D4BD, 0x1D4C3); (0x1D4C5, 0x1D505);
   (0x1D507, 0x1D50A); (0x1D50D, 0x1D514); (0x1D516, 0x1D51C);
   (0x1D51E, 0x1D539); (0x1D53B, 0x1D53E); (0x1D540, 0x1D544);
   (0x1D546, 0x1D546); (0x1D54A, 0x1D550); (0x1D552, 0x1D6A5);
   (0x1D6A8, 0x1D6C0); (0x1D6C2, 0x1D6DA); (0x1D6DC, 0x1D6FA);
   (0x1D6FC, 0x1D714); (0x1D716, 0x1D734); (0x1D736, 0x1D74E);
   (0x1D750, 0x1D76E); (0x1D770, 0x1D788); (0x1D78A, 0x1D7A8);
   (0x1D7AA, 0x1D7C2); (0x1D7C4, 0x1D7CB); (0x1DF00, 0x1DF09);
   (0x1DF0B, 0x1DF1E); (0x1E900, 0x1E943); (0x1F130, 0x1F149);
   (0x1F150, 0x1F169); (0x1F170, 0x1F189)].

(** The code points with the property [Case_Ignorable]. *)
Definition case_ignorable_ranges : list (Z * Z) :=
  [(0x27, 0x27); (0x2E, 0x2E); (0x3A, 0x3A); (0x5E, 0x5E); (0x60, 0x60);
   (0xA8, 0xA8); (0xAD, 0xAD); (0xAF, 0xAF); (0xB4, 0xB4); (0xB7, 0xB8);
   (0x2B0, 0x36F); (0x374, 0x375); (0x37A, 0x37A); (0x384, 0x385);
   (0x387, 0x387); (0x483, 0x489); (0x559, 0x559); (0x55F, 0x55F);
   (0x591, 0x5BD); (0x5BF, 0x5BF); (0x5C1, 0x5C2); (0x5C4, 0x5C5);
   (0x5C7, 0x5C7); (0x5F4, 0x5F4); (0x600, 0x605); (0x610, 0x61A);
   (0x61C, 0x61C); (0x640, 0x640); (0x64B, 0x65F); (0x670, 0x670);
   (0x6D6, 0x6DD); (0x6DF, 0x6E8); (0x6EA, 0x6ED); (0x70F, 0x70F);
   (0x711, 0x711); (0x730, 0x74A); (0x7A6, 0x7B0); (0x7EB, 0x7F5);
   (0x7FA, 0x7FA); (0x7FD, 0x7FD); (0x816, 0x82D); (0x859, 0x85B);
   (0x888, 0x888); (0x890, 0x891); (0x898, 0x89F); (0x8C9, 0x902);
   (0x93A, 0x93A); (0x93C, 0x93C); (0x941, 0x948); (0x94D, 0x94D);
   (0x951, 0x957); (0x962, 0x963); (0x971, 0x971); (0x981, 0x981);
   (0x9BC, 0x9BC); (0x9C1, 0x9C4); (0x9CD, 0x9CD); (0x9E2, 0x9E3);
   (0x9FE, 0x9FE); (0xA01, 0xA02); (0xA3C, 0xA3C); (0xA41, 0xA42);
   (0xA47, 0xA48); (0xA4B, 0xA4D); (0xA51, 0xA51); (0xA70, 0xA71);
   (0xA75, 0xA75); (0xA81, 0xA82); (0xABC, 0xABC); (0xAC1, 0xAC5);
   (0xAC7, 0xAC8); (0xACD, 0xACD); (0xAE2, 0xAE3); (0xAFA, 0xAFF);
   (0xB01, 0xB01); (0xB3C, 0xB3C); (0xB3F, 0xB3F); (0xB41, 0xB44);
   (0xB4D, 0xB4D); (0xB55, 0xB56); (0xB62, 0xB63); (0xB82, 0xB82);
   (0xBC0, 0xBC0); (0xBCD, 0xBCD); (0xC00, 0xC00); (0xC04, 0xC04);
   (0xC3C, 0xC3C); (0xC3E, 0xC40); (0xC46, 0xC48); (0xC4A, 0xC4D);
   (0xC55, 0xC56); (0xC62, 0xC63); (0xC81, 0xC81); (0xCBC, 0xCBC);
   (0xCBF, 0xCBF); (0xCC6, 0xCC6); (0xCCC, 0xCCD); (0xCE2, 0xCE3);
   (0xD00, 0xD01); (0xD3B, 0xD3C); (0xD41, 0xD44); (0xD4D, 0xD4D);
   (0xD62, 0xD63); (0xD81, 0xD81); (0xDCA, 0xDCA); (0xDD2, 0xDD4);
   (0xDD6, 0xDD6); (0xE31, 0xE31); (0xE34, 0xE3A); (0xE46, 0xE4E);
   (0xEB1, 0xEB1); (0xEB4, 0xEBC); (0xEC6, 0xEC6); (0xEC8, 0xECD);
   (0xF18, 0xF19); (0xF35, 0xF35); (0xF37, 0xF37); (0xF39, 0xF39);
   (0xF71, 0xF7E); (0xF80, 0xF84); (0xF86, 0xF87); (0xF8D, 0xF97);
   (0xF99, 0xFBC); (0xFC6, 0xFC6); (0x102D, 0x1030); (0x1032, 0x1037);
   (0x1039, 0x103A); (0x103D, 0x103E); (0x1058, 0x1059); (0x105E, 0x1060);
   (0x1071, 0x1074); (0x1082, 0x1082); (0x1085, 0x1086); (0x108D, 0x108D);
   (0x109D, 0x109D); (0x10FC, 0x10FC); (0x135D, 0x135F); (0x1712, 0x1714);
   (0x1732, 0x1733); (0x1752, 0x1753); (0x1772, 0x1773); (0x17B4, 0x17B5);
   (0x17B7, 0x17BD); (0x17C6, 0x17C6); (0x17C9, 0x17D3); (0x17D7, 0x17D7);
   (0x17DD, 0x17DD); (0x180B, 0x180F); (0x1843, 0x1843); (0x1885, 0x1886);
   (0x18A9, 0x18A9); (0x1920, 0x1922); (0x1927, 0x1928); (0x1932, 0x1932);
   (0x1939, 0x193B); (0x1A17, 0x1A18); (0x1A1B, 0x1A1B); (0x1A56, 0x1A56);
   (0x1A58, 0x1A5E); (0x1A60, 0x1A60); (0x1A62, 0x1A62); (0x1A65, 0x1A6C);
   (0x1A73, 0x1A7C); (0x1A7F, 0x1A7F); (0x1AA7, 0x1AA7); (0x1AB0, 0x1ACE);
   (0x1B00, 0x1B03); (0x1B34, 0x1B34); (0x1B36, 0x1B3A); (0x1B3C, 0x1B3C);
   (0x1B42, 0x1B42); (0x1B6B, 0x1B73); (0x1B80, 0x1B81); (0x1BA2, 0x1BA5);
   (0x1BA8, 0x1BA9); (0x1BAB, 0x1BAD); (0x1BE6, 0x1BE6); (0x1BE8, 0x1BE9);
   (0x1BED, 0x1BED); (0x1BEF, 0x1BF1); (0x1C2C, 0x1C33); (0x1C36, 0x1C37);
   (0x1C78, 0x1C7D); (0x1CD0, 0x1CD2); (0x1CD4, 0x1CE0); (0x1CE2, 0x1CE8);
   (0x1CED, 0x1CED); (0x1CF4, 0x1CF4); (0x1CF8, 0x1CF9); (0x1D2C, 0x1D6A);
   (0x1D78, 0x1D78); (0x1D9B, 0x1DFF); (0x1FBD, 0x1FBD); (0x1FBF, 0x1FC1);
   (0x1FCD, 0x1FCF); (0x1FDD, 0x1FDF); (0x1FED, 0x1FEF); (0x1FFD, 0x1FFE);
   (0x200B, 0x200F); (0x2018, 0x2019); (0x2024, 0x2024); (0x2027, 0x2027);
   (0x202A, 0x202E); (0x2060, 0x2064); (0x2066, 0x206F); (0x2071, 0x2071);
   (0x207F, 0x207F); (0x2090, 0x209C); (0x20D0, 0x20F0); (0x2C7C, 0x2C7D);
   (0x2CEF, 0x2CF1); (0x2D6F, 0x2D6F); (0x2D7F, 0x2D7F); (0x2DE0, 0x2DFF);
   (0x2E2F, 0x2E2F); (0x3005, 0x3005); (0x302A, 0x302D); (0x3031, 0x3035);
   (0x303B, 0x303B); (0x3099, 0x309E); (0x30FC, 0x30FE); (0xA015, 0xA015);
   (0xA4F8, 0xA4FD); (0xA60C, 0xA60C); (0xA66F, 0xA672); (0xA674, 0xA67D);
   (0xA67F, 0xA67F); (0xA69C, 0xA69F); (0xA6F0, 0xA6F1); (0xA700, 0xA721);
   (0xA770, 0xA770); (0xA788, 0xA78A); (0xA7F2, 0xA7F4); (0xA7F8, 0xA7F9);
   (0xA802, 0xA802); (0xA806, 0xA806); (0xA80B, 0xA80B); (0xA825, 0xA826);
   (0xA82C, 0xA82C); (0xA8C4, 0xA8C5); (0xA8E0, 0xA8F1); (0xA8FF, 0xA8FF);
   (0xA926, 0xA92D); (0xA947, 0xA951); (0xA980, 0xA982); (0xA9B3, 0xA9B3);
   (0xA9B6, 0xA9B9); (0xA9BC, 0xA9BD); (0xA9CF, 0xA9CF); (0xA9E5, 0xA9E6);
   (0xAA29, 0xAA2E); (0xAA31, 0xAA32); (0xAA35, 0xAA36); (0xAA43, 0xAA43);
   (0xAA4C, 0xAA4C); (0xAA70, 0xAA70); (0xAA7C, 0xAA7C); (0xAAB0, 0xAAB0);
   (0xAAB2, 0xAAB4); (0xAAB7, 0xAAB8); (0xAABE, 0xAABF); (0xAAC1, 0xAAC1);
   (0xAADD, 0xAADD); (0xAAEC, 0xAAED); (0xAAF3, 0xAAF4); (0xAAF6, 0xAAF6);
   (0xAB5B, 0xAB5F); (0xAB69, 0xAB6B); (0xABE5, 0xABE5); (0xABE8, 0xABE8);
   (0xABED, 0xABED); (0xFB1E, 0xFB1E); (0xFBB2, 0xFBC2); (0xFE00, 0xFE0F);
   (0xFE13, 0xFE13); (0xFE20, 0xFE2F); (0xFE52, 0xFE52); (0xFE55, 0xFE55);
   (0xFEFF, 0xFEFF); (0xFF07, 0xFF07); (0xFF0E, 0xFF0E); (0xFF1A, 0xFF1A);
   (0xFF3E, 0xFF3E); (0xFF40, 0xFF40); (0xFF70, 0xFF70); (0xFF9E, 0xFF9F);
   (0xFFE3, 0xFFE3); (0xFFF9, 0xFFFB); (0x101FD, 0x101FD); (0x102E0, 0x102E0);
   (0x10376, 0x1037A); (0x10780, 0x10785); (0x10787, 0x107B0);
   (0x107B2, 0x107BA); (0x10A01, 0x10A03); (0x10A05, 0x10A06);
   (0x10A0C, 0x10A0F); (0x10A38, 0x10A3A); (0x10A3F, 0x10A3F);
   (0x10AE5, 0x10AE6); (0x10D24, 0x10D27); (0x10EAB, 0x10EAC);
   (0x10F46, 0x10F50); (0x10F82, 0x10F85); (0x11001, 0x11001);
   (0x11038, 0x11046); (0x11070, 0x11070); (0x11073, 0x11074);
   (0x1107F, 0x11081); (0x110B3, 0x110B6); (0x110B9, 0x110BA);
   (0x110BD, 0x110BD); (0x110C2, 0x110C2); (0x110CD, 0x110CD);
   (0x11100, 0x11102); (0x11127, 0x1112B); (0x1112D, 0x11134);
   (0x11173, 0x11173); (0x11180, 0x11181); (0x111B6, 0x111BE);
   (0x111C9, 0x111CC); (0x111CF, 0x111CF); (0x1122F, 0x11231);
   (0x11234, 0x11234); (0x11236, 0x11237); (0x1123E, 0x1123E);
   (0x112DF, 0x112DF); (0x112E3, 0x112EA); (0x11300, 0x11301);
   (0x1133B, 0x1133C); (0x11340, 0x11340); (0x11366, 0x1136C);
   (0x11370, 0x11374); (0x11438, 0x1143F); (0x11442, 0x11444);
   (0x11446, 0x11446); (0x1145E, 0x1145E); (0x114B3, 0x114B8);
   (0x114BA, 0x114BA); (0x114BF, 0x114C0); (0x114C2, 0x114C3);
   (0x115B2, 0x115B5); (0x115BC, 0x115BD); (0x115BF, 0x115C0);
   (0x115DC, 0x115DD); (0x11633, 0x1163A); (0x1163D, 0x1163D);
   (0x1163F, 0x11640); (0x116AB, 0x116AB); (0x116AD, 0x116AD);
   (0x116B0, 0x116B5); (0x116B7, 0x116B7); (0x1171D, 0x1171F);
   (0x11722, 0x11725); (0x11727, 0x1172B); (0x1182F, 0x11837);
   (0x11839, 0x1183A); (0x1193B, 0x1193C); (0x1193E, 0x1193E);
   (0x11943, 0x11943); (0x119D4, 0x119D7); (0x119DA, 0x119DB);
   (0x119E0, 0x119E0); (0x11A01, 0x11A0A); (0x11A33, 0x11A38);
   (0x11A3B, 0x11A3E); (0x11A47, 0x11A47); (0x11A51, 0x11A56);
   (0x11A59, 0x11A5B); (0x11A8A, 0x11A96); (0x11A98, 0x11A99);
   (0x11C30, 0x11C36); (0x11C38, 0x11C3D); (0x11C3F, 0x11C3F);
   (0x11C92, 0x11CA7); (0x11CAA, 0x11CB0); (0x11CB2, 0x11CB3);
   (0x11CB5, 0x11CB6); (0x11D31, 0x11D36); (0x11D3A, 0x11D3A);
   (0x11D3C, 0x11D3D); (0x11D3F, 0x11D45); (0x11D47, 0x11D47);
   (0x11D90, 0x11D91); (0x11D95, 0x11D95); (0x11D97, 0x11D97);
   (0x11EF3, 0x11EF4); (0x13430, 0x13438); (0x16AF0, 0x16AF4);
   (0x16B30, 0x16B36); (0x16B40, 0x16B43); (0x16F4F, 0x16F4F);
   (0x16F8F, 0x16F9F); (0x16FE0, 0x16FE1); (0x16FE3, 0x16FE4);
   (0x1AFF0, 0x1AFF3); (0x1AFF5, 0x1AFFB); (0x1AFFD, 0x1AFFE);
   (0x1BC9D, 0x1BC9E); (0x1BCA0, 0x1BCA3); (0x1CF00, 0x1CF2D);
   (0x1CF30, 0x1CF46); (0x1D167, 0x1D169); (0x1D173, 0x1D182);
   (0x1D185, 0x1D18B); (0x1D1AA, 0x1D1AD); (0x1D242, 0x1D244);
   (0x1DA00, 0x1DA36); (0x1DA3B, 0x1DA6C); (0x1DA75, 0x1DA75);
   (0x1DA84, 0x1DA84); (0x1DA9B, 0x1DA9F); (0x1DAA1, 0x1DAAF);
   (0x1E000, 0x1E006); (0x1E008, 0x1E018); (0x1E01B, 0x1E021);
   (0x1E023, 0x1E024); (0x1E026, 0x1E02A); (0x1E130, 0x1E13D);
   (0x1E2AE, 0x1E2AE); (0x1E2EC, 0x1E2EF); (0x1E8D0, 0x1E8D6);
   (0x1E944, 0x1E94B); (0x1F3FB, 0x1F3FF); (0xE0001, 0xE0001);
   (0xE0020, 0xE007F); (0xE0100, 0xE01EF)].

Fixpoint lower_in (runs : list (Z * Z * Z * Z)) (c : Z) : Z :=
  match runs with
  | [] => c
  | (lo, hi, step, delta) :: rest =>
      if (lo <=? c) && (c <=? hi) && ((c - lo) mod step =? 0) then c + delta
      else lower_in rest c
  end.

Definition is_high (u : Z) : bool := (0xD800 <=? u) && (u <=? 0xDBFF).
Definition is_low (u : Z) : bool := (0xDC00 <=? u) && (u <=? 0xDFFF).

(** [StringToCodePoints]: a high surrogate followed by a low one is one
    code point, any other code unit stands for itself. *)
Fixpoint code_points (s : str) : list Z :=
  match s with
  | [] => []
  | hi :: rest =>
      match rest with
      | lo :: rest' =>
          if is_high hi && is_low lo
          then (0x10000 + (hi - 0xD800) * 0x400 + (lo - 0xDC00))
               :: code_points rest'
          else hi :: code_points rest
      | [] => [hi]
      end
  end.

(** [CodePointsToString], for one code point. *)
Definition units (c : Z) : str :=
  if c <? 0x10000 then [c]
  else [0xD800 + (c - 0x10000) / 0x400; 0xDC00 + (c - 0x10000) mod 0x400].

(** Whether, skipping the case-ignorable code points, the next one is
    cased. *)
Fixpoint reaches_cased (l : list Z) : bool :=
  match l with
  | [] => false
  | c :: l' =>
      if within case_ignorable_ranges c then reaches_cased l'
      else within cased_ranges c
  end.

(** The context [Final_Sigma]: [before] holds the code points in front,
    nearest first. *)
Definition final_sigma (before after : list Z) : bool :=
  reaches_cased before && negb (reaches_cased after).

Definition lower_point (before : list Z) (c : Z) (after : list Z) : list Z :=
  if c =? 0x3A3 then [if final_sigma before after then 0x3C2 else 0x3C3]
  else if c =? 0x130 then [0x69; 0x307]
  else [lower_in lower_runs c].

Fixpoint lower_points (before l : list Z) : list Z :=
  match l with
  | [] => []
  | c :: after =>
      lower_point before c after ++ lower_points (c :: before) after
  end.

(** [String.prototype.toLowerCase]: the default case conversion of
    Unicode, on code points. *)
Definition toLowerCase (s : str) : str :=
  flat_map units (lower_points [] (code_points s)).

Fixpoint trimStart (s : str) : str :=
  match s with
  | [] => []
  | u :: s' => if is_space u then trimStart s' else s
  end.

Fixpoint trimEnd (s : str) : str :=
  match s with
  | [] => []
  | u :: s' =>
      match trimEnd s' with
      | [] => if is_space u then [] else [u]
      | t => u :: t
      end
  end.

(** [String.prototype.trim] *)
Definition trim (s : str) : str := trimEnd (trimStart s).

(** [x || y] on an optional number: [undefined] and [0] are falsy. *)
Definition or_default (x : option Z) (y : Z) : Z :=
  match x with
  | Some v => if v =? 0 then y else v
  | None => y
  end.

End Js.

(** A literal stands for its string. *)
Coercion Js.lit : string >-> Js.str.

(** ** A JavaScript [Map]: keyed, iterated in insertion order *)

Module JsMap.

Definition t (V : Type) := list (string * V).

(** [m.get(k)] *)
Fixpoint get {V} (k : string) (m : t V) : option V :=
  match m with
  | [] => None
  | (k', v) :: m' => if String.eqb k k' then Some v else get k m'
  end.

(** [m.set(k, v)]: an existing key keeps its position, a new key goes
    last. *)
Fixpoint set {V} (k : string) (v : V) (m : t V) : t V :=
  match m with
  | [] => [(k, v)]
  | (k', v') :: m' =>
      if String.eqb k k' then (k', v) :: m' else (k', v') :: set k v m'
  end.

(** [m.delete(k)] *)
Fixpoint delete {V} (k : string) (m : t V) : t V :=
  match m with
  | [] => []
  | (k', v') :: m' =>
      if String.eqb k k' then delete k m' else (k', v') :: delete k m'
  end.

(** [Array.from(m.values())] *)
Definition values {V} (m : t V) : list V := map snd m.

Definition keys {V} (m : t V) : list string := map fst m.

(** [m.size] *)
Definition size {V} (m : t V) : nat := length m.

End JsMap.

(** ** Data model *)

(** [models/Question.js]: the three values of the [type] enum. *)
Inductive qtype := MultipleChoice | TrueFalse | FillInBlank.

Record opt := { text : Js.str; isCorrect : bool }.

Record qstats := { correctAnswers : Z; totalAnswers : Z; accuracyRate : Z }.

(** A question document. [correctAnswer] is required by the schema when
    the type is fill-in-blank and is read by the handlers only then. *)
Record question := {
  qid : string;
  qtext : string;
  type : qtype;
  options : list opt;
  correctAnswer : Js.str;
  points : Z;
  timeLimit : option Z;
  stats : qstats
}.

(** [models/Quiz.js], with [questions] populated. *)
Record quiz := {
  quiz_id : string;
  title : string;
  description : string;
  settings_timeLimit : Z;
  questions : list question
}.

(** An entry of [participant.answers]. *)
Record answer := {
  a_question : string;
  selectedAnswer : Js.str;
  a_isCorrect : Js.jsbool;
  timeSpent : Z;
  a_points : Z
}.

Record participant := {
  userId : string;
  username : string;
  score : Z;
  answers : list answer
}.

(** A value of [activeQuizSessions]. *)
Record session := {
  sess_quiz : quiz;
  participants : JsMap.t participant;
  currentQuestion : nat;
  isActive : bool;
  startTime : option Z
}.

(** The fields the join handler stores on the [socket] object. *)
Record socket := {
  sock_userId : string;
  sock_username : string;
  sock_quizId : string;
  roomId : string
}.

(** A pending [setTimeout]: the connection its callback emits to and the
    delay in milliseconds. *)
Record timer := { timer_sock : string; timer_ms : Z }.

Record world := {
  activeQuizSessions : gmap string session;
  sockets : gmap string socket;
  timers : list timer
}.

Definition initial_world : world :=
  {| activeQuizSessions := ∅; sockets := ∅; timers := [] |}.

(** ** What the handlers send *)

Record question_data := {
  questionNumber : nat;
  totalQuestions : nat;
  qd_question : string;
  qd_type : qtype;
  qd_options : list Js.str;
  qd_timeLimit : Z;
  qd_points : Z
}.

(** A leaderboard entry; [get-leaderboard] leaves [percentage] out. *)
Record entry := {
  e_username : string;
  e_score : Z;
  e_percentage : option Js.jsnum
}.

(** The document handed to [Score.create]. *)
Record score_doc := {
  sd_user : string;
  sd_quiz : string;
  sd_answers : list answer;
  sd_score : Z;
  sd_maxScore : Z;
  sd_percentage : Js.jsnum;
  sd_completed : bool;
  sd_completedAt : Z
}.

Inductive message :=
| MError (msg : string)
| MUserJoined (uid uname : string) (participantCount : nat)
| MQuizJoined (id ttl descr : string) (tl : Z) (participantCount : nat)
    (active : bool)
| MQuizStarted (qd : question_data)
| MNextQuestion (qd : option question_data)
| MAnswerResult (correct : Js.jsbool) (pts totalScore : Z)
    (revealed : option Js.str)
| MFinishQuiz
| MQuizCompleted (finalScore maxScore : Z) (percentage : Js.jsnum)
    (leaderboard : list entry) (rank : Z)
| MLeaderboardUpdate (leaderboard : list entry)
| MUserLeft (uname : string) (participantCount : nat).

Inductive effect :=
| Emit (sock : string) (m : message)                (* socket.emit *)
| Broadcast (room : string) (m : message)           (* io.to(room).emit *)
| BroadcastOthers (sock room : string) (m : message) (* socket.to(room).emit *)
| ScoreCreate (d : score_doc)
| QuestionSave (q : question).

(** What an awaited call of a collaborator settled to: the handlers
    that await run in a [try], whose [catch] reports a rejection to the
    connection. *)
Inductive awaited (A : Type) :=
| Resolved (a : A)
| Rejected.
Arguments Resolved {A} a.
Arguments Rejected {A}.

(** What running a handler leaves behind: the next world and the effects
    performed, or an uncaught [TypeError] (the synchronous handlers have
    no [try]). *)
Inductive result :=
| Ok (w : world) (out : list effect)
| Uncaught.

(** ** Answer evaluation (submit-answer, lines 200-212) *)

(** [isCorrect], as the [if]/[else if] chain computes it. *)
Definition check_answer (q : question) (selected : Js.str) : Js.jsbool :=
  match type q with
  | MultipleChoice =>
      match List.find isCorrect (options q) with
      | Some correctOption => Js.of_bool (Js.eqb (text correctOption) selected)
      | None => Js.JUndefined
      end
  | TrueFalse =>
      match List.find isCorrect (options q) with
      | Some correctOption => Js.of_bool (Js.eqb (text correctOption) selected)
      | None => Js.JUndefined
      end
  | FillInBlank =>
      Js.of_bool
        (Js.eqb (Js.trim (Js.toLowerCase (correctAnswer q)))
                    (Js.trim (Js.toLowerCase selected)))
  end.

(** [const points = isCorrect ? question.points : 0] *)
Definition award (q : question) (c : Js.jsbool) : Z :=
  if Js.truthy c then points q else 0.

(** [question.updateStats()] after the two counters were incremented. *)
Definition bump_stats (c : Js.jsbool) (st : qstats) : qstats :=
  let total := totalAnswers st + 1 in
  let correct := if Js.truthy c then correctAnswers st + 1 else correctAnswers st in
  {| correctAnswers := correct;
     totalAnswers := total;
     accuracyRate :=
       if 0 <? total then
         match Js.round_percent correct total with
         | Js.JInt r => r
         | _ => accuracyRate st
         end
       else accuracyRate st |}.

Definition with_stats (q : question) (st : qstats) : question :=
  {| qid := qid q; qtext := qtext q; type := type q; options := options q;
     correctAnswer := correctAnswer q; points := points q;
     timeLimit := timeLimit q; stats := st |}.

(** ** The leaderboard (finish-quiz lines 307-313, get-leaderboard 343-348) *)

(** [Array.prototype.sort] is a stable sort: an element moves behind the
    elements the comparator puts strictly before it and stays in front of
    the later elements it compares equal to. [insert_by cmp x l] places
    [x], which preceded all of [l], into the sorted [l]. *)
Fixpoint insert_by {A} (cmp : A -> A -> Z) (x : A) (l : list A) : list A :=
  match l with
  | [] => [x]
  | y :: l' => if 0 <? cmp x y then y :: insert_by cmp x l' else x :: l
  end.

Fixpoint sort_by {A} (cmp : A -> A -> Z) (l : list A) : list A :=
  match l with
  | [] => []
  | x :: l' => insert_by cmp x (sort_by cmp l')
  end.

(** [(a, b) => b.score - a.score] *)
Definition by_score_desc (a b : entry) : Z := e_score b - e_score a.

(** [Array.prototype.findIndex]: [-1] when no element passes. *)
Fixpoint findIndex {A} (f : A -> bool) (l : list A) : Z :=
  match l with
  | [] => -1
  | x :: l' =>
      if f x then 0
      else let i := findIndex f l' in if i <? 0 then -1 else i + 1
  end.

(** [session.quiz.questions.reduce((total, q) => total + q.points, 0)] *)
Definition maxScore_of (qs : list question) : Z :=
  fold_left (fun total q => total + points q) qs 0.

Definition finish_entry (maxScore : Z) (p : participant) : entry :=
  {| e_username := username p;
     e_score := score p;
     e_percentage := Some (Js.round_percent (score p) maxScore) |}.

Definition live_entry (p : participant) : entry :=
  {| e_username := username p; e_score := score p; e_percentage := None |}.

(** The leaderboard of the finish handler. *)
Definition finish_leaderboard (maxScore : Z) (ps : JsMap.t participant)
  : list entry :=
  sort_by by_score_desc (map (finish_entry maxScore) (JsMap.values ps)).

(** The leaderboard of the get-leaderboard handler. *)
Definition live_leaderboard (ps : JsMap.t participant) : list entry :=
  sort_by by_score_desc (map live_entry (JsMap.values ps)).

(** ** The handlers *)

Definition with_sessions (w : world) (m : gmap string session) : world :=
  {| activeQuizSessions := m; sockets := sockets w; timers := timers w |}.

Definition with_participants (s : session) (ps : JsMap.t participant)
  : session :=
  {| sess_quiz := sess_quiz s; participants := ps;
     currentQuestion := currentQuestion s; isActive := isActive s;
     startTime := startTime s |}.

(** [activeQuizSessions.get(socket.roomId)], with the room id. *)
Definition session_of (sk : string) (w : world) : option (string * session) :=
  match sockets w !! sk with
  | Some so =>
      match activeQuizSessions w !! roomId so with
      | Some s => Some (roomId so, s)
      | None => None
      end
  | None => None
  end.

Definition fresh_session (qz : quiz) : session :=
  {| sess_quiz := qz; participants := []; currentQuestion := 0%nat;
     isActive := false; startTime := None |}.

Definition fresh_participant (uid uname : string) : participant :=
  {| userId := uid; username := uname; score := 0; answers := [] |}.

Definition room_name (quizId : string) : string := "quiz-" +:+ quizId.

(** [join-quiz]; [found] is how [Quiz.findById(quizId).populate(...)]
    settled. *)
Definition join_quiz (sk quizId uid uname : string)
    (found : awaited (option quiz)) (w : world) : result :=
  match found with
  | Rejected => Ok w [Emit sk (MError "Failed to join quiz")]
  | Resolved None => Ok w [Emit sk (MError "Quiz not found")]
  | Resolved (Some qz) =>
      let room := room_name quizId in
      let so := {| sock_userId := uid; sock_username := uname;
                   sock_quizId := quizId; roomId := room |} in
      let s0 := match activeQuizSessions w !! room with
                | Some s => s
                | None => fresh_session qz
                end in
      let s1 := with_participants s0
                  (JsMap.set sk (fresh_participant uid uname) (participants s0)) in
      Ok {| activeQuizSessions := <[room := s1]> (activeQuizSessions w);
            sockets := <[sk := so]> (sockets w);
            timers := timers w |}
         [BroadcastOthers sk room
            (MUserJoined uid uname (JsMap.size (participants s1)));
          Emit sk
            (MQuizJoined (quiz_id qz) (title qz) (description qz)
               (settings_timeLimit qz) (JsMap.size (participants s1))
               (isActive s1))]
  end.

Definition payload (number : nat) (qz : quiz) (q : question) : question_data :=
  {| questionNumber := number;
     totalQuestions := length (questions qz);
     qd_question := qtext q;
     qd_type := type q;
     qd_options := map text (options q);
     qd_timeLimit := Js.or_default (timeLimit q) (settings_timeLimit qz);
     qd_points := points q |}.

Definition arm (sk : string) (qz : quiz) (q : question) : timer :=
  {| timer_sock := sk;
     timer_ms := Js.or_default (timeLimit q) (settings_timeLimit qz) * 1000 |}.

(** [start-quiz]; [now] is [new Date()]. The three assignments come
    before [question.question], which throws when the quiz has no
    question. *)
Definition start_quiz (sk : string) (now : Z) (w : world) : result :=
  match session_of sk w with
  | None => Ok w []
  | Some (room, s) =>
      let s1 := {| sess_quiz := sess_quiz s; participants := participants s;
                   currentQuestion := 0%nat; isActive := true;
                   startTime := Some now |} in
      match questions (sess_quiz s) !! 0%nat with
      | None => Uncaught
      | Some q =>
          Ok {| activeQuizSessions := <[room := s1]> (activeQuizSessions w);
                sockets := sockets w;
                timers := timers w ++ [arm sk (sess_quiz s) q] |}
             [Broadcast room (MQuizStarted (payload 1 (sess_quiz s) q))]
      end
  end.

(** [submit-answer]; [found] is how [Question.findById(questionId)]
    settled and [saved] tells whether [question.save()] resolved. *)
Definition submit_answer (sk questionId : string) (selected : Js.str)
    (spent : Z)
    (found : awaited (option question)) (saved : bool) (w : world) : result :=
  match session_of sk w with
  | None => Ok w []
  | Some (room, s) =>
      if negb (isActive s) then Ok w []
      else
        match JsMap.get sk (participants s) with
        | None => Ok w []
        | Some p =>
            match found with
            | Rejected => Ok w [Emit sk (MError "Failed to submit answer")]
            | Resolved None => Ok w []
            | Resolved (Some q) =>
                let c := check_answer q selected in
                let pts := award q c in
                let p1 := {| userId := userId p; username := username p;
                             score := score p + pts;
                             answers := answers p ++
                               [{| a_question := questionId;
                                   selectedAnswer := selected;
                                   a_isCorrect := c;
                                   timeSpent := spent;
                                   a_points := pts |}] |} in
                let s1 := with_participants s
                            (JsMap.set sk p1 (participants s)) in
                let w1 := with_sessions w
                            (<[room := s1]> (activeQuizSessions w)) in
                let q1 := with_stats q (bump_stats c (stats q)) in
                Ok w1
                  (QuestionSave q1 ::
                   if saved then
                     [Emit sk
                        (MAnswerResult c pts (score p1)
                           (match type q with
                            | FillInBlank => Some (correctAnswer q)
                            | _ => option_map text
                                     (List.find isCorrect (options q))
                            end))]
                   else [Emit sk (MError "Failed to submit answer")])
            end
        end
  end.

(** [next-question] *)
Definition next_question (sk : string) (w : world) : result :=
  match session_of sk w with
  | None => Ok w []
  | Some (room, s) =>
      if negb (isActive s) then Ok w []
      else
        let n := S (currentQuestion s) in
        let s1 := {| sess_quiz := sess_quiz s; participants := participants s;
                     currentQuestion := n; isActive := isActive s;
                     startTime := startTime s |} in
        let m1 := <[room := s1]> (activeQuizSessions w) in
        if (length (questions (sess_quiz s)) <=? n)%nat then
          Ok (with_sessions w m1) [Emit sk MFinishQuiz]
        else
          match questions (sess_quiz s) !! n with
          | None => Uncaught
          | Some q =>
              Ok {| activeQuizSessions := m1; sockets := sockets w;
                    timers := timers w ++ [arm sk (sess_quiz s) q] |}
                 [Broadcast room
                    (MNextQuestion (Some (payload (n + 1) (sess_quiz s) q)))]
          end
  end.

(** Removal of a participant and of the session it leaves empty
    (finish-quiz lines 324-330, disconnect lines 360-371). *)
Definition leave (sk room : string) (s : session) (w : world) : world :=
  let ps := JsMap.delete sk (participants s) in
  with_sessions w
    (if (JsMap.size ps =? 0)%nat then delete room (activeQuizSessions w)
     else <[room := with_participants s ps]> (activeQuizSessions w)).

(** [finish-quiz] with nothing else handled during its awaits, so that
    [socket.roomId] is at line 329 what it was at line 283; [now] is
    [new Date()] and [stored] tells whether [Score.create] and
    [quiz.updateStats] both resolved. When either is rejected the [catch]
    reports the error and nothing else happens, whichever of the two it
    was: after a rejected [updateStats] the document has been stored all
    the same. [finish_begin], [finish_created] and [finish_end] are the
    three stretches of the handler, one by one. *)
Definition finish_quiz (sk : string) (now : Z) (stored : bool) (w : world)
  : result :=
  match session_of sk w with
  | None => Ok w []
  | Some (room, s) =>
      match JsMap.get sk (participants s) with
      | None => Ok w []
      | Some p =>
          let maxScore := maxScore_of (questions (sess_quiz s)) in
          let doc := {| sd_user := userId p;
                        sd_quiz := quiz_id (sess_quiz s);
                        sd_answers := answers p;
                        sd_score := score p;
                        sd_maxScore := maxScore;
                        sd_percentage := Js.round_percent (score p) maxScore;
                        sd_completed := true;
                        sd_completedAt := now |} in
          if stored then
            let leaderboard := finish_leaderboard maxScore (participants s) in
            Ok (leave sk room s w)
               [ScoreCreate doc;
                Emit sk
                  (MQuizCompleted (score p) maxScore
                     (Js.round_percent (score p) maxScore)
                     leaderboard
                     (findIndex
                        (fun e => String.eqb (e_username e) (username p))
                        leaderboard + 1))]
          else Ok w [ScoreCreate doc; Emit sk (MError "Failed to finish quiz")]
      end
  end.

(** [get-leaderboard] *)
Definition get_leaderboard (sk : string) (w : world) : result :=
  match session_of sk w with
  | None => Ok w []
  | Some (room, s) =>
      Ok w [Emit sk (MLeaderboardUpdate (live_leaderboard (participants s)))]
  end.

(** [disconnect] *)
Definition disconnect (sk : string) (w : world) : result :=
  match sockets w !! sk with
  | None => Ok w []
  | Some so =>
      match activeQuizSessions w !! roomId so with
      | None => Ok w []
      | Some s =>
          Ok (leave sk (roomId so) s w)
             [BroadcastOthers sk (roomId so)
                (MUserLeft (sock_username so)
                   (JsMap.size (JsMap.delete sk (participants s))))]
      end
  end.

(** ** Runs *)

(** An event a connection sends, with the answers of the collaborators
    its handler awaits. *)
Inductive event :=
| EJoin (sk quizId uid uname : string) (found : awaited (option quiz))
| EStart (sk : string) (now : Z)
| ESubmit (sk questionId : string) (selected : Js.str) (spent : Z)
    (found : awaited (option question)) (saved : bool)
| ENext (sk : string)
| EFinish (sk : string) (now : Z) (stored : bool)
| ELeaderboard (sk : string)
| EDisconnect (sk : string).

Definition handle (e : event) (w : world) : result :=
  match e with
  | EJoin sk quizId uid uname found => join_quiz sk quizId uid uname found w
  | EStart sk now => start_quiz sk now w
  | ESubmit sk questionId selected spent found saved =>
      submit_answer sk questionId selected spent found saved w
  | ENext sk => next_question sk w
  | EFinish sk now stored => finish_quiz sk now stored w
  | ELeaderboard sk => get_leaderboard sk w
  | EDisconnect sk => disconnect sk w
  end.

(** Sequencing: the effects add up, an uncaught exception ends the run. *)
Definition and_then (r : result) (k : world -> result) : result :=
  match r with
  | Ok w out =>
      match k w with
      | Ok w' out' => Ok w' (out ++ out')
      | Uncaught => Uncaught
      end
  | Uncaught => Uncaught
  end.

Fixpoint run (evs : list event) (w : world) : result :=
  match evs with
  | [] => Ok w []
  | e :: evs' => and_then (handle e w) (run evs')
  end.

(** The callback of the [setTimeout] calls (lines 181-183, 275-277):
    it emits [next-question], with no payload, to the connection. *)
Definition timeout_callback (t : timer) : list effect :=
  [Emit (timer_sock t) (MNextQuestion None)].

(** ** Timeouts *)

(** Modelled from the spec: the client of this repository, which is not
    among the sources. The callback of a timer only emits [next-question]
    to the connection ([timeout_callback]); the specification states that
    a self-fired timeout and an explicit advance route through the same
    operation, so the client answers a [next-question] that carries no
    question, which is what it receives from a timer, with the
    [next-question] event. *)
Definition client_answers (eff : effect) : list event :=
  match eff with
  | Emit sk (MNextQuestion None) => [ENext sk]
  | _ => []
  end.

(** [fire i w] lets the pending timer at position [i] elapse: it leaves
    the pending timers, its callback runs, and what the client answers
    to the callback's emits is handled. *)
Definition fire (i : nat) (w : world) : result :=
  match timers w !! i with
  | None => Ok w []
  | Some t =>
      and_then
        (Ok {| activeQuizSessions := activeQuizSessions w;
               sockets := sockets w;
               timers := delete i (timers w) |}
            (timeout_callback t))
        (run (flat_map client_answers (timeout_callback t)))
  end.

(** A step of a run with timers: an event of a client, or a timeout. *)
Inductive step :=
| Client (e : event)
| Timeout (i : nat).

Definition do_step (st : step) (w : world) : result :=
  match st with
  | Client e => handle e w
  | Timeout i => fire i w
  end.

Fixpoint run_timed (sts : list step) (w : world) : result :=
  match sts with
  | [] => Ok w []
  | st :: sts' => and_then (do_step st w) (run_timed sts')
  end.

(** ** Handlers that overlap

    [join-quiz], [submit-answer] and [finish-quiz] await their
    collaborators. While a handler is suspended at an [await] the
    handlers of other events run, and when it resumes it goes on with
    what it read before: the session and the participant are JavaScript
    objects, held by reference, whereas [socket.roomId] is read again.
    The handlers above are these handlers when nothing else is handled
    during their awaits. Here every synchronous stretch of a handler is
    a function of its own, on a [store] that keeps the objects apart
    from the places that refer to them. *)

(** A session object; its [participants] is a [Map] from connection ids
    to participant objects, given by their addresses. *)
Record session_object := {
  o_quiz : quiz;
  o_participants : JsMap.t nat;
  o_currentQuestion : nat;
  o_isActive : bool;
  o_startTime : option Z
}.

Record store := {
  registry : gmap string nat;              (* activeQuizSessions *)
  session_objects : gmap nat session_object;
  participant_objects : gmap nat participant;
  socket_fields : gmap string socket;
  pending_timers : list timer;
  next_address : nat
}.

Definition initial_store : store :=
  {| registry := ∅; session_objects := ∅; participant_objects := ∅;
     socket_fields := ∅; pending_timers := []; next_address := 0 |}.

(** What a handler waits for, with the locals it goes on with. An
    address always refers to an object of the store. *)
Inductive suspended :=
| AwaitQuiz (sk quizId uid uname : string)                      (* line 98 *)
| AwaitQuestion (sk : string) (participant : nat)
    (questionId : string) (selected : Js.str) (spent : Z)       (* line 197 *)
| AwaitSave (sk : string) (participant : nat) (q : question)
    (c : Js.jsbool) (pts : Z)                                   (* line 230 *)
| AwaitCreate (sk : string) (session participant : nat)
    (maxScore : Z)                                              (* line 292 *)
| AwaitStats (sk : string) (session participant : nat)
    (maxScore : Z).                                             (* line 304 *)

(** A synchronous stretch of a handler: the next store, the effects and
    the [await] it stops at, if any; or an uncaught [TypeError]. *)
Inductive outcome :=
| Goes (st : store) (out : list effect) (k : option suspended)
| Throws.

Definition put_session (a : nat) (o : session_object) (st : store) : store :=
  {| registry := registry st;
     session_objects := <[a := o]> (session_objects st);
     participant_objects := participant_objects st;
     socket_fields := socket_fields st;
     pending_timers := pending_timers st;
     next_address := next_address st |}.

Definition put_participant (a : nat) (p : participant) (st : store) : store :=
  {| registry := registry st;
     session_objects := session_objects st;
     participant_objects := <[a := p]> (participant_objects st);
     socket_fields := socket_fields st;
     pending_timers := pending_timers st;
     next_address := next_address st |}.

Definition put_registry (m : gmap string nat) (st : store) : store :=
  {| registry := m;
     session_objects := session_objects st;
     participant_objects := participant_objects st;
     socket_fields := socket_fields st;
     pending_timers := pending_timers st;
     next_address := next_address st |}.

Definition put_timer (t : timer) (st : store) : store :=
  {| registry := registry st;
     session_objects := session_objects st;
     participant_objects := participant_objects st;
     socket_fields := socket_fields st;
     pending_timers := pending_timers st ++ [t];
     next_address := next_address st |}.

Definition with_members (o : session_object) (ps : JsMap.t nat)
  : session_object :=
  {| o_quiz := o_quiz o; o_participants := ps;
     o_currentQuestion := o_currentQuestion o; o_isActive := o_isActive o;
     o_startTime := o_startTime o |}.

(** A Map of references to participant objects, by value. *)
Definition deref (objs : gmap nat participant) (ps : JsMap.t nat)
  : JsMap.t participant :=
  flat_map (fun ka => match objs !! snd ka with
                      | Some p => [(fst ka, p)]
                      | None => []
                      end) ps.

(** The participants of a session object, by value. *)
Definition members (st : store) (o : session_object) : JsMap.t participant :=
  deref (participant_objects st) (o_participants o).

(** [activeQuizSessions.get(socket.roomId)]: the room, the address of
    the session object and the object. *)
Definition session_at (sk : string) (st : store)
  : option (string * nat * session_object) :=
  match socket_fields st !! sk with
  | Some so =>
      match registry st !! roomId so with
      | Some a =>
          match session_objects st !! a with
          | Some o => Some (roomId so, a, o)
          | None => None
          end
      | None => None
      end
  | None => None
  end.

(** [join-quiz] from line 99 on, once [Quiz.findById] has settled. *)
Definition join_resumed (sk quizId uid uname : string)
    (found : awaited (option quiz)) (st : store) : outcome :=
  match found with
  | Rejected => Goes st [Emit sk (MError "Failed to join quiz")] None
  | Resolved None => Goes st [Emit sk (MError "Quiz not found")] None
  | Resolved (Some qz) =>
      let room := room_name quizId in
      let so := {| sock_userId := uid; sock_username := uname;
                   sock_quizId := quizId; roomId := room |} in
      (* lines 114-124 *)
      let '(a, o, next) :=
        match registry st !! room with
        | Some a =>
            (a,
             default {| o_quiz := qz; o_participants := [];
                        o_currentQuestion := 0%nat; o_isActive := false;
                        o_startTime := None |}
               (session_objects st !! a),
             next_address st)
        | None =>
            (next_address st,
             {| o_quiz := qz; o_participants := [];
                o_currentQuestion := 0%nat; o_isActive := false;
                o_startTime := None |},
             S (next_address st))
        end in
      (* lines 125-130: a new participant object *)
      let o1 := with_members o (JsMap.set sk next (o_participants o)) in
      Goes {| registry := <[room := a]> (registry st);
              session_objects := <[a := o1]> (session_objects st);
              participant_objects :=
                <[next := {| userId := uid; username := uname; score := 0;
                             answers := [] |}]> (participant_objects st);
              socket_fields := <[sk := so]> (socket_fields st);
              pending_timers := pending_timers st;
              next_address := S next |}
           [BroadcastOthers sk room
              (MUserJoined uid uname (JsMap.size (o_participants o1)));
            Emit sk
              (MQuizJoined (quiz_id qz) (title qz) (description qz)
                 (settings_timeLimit qz) (JsMap.size (o_participants o1))
                 (o_isActive o1))]
           None
  end.

(** [start-quiz] *)
Definition start_block (sk : string) (now : Z) (st : store) : outcome :=
  match session_at sk st with
  | None => Goes st [] None
  | Some (room, a, o) =>
      let o1 := {| o_quiz := o_quiz o; o_participants := o_participants o;
                   o_currentQuestion := 0%nat; o_isActive := true;
                   o_startTime := Some now |} in
      match questions (o_quiz o) !! 0%nat with
      | None => Throws
      | Some q =>
          Goes (put_timer (arm sk (o_quiz o) q) (put_session a o1 st))
               [Broadcast room (MQuizStarted (payload 1 (o_quiz o) q))]
               None
      end
  end.

(** [next-question] *)
Definition next_block (sk : string) (st : store) : outcome :=
  match session_at sk st with
  | None => Goes st [] None
  | Some (room, a, o) =>
      if negb (o_isActive o) then Goes st [] None
      else
        let n := S (o_currentQuestion o) in
        let o1 := {| o_quiz := o_quiz o; o_participants := o_participants o;
                     o_currentQuestion := n; o_isActive := o_isActive o;
                     o_startTime := o_startTime o |} in
        if (length (questions (o_quiz o)) <=? n)%nat then
          Goes (put_session a o1 st) [Emit sk MFinishQuiz] None
        else
          match questions (o_quiz o) !! n with
          | None => Throws
          | Some q =>
              Goes (put_timer (arm sk (o_quiz o) q) (put_session a o1 st))
                   [Broadcast room
                      (MNextQuestion (Some (payload (n + 1) (o_quiz o) q)))]
                   None
          end
  end.

(** [get-leaderboard] *)
Definition leaderboard_block (sk : string) (st : store) : outcome :=
  match session_at sk st with
  | None => Goes st [] None
  | Some (room, a, o) =>
      Goes st [Emit sk (MLeaderboardUpdate (live_leaderboard (members st o)))]
           None
  end.

(** [disconnect] *)
Definition disconnect_block (sk : string) (st : store) : outcome :=
  match socket_fields st !! sk, session_at sk st with
  | Some so, Some (room, a, o) =>
      let ps := JsMap.delete sk (o_participants o) in
      let st1 := put_session a (with_members o ps) st in
      Goes (if (JsMap.size ps =? 0)%nat
            then put_registry (delete room (registry st1)) st1
            else st1)
           [BroadcastOthers sk room
              (MUserLeft (sock_username so) (JsMap.size ps))]
           None
  | _, _ => Goes st [] None
  end.

(** [submit-answer] up to the [await] of line 197: the participant
    object is read here. *)
Definition submit_begin (sk questionId : string) (selected : Js.str)
    (spent : Z) (st : store) : outcome :=
  match session_at sk st with
  | None => Goes st [] None
  | Some (room, a, o) =>
      if negb (o_isActive o) then Goes st [] None
      else
        match JsMap.get sk (o_participants o) with
        | None => Goes st [] None
        | Some pa =>
            Goes st [] (Some (AwaitQuestion sk pa questionId selected spent))
        end
  end.

(** [submit-answer] from line 198 to the [await] of line 230: the
    participant object read before is updated, whether or not it still
    is in a session. *)
Definition submit_found (sk : string) (pa : nat) (questionId : string)
    (selected : Js.str) (spent : Z) (found : awaited (option question))
    (st : store) : outcome :=
  match found, participant_objects st !! pa with
  | Resolved (Some q), Some p =>
      let c := check_answer q selected in
      let pts := award q c in
      let p1 := {| userId := userId p; username := username p;
                   score := score p + pts;
                   answers := answers p ++
                     [{| a_question := questionId;
                         selectedAnswer := selected;
                         a_isCorrect := c;
                         timeSpent := spent;
                         a_points := pts |}] |} in
      Goes (put_participant pa p1 st)
           [QuestionSave (with_stats q (bump_stats c (stats q)))]
           (Some (AwaitSave sk pa q c pts))
  | Resolved None, _ => Goes st [] None
  | _, _ => Goes st [Emit sk (MError "Failed to submit answer")] None
  end.

(** [submit-answer] from line 232 on: [totalScore] is the score the
    participant object has by now. *)
Definition submit_saved (sk : string) (pa : nat) (q : question)
    (c : Js.jsbool) (pts : Z) (saved : bool) (st : store) : outcome :=
  match saved, participant_objects st !! pa with
  | true, Some p =>
      Goes st
        [Emit sk
           (MAnswerResult c pts (score p)
              (match type q with
               | FillInBlank => Some (correctAnswer q)
               | _ => option_map text (List.find isCorrect (options q))
               end))]
        None
  | _, _ => Goes st [Emit sk (MError "Failed to submit answer")] None
  end.

(** [finish-quiz] up to the [await] of line 292: the session and the
    participant objects are read, the document is built. *)
Definition finish_begin (sk : string) (now : Z) (st : store) : outcome :=
  match session_at sk st with
  | None => Goes st [] None
  | Some (room, a, o) =>
      match JsMap.get sk (o_participants o) with
      | None => Goes st [] None
      | Some pa =>
          match participant_objects st !! pa with
          | None => Goes st [Emit sk (MError "Failed to finish quiz")] None
          | Some p =>
              let maxScore := maxScore_of (questions (o_quiz o)) in
              Goes st
                [ScoreCreate
                   {| sd_user := userId p;
                      sd_quiz := quiz_id (o_quiz o);
                      sd_answers := answers p;
                      sd_score := score p;
                      sd_maxScore := maxScore;
                      sd_percentage := Js.round_percent (score p) maxScore;
                      sd_completed := true;
                      sd_completedAt := now |}]
                (Some (AwaitCreate sk a pa maxScore))
          end
      end
  end.

(** [finish-quiz] between its two awaits: line 304. *)
Definition finish_created (sk : string) (a pa : nat) (maxScore : Z)
    (created : bool) (st : store) : outcome :=
  if created then Goes st [] (Some (AwaitStats sk a pa maxScore))
  else Goes st [Emit sk (MError "Failed to finish quiz")] None.

(** [finish-quiz] from line 307 on. The leaderboard is built from the
    session object read at the start, as it is by now; the participant
    is deleted from that object; and when that leaves it empty, the
    room deleted from [activeQuizSessions] is [socket.roomId] as it is
    by now (line 329). *)
Definition finish_end (sk : string) (a pa : nat) (maxScore : Z)
    (updated : bool) (st : store) : outcome :=
  match updated, session_objects st !! a, participant_objects st !! pa with
  | true, Some o, Some p =>
      let leaderboard := finish_leaderboard maxScore (members st o) in
      let ps := JsMap.delete sk (o_participants o) in
      let st1 := put_session a (with_members o ps) st in
      Goes (if (JsMap.size ps =? 0)%nat
            then match socket_fields st !! sk with
                 | Some so => put_registry (delete (roomId so) (registry st1)) st1
                 | None => st1
                 end
            else st1)
           [Emit sk
              (MQuizCompleted (score p) maxScore
                 (Js.round_percent (score p) maxScore)
                 leaderboard
                 (findIndex
                    (fun e => String.eqb (e_username e) (username p))
                    leaderboard + 1))]
           None
  | _, _, _ => Goes st [Emit sk (MError "Failed to finish quiz")] None
  end.

(** An event as it arrives, without the answers of the collaborators. *)
Inductive request :=
| RJoin (sk quizId uid uname : string)
| RStart (sk : string) (now : Z)
| RSubmit (sk questionId : string) (selected : Js.str) (spent : Z)
| RNext (sk : string)
| RFinish (sk : string) (now : Z)
| RLeaderboard (sk : string)
| RDisconnect (sk : string).

(** The handler of an event up to its first [await]. *)
Definition arrive (r : request) (st : store) : outcome :=
  match r with
  | RJoin sk quizId uid uname =>
      Goes st [] (Some (AwaitQuiz sk quizId uid uname))
  | RStart sk now => start_block sk now st
  | RSubmit sk questionId selected spent =>
      submit_begin sk questionId selected spent st
  | RNext sk => next_block sk st
  | RFinish sk now => finish_begin sk now st
  | RLeaderboard sk => leaderboard_block sk st
  | RDisconnect sk => disconnect_block sk st
  end.

(** What an awaited call settles to. *)
Inductive settlement :=
| QuizIs (found : awaited (option quiz))
| QuestionIs (found : awaited (option question))
| Done (ok : bool).

(** A suspended handler goes on; an answer of another kind than the one
    it waits for leaves it waiting. *)
Definition resume (k : suspended) (a : settlement) (st : store) : outcome :=
  match k, a with
  | AwaitQuiz sk quizId uid uname, QuizIs found =>
      join_resumed sk quizId uid uname found st
  | AwaitQuestion sk pa questionId selected spent, QuestionIs found =>
      submit_found sk pa questionId selected spent found st
  | AwaitSave sk pa q c pts, Done saved => submit_saved sk pa q c pts saved st
  | AwaitCreate sk a pa maxScore, Done created =>
      finish_created sk a pa maxScore created st
  | AwaitStats sk a pa maxScore, Done updated =>
      finish_end sk a pa maxScore updated st
  | _, _ => Goes st [] (Some k)
  end.

(** The server: the store and the handlers suspended at an [await]. *)
Record server := { objects : store; waiting : list suspended }.

Definition initial_server : server :=
  {| objects := initial_store; waiting := [] |}.

(** What happens next: an event arrives, or the call the suspended
    handler at position [i] awaits settles. *)
Inductive action :=
| Arrive (r : request)
| Settle (i : nat) (a : settlement).

Inductive played :=
| Played (sv : server) (out : list effect)
| Crashed.

Definition continue (rest : list suspended) (o : outcome) : played :=
  match o with
  | Goes st out k =>
      Played {| objects := st; waiting := rest ++ option_list k |} out
  | Throws => Crashed
  end.

Definition act (a : action) (sv : server) : played :=
  match a with
  | Arrive r => continue (waiting sv) (arrive r (objects sv))
  | Settle i ans =>
      match waiting sv !! i with
      | None => Played sv []
      | Some k => continue (delete i (waiting sv)) (resume k ans (objects sv))
      end
  end.

Fixpoint play (acts : list action) (sv : server) : played :=
  match acts with
  | [] => Played sv []
  | a :: acts' =>
      match act a sv with
      | Played sv1 out =>
          match play acts' sv1 with
          | Played sv2 out' => Played sv2 (out ++ out')
          | Crashed => Crashed
          end
      | Crashed => Crashed
      end
  end.

(** The world a store stands for: every reference followed. *)
Definition session_value (st : store) (o : session_object) : session :=
  {| sess_quiz := o_quiz o; participants := members st o;
     currentQuestion := o_currentQuestion o; isActive := o_isActive o;
     startTime := o_startTime o |}.

Definition snapshot (st : store) : world :=
  {| activeQuizSessions :=
       omap (fun a => session_value st <$> session_objects st !! a)
         (registry st);
     sockets := socket_fields st;
     timers := pending_timers st |}.

(** ** [models/Question.js]: the save hook and the statistics *)

(** The two increments of submit-answer (lines 225-228). *)
Definition count_answer (c : Js.jsbool) (st : qstats) : qstats :=
  {| correctAnswers :=
       if Js.truthy c then correctAnswers st + 1 else correctAnswers st;
     totalAnswers := totalAnswers st + 1;
     accuracyRate := accuracyRate st |}.

(** [questionSchema.methods.updateStats] *)
Definition updateStats (st : qstats) : qstats :=
  if 0 <? totalAnswers st then
    {| correctAnswers := correctAnswers st;
       totalAnswers := totalAnswers st;
       accuracyRate :=
         match Js.round_percent (correctAnswers st) (totalAnswers st) with
         | Js.JInt r => r
         | _ => accuracyRate st
         end |}
  else st.

(** [questionSchema.pre('save')]: the message of the error the hook
    passes to [next], or [None] when it lets the save through. *)
Definition question_pre_save (q : question) : option string :=
  match type q with
  | MultipleChoice =>
      if existsb isCorrect (options q) then None
      else Some "At least one option must be marked as correct"
  | TrueFalse =>
      if (length (options q) =? 2)%nat then None
      else Some "True/False questions must have exactly 2 options"
  | FillInBlank => None
  end.

(** ** [models/Score.js]: the save hook *)

(** A Score document: the fields [Score.create] is given and
    [timeSpent], which the schema defaults to 0. *)
Record score_document := {
  sc_doc : score_doc;
  sc_timeSpent : Z
}.

Definition created_score (d : score_doc) : score_document :=
  {| sc_doc := d; sc_timeSpent := 0 |}.

(** [scoreSchema.pre('save')]; [answersModified] is
    [this.isModified('answers')]. The percentage is computed from the
    score just recomputed, behind the test [maxScore > 0]. *)
Definition score_pre_save (answersModified : bool) (s : score_document)
  : score_document :=
  if answersModified then
    let d := sc_doc s in
    let total :=
      fold_left (fun total a => total + a_points a) (sd_answers d) 0 in
    {| sc_doc :=
         {| sd_user := sd_user d; sd_quiz := sd_quiz d;
            sd_answers := sd_answers d;
            sd_score := total;
            sd_maxScore := sd_maxScore d;
            sd_percentage :=
              if 0 <? sd_maxScore d
              then Js.round_percent total (sd_maxScore d)
              else Js.JInt 0;
            sd_completed := sd_completed d;
            sd_completedAt := sd_completedAt d |};
       sc_timeSpent :=
         fold_left (fun total a => total + timeSpent a) (sd_answers d) 0 |}
  else s.

(** ** [models/Quiz.js]: the statistics *)

(** What [quizSchema.methods.updateStats] reads of a Score. *)
Record attempt := { at_score : Z; at_completed : bool }.

Record quiz_stats := {
  totalAttempts : nat;
  averageScore : Z;
  completionRate : Z
}.

(** [Math.round(a / b)] for integers [a] and [b], [b] positive. *)
Definition round_quot (a b : Z) : Z := (2 * a + b) / (2 * b).

(** [quizSchema.methods.updateStats]; [scores] is what
    [Score.find({ quiz: this._id })] resolved to. *)
Definition quiz_updateStats (scores : list attempt) : quiz_stats :=
  let n := length scores in
  {| totalAttempts := n;
     averageScore :=
       if (0 <? n)%nat then
         round_quot (fold_left (fun total sc => total + at_score sc) scores 0)
           (Z.of_nat n)
       else 0;
     completionRate :=
       if (0 <? n)%nat then
         match Js.round_percent
                 (Z.of_nat (length (List.filter at_completed scores)))
                 (Z.of_nat n) with
         | Js.JInt r => r
         | _ => 0
         end
       else 0 |}.

(** ** [utils/aiGenerator.js] *)

(** A question as the generator returns it, before [Question.create]. *)
Record draft := {
  d_question : string;
  d_type : string;
  d_options : list opt;
  d_explanation : string;
  d_difficulty : string;
  d_points : Z;
  d_order : nat
}.

Record generated := {
  g_title : string;
  g_description : string;
  g_questions : list draft
}.

(** The body of the loop of [generateFallbackQuiz], for [i] from 1. *)
Definition fallback_question (topic difficulty : string) (i : nat) : draft :=
  {| d_question := "Sample question " +:+ pretty i +:+ " about " +:+ topic;
     d_type := "multiple-choice";
     d_options :=
       [{| text := "Option A"; isCorrect := (i mod 4 =? 1)%nat |};
        {| text := "Option B"; isCorrect := (i mod 4 =? 2)%nat |};
        {| text := "Option C"; isCorrect := (i mod 4 =? 3)%nat |};
        {| text := "Option D"; isCorrect := (i mod 4 =? 0)%nat |}];
     d_explanation := "This is a sample explanation for question " +:+ pretty i;
     d_difficulty := difficulty;
     d_points := 10;
     d_order := (i - 1)%nat |}.

(** [generateFallbackQuiz]: the loop runs for [i = 1 .. numberOfQuestions],
    not at all when the number is below 1. *)
Definition generateFallbackQuiz (topic difficulty : string)
    (numberOfQuestions : Z) : generated :=
  {| g_title := topic +:+ " Quiz (Sample)";
     g_description :=
       "A sample quiz about " +:+ topic +:+
       ". Please configure AI service for actual generated content.";
     g_questions :=
       map (fallback_question topic difficulty)
         (seq 1 (Z.to_nat numberOfQuestions)) |}.

(** A question of the parsed reply: any field may be missing. *)
Record raw_question := {
  r_question : option string;
  r_type : option string;
  r_options : option (list opt);
  r_explanation : option string;
  r_difficulty : option string;
  r_points : option Z
}.

(** [x || d] on an optional string: [undefined] and the empty string are
    falsy. *)
Definition or_string (x : option string) (d : string) : string :=
  match x with
  | Some EmptyString => d
  | Some s => s
  | None => d
  end.

(** The function mapped over [quizData.questions] (lines 100-108 of the
    generator); an array is truthy also when empty. *)
Definition normalise_question (difficulty : string) (index : nat)
    (r : raw_question) : draft :=
  {| d_question := or_string (r_question r) ("Question " +:+ pretty (index + 1)%nat);
     d_type := or_string (r_type r) "multiple-choice";
     d_options := match r_options r with Some os => os | None => [] end;
     d_explanation := match r_explanation r with Some s => s | None => "" end;
     d_difficulty := or_string (r_difficulty r) difficulty;
     d_points := Js.or_default (r_points r) 10;
     d_order := index |}.

(** [Array.prototype.map] with the index. *)
Fixpoint map_index {A B} (f : nat -> A -> B) (i : nat) (l : list A) : list B :=
  match l with
  | [] => []
  | x :: l' => f i x :: map_index f (S i) l'
  end.

(** [l.slice(0, e)]: a negative [e] counts from the end. *)
Definition slice0 {A} (e : Z) (l : list A) : list A :=
  if e <? 0 then firstn (Z.to_nat (Z.of_nat (length l) + e)) l
  else firstn (Z.to_nat e) l.

(** How the request to the AI service ended: no key configured, a
    failed request or a reply that is no JSON object with a [questions]
    array or whose array holds a [null] (each of them throws inside the
    [try]), or the parsed object, its numbers taken as integers. *)
Inductive ai_reply :=
| NoApiKey
| RequestFailed
| NotAQuiz
| Parsed (ttl descr : option string) (qs : list raw_question).

(** [generateQuizWithAI]: every throw ends in the [catch], which returns
    the fallback quiz. *)
Definition generateQuizWithAI (topic difficulty : string)
    (numberOfQuestions : Z) (reply : ai_reply) : generated :=
  match reply with
  | Parsed ttl descr qs =>
      {| g_title := or_string ttl (topic +:+ " Quiz");
         g_description := or_string descr ("A quiz about " +:+ topic);
         g_questions :=
           slice0 numberOfQuestions
             (map_index (normalise_question difficulty) 0 qs) |}
  | _ => generateFallbackQuiz topic difficulty numberOfQuestions
  end.

(** * Vocabulary of the properties *)

(** [first_flagged os i o]: [o] is the option at position [i], it is
    flagged correct and no option before it is: the option
    [options.find(opt => opt.isCorrect)] returns. *)
Definition first_flagged (os : list opt) (i : nat) (o : opt) : Prop :=
  os !! i = Some o /\ isCorrect o = true /\
  forall j o', (j < i)%nat -> os !! j = Some o' -> isCorrect o' = false.

(** The record [submit-answer] pushes. *)
Definition graded (questionId : string) (selected : Js.str) (spent : Z)
    (q : question)
  : answer :=
  {| a_question := questionId; selectedAnswer := selected;
     a_isCorrect := check_answer q selected; timeSpent := spent;
     a_points := award q (check_answer q selected) |}.

(** The participant after an accepted submit. *)
Definition credited (p : participant) (a : answer) : participant :=
  {| userId := userId p; username := username p;
     score := score p + a_points a; answers := answers p ++ [a] |}.

(** The [correctAnswer] field of [answer-result]. *)
Definition revealed (q : question) : option Js.str :=
  match type q with
  | FillInBlank => Some (correctAnswer q)
  | _ => option_map text (List.find isCorrect (options q))
  end.

(** What an accepted submit performs: the save of the question with its
    counters incremented, then the result, or the error of the [catch]
    when the save was rejected. *)
Definition reply (sk : string) (q : question) (a : answer) (total : Z)
    (saved : bool) : list effect :=
  [QuestionSave (with_stats q (bump_stats (a_isCorrect a) (stats q)));
   if saved then
     Emit sk (MAnswerResult (a_isCorrect a) (a_points a) total (revealed q))
   else Emit sk (MError "Failed to submit answer")].

(** The four conditions under which [submit-answer] returns early. *)
Definition submit_ignored (sk : string) (found : awaited (option question))
    (w : world) : Prop :=
  session_of sk w = None \/
  (exists room s, session_of sk w = Some (room, s) /\
     (isActive s = false \/ JsMap.get sk (participants s) = None)) \/
  found = Resolved None.

(** Staleness: the question submitted for is one the session has already
    moved past. *)
Definition already_advanced (s : session) (q : question) : Prop :=
  exists i, (i < currentQuestion s)%nat /\ questions (sess_quiz s) !! i = Some q.

(** The invariant as the specification words it. *)
Definition index_in_range (w : world) : Prop :=
  forall room s,
    activeQuizSessions w !! room = Some s -> isActive s = true ->
    (currentQuestion s < length (questions (sess_quiz s)))%nat.

(** A question payload names a position inside the question list. *)
Definition payload_in_range (eff : effect) : Prop :=
  match eff with
  | Broadcast _ (MQuizStarted qd) | Broadcast _ (MNextQuestion (Some qd)) =>
      (1 <= questionNumber qd <= totalQuestions qd)%nat
  | _ => True
  end.

(** Entries in leaderboard order: never a smaller score in front. *)
Definition desc (a b : entry) : Prop := e_score b <= e_score a.

(** The entries of one score, which a stable sort keeps in order. *)
Definition has_score (v : Z) (e : entry) : bool := e_score e =? v.

(** The participants in leaderboard order, each with its connection:
    by score descending, those of one score as the [Map] iterates. *)
Definition standing (ps : JsMap.t participant) : list (string * participant) :=
  sort_by (fun a b => score (snd b) - score (snd a)) ps.

(** The sum of the point values of a question list. *)
Definition sum_points (qs : list question) : Z :=
  foldr Z.add 0 (map points qs).

(** The document finish-quiz hands to [Score.create]. *)
Definition finish_doc (now : Z) (s : session) (p : participant) : score_doc :=
  {| sd_user := userId p; sd_quiz := quiz_id (sess_quiz s);
     sd_answers := answers p; sd_score := score p;
     sd_maxScore := maxScore_of (questions (sess_quiz s));
     sd_percentage :=
       Js.round_percent (score p) (maxScore_of (questions (sess_quiz s)));
     sd_completed := true; sd_completedAt := now |}.

(** The rank finish-quiz reports. *)
Definition finish_rank (s : session) (p : participant) : Z :=
  findIndex (fun e => String.eqb (e_username e) (username p))
    (finish_leaderboard (maxScore_of (questions (sess_quiz s))) (participants s))
  + 1.

(** The leaderboard with each entry's connection kept beside it. *)
Definition keyed_leaderboard (maxScore : Z) (ps : JsMap.t participant)
  : list (string * entry) :=
  sort_by (fun a b => by_score_desc (snd a) (snd b))
    (map (fun kp => (fst kp, finish_entry maxScore (snd kp))) ps).

(** The 1-based place of connection [sk]'s own entry. *)
Definition own_place (sk : string) (maxScore : Z) (ps : JsMap.t participant)
  : Z :=
  findIndex (fun ke => String.eqb (fst ke) sk) (keyed_leaderboard maxScore ps) + 1.

(** The session a join leaves behind when the room had none. *)
Definition first_join_session (sk uid uname : string) (qz : quiz) : session :=
  {| sess_quiz := qz; participants := [(sk, fresh_participant uid uname)];
     currentQuestion := 0; isActive := false; startTime := None |}.

(** The number of finish signals among the effects. *)
Definition is_finish (eff : effect) : bool :=
  match eff with
  | Emit _ MFinishQuiz => true
  | _ => false
  end.

Definition finishes (out : list effect) : nat :=
  length (List.filter is_finish out).



(** The numbers of the questions broadcast, in order. *)
Definition asked_by (eff : effect) : list nat :=
  match eff with
  | Broadcast _ (MQuizStarted qd) => [questionNumber qd]
  | Broadcast _ (MNextQuestion (Some qd)) => [questionNumber qd]
  | _ => []
  end.

Definition asked (out : list effect) : list nat := flat_map asked_by out.







(** ** Sessions along a run *)

(** The events by which a participant leaves its session. *)
Definition leaves (e : event) (sk : string) : Prop :=
  e = EDisconnect sk \/ exists now, e = EFinish sk now true.

(** The ways the handler of an event changes a session that it leaves
    in the registry. *)
Inductive session_step : event -> session -> session -> Prop :=
| ss_same e s : session_step e s s
| ss_join sk quizId uid uname qz s :
    session_step (EJoin sk quizId uid uname (Resolved (Some qz))) s
      (with_participants s
         (JsMap.set sk (fresh_participant uid uname) (participants s)))
| ss_start sk now s q :
    questions (sess_quiz s) !! 0%nat = Some q ->
    session_step (EStart sk now) s
      {| sess_quiz := sess_quiz s; participants := participants s;
         currentQuestion := 0%nat; isActive := true; startTime := Some now |}
| ss_submit sk questionId selected spent q saved s p :
    isActive s = true ->
    JsMap.get sk (participants s) = Some p ->
    session_step (ESubmit sk questionId selected spent (Resolved (Some q)) saved) s
      (with_participants s
         (JsMap.set sk (credited p (graded questionId selected spent q))
            (participants s)))
| ss_next sk s :
    isActive s = true ->
    session_step (ENext sk) s
      {| sess_quiz := sess_quiz s; participants := participants s;
         currentQuestion := S (currentQuestion s); isActive := true;
         startTime := startTime s |}
| ss_leave e sk s :
    leaves e sk ->
    JsMap.delete sk (participants s) <> [] ->
    session_step e s
      (with_participants s (JsMap.delete sk (participants s))).

(** How the handler of [e] takes the registry [m] to [m']: room by room,
    a session stays and takes a [session_step], is created by a first
    join, or is removed with the leave of its last participant. *)
Definition sessions_step (e : event) (m m' : gmap string session) : Prop :=
  forall room,
    match m !! room, m' !! room with
    | Some s, Some s' => session_step e s s'
    | None, Some s' =>
        exists sk quizId uid uname qz,
          e = EJoin sk quizId uid uname (Resolved (Some qz)) /\
          room = room_name quizId /\
          s' = first_join_session sk uid uname qz
    | Some s, None =>
        exists sk, leaves e sk /\ JsMap.delete sk (participants s) = []
    | None, None => True
    end.

Definition every_session (Q : session -> Prop) (w : world) : Prop :=
  forall room s, activeQuizSessions w !! room = Some s -> Q s.

(** The points of an answer log. *)
Definition points_total (l : list answer) : Z := foldr Z.add 0 (map a_points l).

Definition scores_add_up (s : session) : Prop :=
  forall k p, In (k, p) (participants s) -> score p = points_total (answers p).

Definition populated (s : session) : Prop :=
  participants s <> [] /\ List.NoDup (JsMap.keys (participants s)).

Definition coherent (s : session) : Prop :=
  (isActive s = true <-> startTime s <> None) /\
  (isActive s = true -> questions (sess_quiz s) <> []) /\
  (isActive s = false -> currentQuestion s = 0%nat).

(** [sk] is no participant of the session of its room. *)
Definition absent (sk : string) (w : world) : Prop :=
  forall room s,
    session_of sk w = Some (room, s) -> JsMap.get sk (participants s) = None.

(** ** Handlers one after the other *)

(** A server at which no handler is suspended. *)
Definition idle (st : store) : server := {| objects := st; waiting := [] |}.

(** The handler of an event stretch by stretch with nothing in between:
    the event arrives and the calls it awaits settle, one after the
    other, as the event says. *)
Definition script (e : event) : list action :=
  match e with
  | EJoin sk quizId uid uname found =>
      [Arrive (RJoin sk quizId uid uname); Settle 0 (QuizIs found)]
  | EStart sk now => [Arrive (RStart sk now)]
  | ESubmit sk questionId selected spent found saved =>
      [Arrive (RSubmit sk questionId selected spent);
       Settle 0 (QuestionIs found); Settle 0 (Done saved)]
  | ENext sk => [Arrive (RNext sk)]
  | EFinish sk now stored =>
      [Arrive (RFinish sk now); Settle 0 (Done true); Settle 0 (Done stored)]
  | ELeaderboard sk => [Arrive (RLeaderboard sk)]
  | EDisconnect sk => [Arrive (RDisconnect sk)]
  end.

(** The session object [o] at address [a] is the session of [room]. *)
Definition registered (st : store) (room : string) (a : nat)
    (o : session_object) : Prop :=
  registry st !! room = Some a /\ session_objects st !! a = Some o.

(** The references of a store are in order: every address in use is
    below the next one to be given out and refers to an object, no
    session object is the session of two rooms, no participant object
    belongs to two connections or two sessions, and no connection is
    twice in a session. *)
Definition tidy (st : store) : Prop :=
  (forall room a,
     registry st !! room = Some a ->
     (a < next_address st)%nat /\
     exists o, session_objects st !! a = Some o /\
       List.NoDup (JsMap.keys (o_participants o)) /\
       forall k pa, In (k, pa) (o_participants o) ->
         (pa < next_address st)%nat /\
         is_Some (participant_objects st !! pa)) /\
  (forall r1 r2 a,
     registry st !! r1 = Some a -> registry st !! r2 = Some a -> r1 = r2) /\
  (forall r1 a1 o1 k1 r2 a2 o2 k2 pa,
     registered st r1 a1 o1 -> In (k1, pa) (o_participants o1) ->
     registered st r2 a2 o2 -> In (k2, pa) (o_participants o2) ->
     r1 = r2 /\ k1 = k2).

(** ** Where the effects go *)

(** The messages the handlers send to a room. *)
Definition public (m : message) : Prop :=
  match m with
  | MQuizStarted _ | MNextQuestion _ | MUserJoined _ _ _ | MUserLeft _ _ => True
  | _ => False
  end.

(** The connection an event comes from. *)
Definition sender (e : event) : string :=
  match e with
  | EJoin sk _ _ _ _ | EStart sk _ | ESubmit sk _ _ _ _ _ | ENext sk
  | EFinish sk _ _ | ELeaderboard sk | EDisconnect sk => sk
  end.

(** An effect of the handling of an event of [sk]: what goes to a single
    connection goes to [sk], what goes to a room is a public message. *)
Definition routed (sk : string) (eff : effect) : Prop :=
  match eff with
  | Emit to _ => to = sk
  | Broadcast _ m => public m
  | BroadcastOthers from _ m => from = sk /\ public m
  | ScoreCreate _ | QuestionSave _ => True
  end.

(** The time limits, in seconds, of the questions broadcast. *)
Definition limit_of (eff : effect) : list Z :=
  match eff with
  | Broadcast _ (MQuizStarted qd) => [qd_timeLimit qd]
  | Broadcast _ (MNextQuestion (Some qd)) => [qd_timeLimit qd]
  | _ => []
  end.

Definition time_limits (out : list effect) : list Z := flat_map limit_of out.

(** ** Text *)

(** What fill-in-blank answers are compared by. *)
Definition normalise (s : Js.str) : Js.str := Js.trim (Js.toLowerCase s).

(** A string that does not begin with white space. *)
Definition starts_clean (s : Js.str) : Prop :=
  match s with
  | [] => True
  | u :: _ => Js.is_space u = false
  end.

(** A text of ASCII characters, and what lowercasing does to one of its
    code units. *)
Definition ascii_text (s : Js.str) : Prop := Forall (fun u => 0 <= u < 128) s.

Definition ascii_lower (u : Z) : Z :=
  if (65 <=? u) && (u <=? 90) then u + 32 else u.

(** A string that does not end with white space. *)
Definition ends_clean (s : Js.str) : Prop := starts_clean (rev s).

(** [t] is [s] without the white space at its two ends. *)
Definition trimmed (s t : Js.str) : Prop :=
  exists pre post : Js.str,
    s = pre ++ (t ++ post) /\
    Forall (fun u => Js.is_space u = true) pre /\
    Forall (fun u => Js.is_space u = true) post /\
    starts_clean t /\ ends_clean t.

(** * Quizzes and worlds the properties are tried on *)

(** The examples of the specification. *)
Definition capital_options : list opt :=
  [{| text := "London"; isCorrect := false |};
   {| text := "Paris"; isCorrect := true |}].

Definition no_stats : qstats :=
  {| correctAnswers := 0; totalAnswers := 0; accuracyRate := 0 |}.

Definition capital_mc : question :=
  {| qid := "q0"; qtext := "Capital of France?"; type := MultipleChoice;
     options := capital_options; correctAnswer := ""; points := 10;
     timeLimit := Some 30; stats := no_stats |}.

Definition capital_blank : question :=
  {| qid := "q1"; qtext := "The capital of France is ..."; type := FillInBlank;
     options := []; correctAnswer := "Paris"; points := 5;
     timeLimit := None; stats := no_stats |}.

(** A blank with the stored answer [stored]. *)
Definition blank_of (stored : Js.str) : question :=
  {| qid := "b"; qtext := "Fill in"; type := FillInBlank;
     options := []; correctAnswer := stored; points := 5;
     timeLimit := None; stats := no_stats |}.

Definition capitals : quiz :=
  {| quiz_id := "Q"; title := "Capitals"; description := "Two questions";
     settings_timeLimit := 20; questions := [capital_mc; capital_blank] |}.

Definition one_question : quiz :=
  {| quiz_id := "Q1"; title := "One"; description := "One question";
     settings_timeLimit := 20; questions := [capital_mc] |}.

(** A quiz whose question list is empty. *)
Definition no_questions : quiz :=
  {| quiz_id := "E"; title := "Empty"; description := "No question";
     settings_timeLimit := 20; questions := [] |}.

(** The example of the specification: scores 50, 50 and 30. *)
Definition three_players : JsMap.t participant :=
  [("s1", {| userId := "u1"; username := "ann"; score := 50; answers := [] |});
   ("s2", {| userId := "u2"; username := "bob"; score := 30; answers := [] |});
   ("s3", {| userId := "u3"; username := "cy"; score := 50; answers := [] |})].

(** A room with one participant, in its second question. *)
Definition at_second_question : list event :=
  [EJoin "s1" "Q" "u1" "ann" (Resolved (Some capitals));
   EStart "s1" 1000; ENext "s1"].

Definition ann_socket : socket :=
  {| sock_userId := "u1"; sock_username := "ann"; sock_quizId := "Q";
     roomId := "quiz-Q" |}.

Definition second_question_session : session :=
  {| sess_quiz := capitals;
     participants := [("s1", fresh_participant "u1" "ann")];
     currentQuestion := 1; isActive := true; startTime := Some 1000 |}.

Definition second_question_world : world :=
  {| activeQuizSessions := {[ "quiz-Q" := second_question_session ]};
     sockets := {[ "s1" := ann_socket ]};
     timers := [arm "s1" capitals capital_mc; arm "s1" capitals capital_blank] |}.

(** The same room after the join, before [start-quiz]. *)
Definition waiting_world : world :=
  {| activeQuizSessions := {[ "quiz-Q" := with_participants (fresh_session capitals)
                                           [("s1", fresh_participant "u1" "ann")] ]};
     sockets := {[ "s1" := ann_socket ]};
     timers := [] |}.

(** A quiz of one question, joined, started and advanced once. *)
Definition past_the_end : list event :=
  [EJoin "s1" "Q1" "u1" "ann" (Resolved (Some one_question));
   EStart "s1" 1000; ENext "s1"].

Definition past_the_end_session : session :=
  {| sess_quiz := one_question;
     participants := [("s1", fresh_participant "u1" "ann")];
     currentQuestion := 1; isActive := true; startTime := Some 1000 |}.

Definition past_the_end_world : world :=
  {| activeQuizSessions := {[ "quiz-Q1" := past_the_end_session ]};
     sockets := {[ "s1" := {| sock_userId := "u1"; sock_username := "ann";
                              sock_quizId := "Q1"; roomId := "quiz-Q1" |} ]};
     timers := [arm "s1" one_question capital_mc] |}.

(** The room of the empty quiz after a join. *)
Definition empty_quiz_session : session :=
  with_participants (fresh_session no_questions)
    [("s1", fresh_participant "u1" "ann")].

Definition empty_quiz_world : world :=
  {| activeQuizSessions := {[ "quiz-E" := empty_quiz_session ]};
     sockets := {[ "s1" := {| sock_userId := "u1"; sock_username := "ann";
                              sock_quizId := "E"; roomId := "quiz-E" |} ]};
     timers := [] |}.

(** Two connections that joined under one name; the first has scored. *)
Definition shared_name : list event :=
  [EJoin "s1" "Q" "u1" "sam" (Resolved (Some capitals));
   EJoin "s2" "Q" "u2" "sam" (Resolved (Some capitals));
   EStart "s1" 1000;
   ESubmit "s1" "q0" "Paris" 3 (Resolved (Some capital_mc)) true].

Definition shared_name_session : session :=
  {| sess_quiz := capitals;
     participants :=
       [("s1", credited (fresh_participant "u1" "sam")
                 (graded "q0" "Paris" 3 capital_mc));
        ("s2", fresh_participant "u2" "sam")];
     currentQuestion := 0; isActive := true; startTime := Some 1000 |}.

Definition shared_name_world : world :=
  {| activeQuizSessions := {[ "quiz-Q" := shared_name_session ]};
     sockets :=
       <["s2" := {| sock_userId := "u2"; sock_username := "sam";
                    sock_quizId := "Q"; roomId := "quiz-Q" |}]>
         {[ "s1" := {| sock_userId := "u1"; sock_username := "sam";
                       sock_quizId := "Q"; roomId := "quiz-Q" |} ]};
     timers := [arm "s1" capitals capital_mc] |}.

(** The same room after an advance to the second question. *)
Definition shared_name_session_advanced : session :=
  {| sess_quiz := capitals;
     participants := participants shared_name_session;
     currentQuestion := 1; isActive := true; startTime := Some 1000 |}.

Definition shared_name_advanced : world :=
  {| activeQuizSessions := {[ "quiz-Q" := shared_name_session_advanced ]};
     sockets := sockets shared_name_world;
     timers := timers shared_name_world ++ [arm "s1" capitals capital_blank] |}.

(** The room of [second_question_world] torn down by the finish of its
    only participant. *)
Definition finished_world : world :=
  {| activeQuizSessions := ∅;
     sockets := sockets second_question_world;
     timers := timers second_question_world |}.

(** A true-false question whose two options are both unflagged. *)
Definition unflagged_true_false : question :=
  {| qid := "q2"; qtext := "Paris is the capital of France."; type := TrueFalse;
     options := [{| text := "True"; isCorrect := false |};
                 {| text := "False"; isCorrect := false |}];
     correctAnswer := ""; points := 10; timeLimit := None; stats := no_stats |}.

(** A finish-quiz overlapped by a join of the same connection. The
    connection joins the two-question quiz, starts it and advances once;
    its finish-quiz is suspended at [Score.create] when its join-quiz to
    another quiz is handled; then the two awaited calls of the finish
    resolve. *)
Definition overlapped_finish : list action :=
  [Arrive (RJoin "s1" "Q" "u1" "ann");
   Settle 0 (QuizIs (Resolved (Some capitals)));
   Arrive (RStart "s1" 1000);
   Arrive (RNext "s1");
   Arrive (RFinish "s1" 2000);
   Arrive (RJoin "s1" "Q1" "u1" "ann");
   Settle 1 (QuizIs (Resolved (Some one_question)));
   Settle 0 (Done true);
   Settle 0 (Done true)].

(** The same events, the finish-quiz running to its end before the
    join-quiz is handled. *)
Definition finish_then_join : list action :=
  [Arrive (RJoin "s1" "Q" "u1" "ann");
   Settle 0 (QuizIs (Resolved (Some capitals)));
   Arrive (RStart "s1" 1000);
   Arrive (RNext "s1");
   Arrive (RFinish "s1" 2000);
   Settle 0 (Done true);
   Settle 0 (Done true);
   Arrive (RJoin "s1" "Q1" "u1" "ann");
   Settle 0 (QuizIs (Resolved (Some one_question)))].

(** A later join to the room of the two-question quiz. *)
Definition later_join : list action :=
  [Arrive (RJoin "s2" "Q" "u2" "bob");
   Settle 0 (QuizIs (Resolved (Some capitals)))].



(** * Properties *)

(** ** The insertion-ordered map *)

Lemma jsmap_get_set_eq {V} (k : string) (v : V) (m : JsMap.t V) :
  JsMap.get k (JsMap.set k v m) = Some v.
Proof.
  induction m as [|[k' v'] m IH]; simpl.
  - now rewrite String.eqb_refl.
  - destruct (String.eqb k k') eqn:E; simpl; rewrite E; [reflexivity|exact IH].
Qed.

Lemma jsmap_get_set_ne {V} (k k' : string) (v : V) (m : JsMap.t V) :
  k <> k' -> JsMap.get k' (JsMap.set k v m) = JsMap.get k' m.
Proof.
  intros Hne. induction m as [|[k0 v0] m IH]; simpl.
  - destruct (String.eqb k' k) eqn:E; [|reflexivity].
    apply String.eqb_eq in E. congruence.
  - destruct (String.eqb k k0) eqn:E; simpl.
    + apply String.eqb_eq in E. subst k0.
      destruct (String.eqb k' k) eqn:E'; [|reflexivity].
      apply String.eqb_eq in E'. congruence.
    + now rewrite IH.
Qed.

Lemma jsmap_get_delete_eq {V} (k : string) (m : JsMap.t V) :
  JsMap.get k (JsMap.delete k m) = None.
Proof.
  induction m as [|[k' v'] m IH]; simpl; [reflexivity|].
  destruct (String.eqb k k') eqn:E; simpl; [exact IH|now rewrite E].
Qed.

Lemma jsmap_get_delete_ne {V} (k k' : string) (m : JsMap.t V) :
  k <> k' -> JsMap.get k' (JsMap.delete k m) = JsMap.get k' m.
Proof.
  intros Hne. induction m as [|[k0 v0] m IH]; simpl; [reflexivity|].
  destruct (String.eqb k k0) eqn:E; simpl.
  - apply String.eqb_eq in E. subst k0.
    destruct (String.eqb k' k) eqn:E'; [|exact IH].
    apply String.eqb_eq in E'. congruence.
  - now rewrite IH.
Qed.

(** Setting a key that is present keeps every position. *)
Lemma jsmap_keys_set_present {V} (k : string) (v v0 : V) (m : JsMap.t V) :
  JsMap.get k m = Some v0 -> JsMap.keys (JsMap.set k v m) = JsMap.keys m.
Proof.
  induction m as [|[k' v'] m IH]; simpl; [discriminate|].
  destruct (String.eqb k k') eqn:E; simpl; intros H; [reflexivity|].
  f_equal. now apply IH.
Qed.

Lemma jsmap_set_length_present {V} (k : string) (v v0 : V) (m : JsMap.t V) :
  JsMap.get k m = Some v0 -> length (JsMap.set k v m) = length m.
Proof.
  intros H.
  pose proof (jsmap_keys_set_present k v v0 m H) as E.
  apply (f_equal (@length _)) in E. unfold JsMap.keys in E.
  now rewrite !length_map in E.
Qed.

(** The keys stay distinct: [delete], which drops every entry of the key,
    drops the only one. *)

Lemma jsmap_keys_set_absent {V} (k : string) (v : V) (m : JsMap.t V) :
  JsMap.get k m = None -> JsMap.keys (JsMap.set k v m) = JsMap.keys m ++ [k].
Proof.
  induction m as [|[k' v'] m IH]; simpl; [reflexivity|].
  destruct (String.eqb k k') eqn:E; [discriminate|]. simpl.
  intros H. now rewrite IH.
Qed.

Lemma jsmap_get_None_keys {V} (k : string) (m : JsMap.t V) :
  JsMap.get k m = None <-> ~ In k (JsMap.keys m).
Proof.
  induction m as [|[k' v'] m IH]; simpl; [tauto|].
  destruct (String.eqb_spec k k') as [->|Hne].
  - split; [discriminate|]. intros H. exfalso. apply H. now left.
  - rewrite IH. split; [|tauto]. intros H [E|Hin]; [congruence|tauto].
Qed.

Lemma jsmap_set_NoDup {V} (k : string) (v : V) (m : JsMap.t V) :
  List.NoDup (JsMap.keys m) -> List.NoDup (JsMap.keys (JsMap.set k v m)).
Proof.
  intros Hnd. destruct (JsMap.get k m) as [v0|] eqn:E.
  - now rewrite (jsmap_keys_set_present k v v0 m E).
  - rewrite (jsmap_keys_set_absent k v m E).
    apply jsmap_get_None_keys in E.
    apply Permutation_NoDup with (l := k :: JsMap.keys m).
    + apply Permutation_cons_append.
    + now constructor.
Qed.

Lemma jsmap_delete_keys {V} (k : string) (m : JsMap.t V) :
  forall k', In k' (JsMap.keys (JsMap.delete k m)) -> In k' (JsMap.keys m).
Proof.
  induction m as [|[k0 v0] m IH]; simpl; [tauto|]. intros k'.
  destruct (String.eqb k k0); simpl; intros H.
  - right. now apply IH.
  - destruct H as [->|H]; [now left|right; now apply IH].
Qed.

Lemma jsmap_delete_NoDup {V} (k : string) (m : JsMap.t V) :
  List.NoDup (JsMap.keys m) -> List.NoDup (JsMap.keys (JsMap.delete k m)).
Proof.
  induction m as [|[k0 v0] m IH]; simpl; [constructor|].
  intros Hnd. apply List.NoDup_cons_iff in Hnd as [Hnin Hnd].
  destruct (String.eqb k k0); simpl; [now apply IH|].
  constructor; [|now apply IH]. intros Hin. apply Hnin.
  now apply jsmap_delete_keys in Hin.
Qed.

Lemma jsmap_get_In {V} (k : string) (p : V) (m : JsMap.t V) :
  JsMap.get k m = Some p -> In (k, p) m.
Proof.
  induction m as [|[k0 v0] m IH]; simpl; [discriminate|].
  destruct (String.eqb_spec k k0) as [->|Hne].
  - intros [= ->]. now left.
  - intros H. right. now apply IH.
Qed.

(** ** C2: answer evaluation *)

Lemma find_first_flagged (os : list opt) (o : opt) :
  List.find isCorrect os = Some o <-> exists i, first_flagged os i o.
Proof.
  unfold first_flagged. induction os as [|x os IH]; simpl.
  - split; [discriminate|]. intros (i & H & _). destruct i; discriminate.
  - destruct (isCorrect x) eqn:Ex.
    + split.
      * intros [= <-]. exists 0%nat. repeat split; auto. intros j o' Hj. lia.
      * intros ([|i] & H & Ho & Hlt).
        -- simpl in H. congruence.
        -- specialize (Hlt 0%nat x ltac:(lia) eq_refl). congruence.
    + rewrite IH. split.
      * intros (i & H & Ho & Hlt). exists (S i). repeat split; auto.
        intros [|j] o' Hj Hl; simpl in Hl; [congruence|].
        apply (Hlt j); [lia|exact Hl].
      * intros ([|i] & H & Ho & Hlt).
        -- simpl in H. congruence.
        -- exists i. repeat split; auto. intros j o' Hj Hl.
           apply (Hlt (S j)); [lia|exact Hl].
Qed.

Lemma of_bool_true (b : bool) : Js.of_bool b = Js.JTrue <-> b = true.
Proof. destruct b; simpl; split; congruence. Qed.

(** *** Strings *)

Lemma js_eqb_eq (a b : Js.str) : Js.eqb a b = true <-> a = b.
Proof.
  revert b. induction a as [|x a IH]; intros [|y b]; simpl;
    try (split; [discriminate|discriminate]); [split; reflexivity|].
  rewrite andb_true_iff, Z.eqb_eq, IH. split.
  - intros [-> ->]. reflexivity.
  - intros [= -> ->]. auto.
Qed.

Lemma js_eqb_refl (a : Js.str) : Js.eqb a a = true.
Proof. now apply js_eqb_eq. Qed.

Lemma trimStart_split (s : Js.str) :
  exists pre, s = pre ++ Js.trimStart s /\
              Forall (fun u => Js.is_space u = true) pre.
Proof.
  induction s as [|u s (pre & E & Hpre)]; simpl; [now exists []|].
  destruct (Js.is_space u) eqn:Eu.
  - exists (u :: pre). simpl. split; [now f_equal|now constructor].
  - now exists [].
Qed.

Lemma trimEnd_split (s : Js.str) :
  exists post, s = Js.trimEnd s ++ post /\
               Forall (fun u => Js.is_space u = true) post.
Proof.
  induction s as [|u s (post & E & Hpost)]; simpl; [now exists []|].
  destruct (Js.trimEnd s) as [|a t] eqn:Et.
  - destruct (Js.is_space u) eqn:Eu.
    + exists (u :: post). simpl in *. split; [now f_equal|now constructor].
    + exists post. simpl in *. split; [now f_equal|exact Hpost].
  - exists post. split; [|exact Hpost]. simpl. now f_equal.
Qed.

Lemma trimStart_clean (s : Js.str) : starts_clean (Js.trimStart s).
Proof.
  induction s as [|c s IH]; simpl; [exact I|].
  destruct (Js.is_space c) eqn:E; [exact IH|exact E].
Qed.

Lemma clean_trimStart (s : Js.str) : starts_clean s -> Js.trimStart s = s.
Proof. destruct s as [|c s]; simpl; [reflexivity|]. now intros ->. Qed.

Lemma clean_trimEnd (s : Js.str) : starts_clean s -> starts_clean (Js.trimEnd s).
Proof.
  destruct s as [|c s]; simpl; [auto|]. intros Hc.
  destruct (Js.trimEnd s); simpl; [now rewrite Hc|exact Hc].
Qed.

Lemma trimEnd_ends_clean (s : Js.str) : ends_clean (Js.trimEnd s).
Proof.
  unfold ends_clean. induction s as [|u s IH]; simpl; [exact I|].
  destruct (Js.trimEnd s) as [|a t] eqn:Et.
  - destruct (Js.is_space u) eqn:Eu; simpl; [exact I|exact Eu].
  - change (rev (u :: a :: t)) with (rev (a :: t) ++ [u]).
    destruct (rev (a :: t)) as [|x r] eqn:Er; [|exact IH].
    apply (f_equal (@length Z)) in Er. rewrite length_rev in Er. discriminate.
Qed.

(** [trim] removes the white space at the two ends and nothing else. *)
Lemma trim_trimmed (s : Js.str) : trimmed s (Js.trim s).
Proof.
  unfold Js.trim. destruct (trimStart_split s) as (pre & E1 & Hpre).
  destruct (trimEnd_split (Js.trimStart s)) as (post & E2 & Hpost).
  exists pre, post. split; [now rewrite <- E2|].
  split; [exact Hpre|]. split; [exact Hpost|].
  split; [apply clean_trimEnd, trimStart_clean|apply trimEnd_ends_clean].
Qed.

(** Lowercasing an ASCII text: no surrogate, no sigma, no dotted I. *)
Lemma lower_in_ascii (c : Z) :
  0 <= c < 128 -> Js.lower_in Js.lower_runs c = ascii_lower c.
Proof.
  intros Hc.
  assert (H : forallb (fun n => Js.lower_in Js.lower_runs (Z.of_nat n)
                                =? ascii_lower (Z.of_nat n))
                (seq 0 128) = true) by (vm_compute; reflexivity).
  rewrite forallb_forall in H.
  specialize (H (Z.to_nat c)). rewrite Z2Nat.id in H by lia.
  apply Z.eqb_eq, H, in_seq. lia.
Qed.

Lemma code_points_ascii (s : Js.str) : ascii_text s -> Js.code_points s = s.
Proof.
  induction 1 as [|u s Hu Hs IH]; [reflexivity|].
  cbn [Js.code_points]. destruct s as [|v s']; [reflexivity|].
  assert (Js.is_high u = false) as ->
    by (unfold Js.is_high; apply andb_false_iff; left; apply Z.leb_gt; lia).
  simpl andb. cbv iota. now rewrite IH.
Qed.

Lemma lower_points_ascii (before s : list Z) :
  ascii_text s -> Js.lower_points before s = map ascii_lower s.
Proof.
  intros Hs. revert before.
  induction Hs as [|u s Hu Hs IH]; intros before; [reflexivity|].
  cbn [Js.lower_points map]. rewrite IH. unfold Js.lower_point.
  destruct (Z.eqb_spec u 0x3A3); [lia|].
  destruct (Z.eqb_spec u 0x130); [lia|].
  now rewrite lower_in_ascii.
Qed.

Lemma ascii_lower_range (u : Z) : 0 <= u < 128 -> 0 <= ascii_lower u < 128.
Proof.
  intros Hu. unfold ascii_lower.
  destruct (Z.leb_spec 65 u), (Z.leb_spec u 90); simpl; lia.
Qed.

Lemma units_plain (l : list Z) :
  Forall (fun u => 0 <= u < 128) l -> flat_map Js.units l = l.
Proof.
  induction 1 as [|u l Hu Hl IH]; [reflexivity|].
  cbn [flat_map]. rewrite IH. unfold Js.units.
  destruct (Z.ltb_spec u 0x10000); [reflexivity|lia].
Qed.

Lemma toLowerCase_ascii (s : Js.str) :
  ascii_text s -> Js.toLowerCase s = map ascii_lower s.
Proof.
  intros Hs. unfold Js.toLowerCase.
  rewrite (code_points_ascii s Hs), (lower_points_ascii [] s Hs).
  apply units_plain. apply Forall_map.
  eapply Forall_impl; [exact Hs|]. intros u Hu. now apply ascii_lower_range.
Qed.

(** The branch shared by multiple-choice and true-false. *)
Lemma flagged_option_decides (os : list opt) (selected : Js.str) :
  match List.find isCorrect os with
  | Some correctOption => Js.of_bool (Js.eqb (text correctOption) selected)
  | None => Js.JUndefined
  end = Js.JTrue <->
  exists i o, first_flagged os i o /\ selected = text o.
Proof.
  destruct (List.find isCorrect os) as [o|] eqn:F.
  - rewrite of_bool_true, js_eqb_eq. split.
    + intros <-. apply find_first_flagged in F as [i Hi]. eauto.
    + intros (i & o' & Hi & ->).
      assert (List.find isCorrect os = Some o') as F'
        by (apply find_first_flagged; eauto).
      congruence.
  - split; [discriminate|]. intros (i & o' & Hi & _).
    assert (List.find isCorrect os = Some o') as F'
      by (apply find_first_flagged; eauto).
    congruence.
Qed.

(** What the answer check decides, without the examples. *)
Lemma check_answer_cases (q : question) (selected : Js.str) :
  check_answer q selected = Js.JTrue <->
  match type q with
  | FillInBlank =>
      Js.trim (Js.toLowerCase selected) =
      Js.trim (Js.toLowerCase (correctAnswer q))
  | _ => exists i o, first_flagged (options q) i o /\ selected = text o
  end.
Proof.
  unfold check_answer. destruct (type q).
  - apply flagged_option_decides.
  - apply flagged_option_decides.
  - rewrite of_bool_true, js_eqb_eq. split; congruence.
Qed.

(** C2. For a multiple-choice or true-false question [isCorrect] is
    [true] exactly when [selectedAnswer] is, code unit for code unit,
    the text of the option flagged correct (the first one so flagged,
    which is what [find] returns); for a fill-in-blank question exactly
    when the submitted text and the stored correct answer are equal
    after lowercasing and trimming both. Trimming removes the white
    space at the two ends and nothing else; lowercasing maps an ASCII
    text letter by letter, and beyond ASCII as [toLowerCase] does
    (a no-break space is white space, the capital sigma at the end of a
    word becomes the final sigma, a capital umlaut differs from the
    small one only for the exact match). The examples of the
    specification come out as it states them. *)
Theorem check_answer_spec (q : question) (selected : Js.str) :
  (check_answer q selected = Js.JTrue <->
   match type q with
   | FillInBlank =>
       Js.trim (Js.toLowerCase selected) =
       Js.trim (Js.toLowerCase (correctAnswer q))
   | _ => exists i o, first_flagged (options q) i o /\ selected = text o
   end) /\
  trimmed (Js.toLowerCase selected) (Js.trim (Js.toLowerCase selected)) /\
  (ascii_text selected ->
   Js.toLowerCase selected = map ascii_lower selected) /\
  (check_answer capital_mc "Paris" = Js.JTrue /\
   check_answer capital_mc "paris" = Js.JFalse /\
   check_answer capital_mc " Paris" = Js.JFalse) /\
  (check_answer capital_blank " paris " = Js.JTrue /\
   check_answer capital_blank "PARIS" = Js.JTrue /\
   check_answer capital_blank "Paris" = Js.JTrue /\
   check_answer capital_blank "Pa ris" = Js.JFalse /\
   check_answer capital_blank "Pariz" = Js.JFalse /\
   check_answer capital_blank (Js.lit "Paris" ++ [0xA0]) = Js.JTrue /\
   check_answer capital_blank ([0xFEFF; 0x2003] ++ Js.lit "PARIS") = Js.JTrue) /\
  (check_answer (blank_of [0x5A; 0xFC; 0x72; 0x69; 0x63; 0x68])
     [0x5A; 0xDC; 0x52; 0x49; 0x43; 0x48] = Js.JTrue /\
   check_answer (blank_of [0x3BF; 0x3B4; 0x3CC; 0x3C2])
     [0x39F; 0x394; 0x38C; 0x3A3] = Js.JTrue /\
   check_answer (blank_of [0x3BF; 0x3B4; 0x3CC; 0x3C2])
     [0x3BF; 0x3B4; 0x3CC; 0x3C3] = Js.JFalse).
Proof.
  split; [apply check_answer_cases|].
  split; [apply trim_trimmed|].
  split; [apply toLowerCase_ascii|].
  repeat split; vm_compute; reflexivity.
Qed.

(** Where a single option is flagged, that option decides. *)
Lemma check_answer_single_flag (q : question) (selected : Js.str) (o : opt) :
  type q <> FillInBlank ->
  In o (options q) -> isCorrect o = true ->
  (forall o', In o' (options q) -> isCorrect o' = true -> o' = o) ->
  check_answer q selected = Js.JTrue <-> selected = text o.
Proof.
  intros Ht Hin Ho Huniq.
  assert (Hspec : check_answer q selected = Js.JTrue <->
            match type q with
            | FillInBlank =>
                Js.trim (Js.toLowerCase selected) =
                Js.trim (Js.toLowerCase (correctAnswer q))
            | _ => exists i o, first_flagged (options q) i o /\ selected = text o
            end).
  { unfold check_answer. destruct (type q);
      [apply flagged_option_decides..|congruence]. }
  rewrite Hspec. clear Hspec.
  assert (Hfirst : exists i, first_flagged (options q) i o).
  { apply find_first_flagged. destruct (List.find isCorrect (options q)) as [o'|] eqn:F.
    - apply find_some in F as [Hin' Ho']. f_equal. now apply Huniq.
    - exfalso. pose proof (find_none _ _ F o Hin). congruence. }
  destruct Hfirst as [i Hi].
  assert (Hgoal : (exists i o', first_flagged (options q) i o' /\ selected = text o')
                  <-> selected = text o).
  { split.
    - intros (j & o' & (Hl & Ho' & _) & ->). f_equal. apply Huniq; auto.
      apply list_elem_of_In, list_elem_of_lookup. eauto.
    - intros ->. eauto. }
  destruct (type q); [exact Hgoal|exact Hgoal|congruence].
Qed.

Example exact_match_awards :
  check_answer capital_mc "Paris" = Js.JTrue /\
  award capital_mc (check_answer capital_mc "Paris") = points capital_mc.
Proof. split; reflexivity. Qed.

Example wrong_case_is_wrong : check_answer capital_mc "paris" = Js.JFalse.
Proof. reflexivity. Qed.

Example blank_is_normalised :
  check_answer capital_blank " paris " = Js.JTrue /\
  check_answer capital_blank "PARIS" = Js.JTrue /\
  check_answer capital_blank "Paris" = Js.JTrue.
Proof. repeat split; reflexivity. Qed.

(** ** C3 and C4: submit-answer *)

Lemma session_of_Some (sk room : string) (s : session) (w : world) :
  session_of sk w = Some (room, s) <->
  exists so, sockets w !! sk = Some so /\ roomId so = room /\
             activeQuizSessions w !! room = Some s.
Proof.
  unfold session_of. split.
  - destruct (sockets w !! sk) as [so|]; [|discriminate].
    destruct (activeQuizSessions w !! roomId so) as [s'|] eqn:E; [|discriminate].
    intros [= <- <-]. eauto.
  - intros (so & -> & <- & ->). reflexivity.
Qed.

(** What an accepted submit computes. *)
Lemma submit_answer_accepted sk questionId selected spent q saved w room s p :
  session_of sk w = Some (room, s) ->
  isActive s = true ->
  JsMap.get sk (participants s) = Some p ->
  let a := graded questionId selected spent q in
  submit_answer sk questionId selected spent (Resolved (Some q)) saved w =
  Ok (with_sessions w
        (<[room := with_participants s
                     (JsMap.set sk (credited p a) (participants s))]>
           (activeQuizSessions w)))
     (reply sk q a (score p + a_points a) saved).
Proof.
  intros Hs Ha Hp a. unfold submit_answer. rewrite Hs, Ha, Hp. simpl.
  unfold reply, revealed. simpl. destruct saved, (type q); reflexivity.
Qed.

Lemma session_of_updated sk w room s s' :
  session_of sk w = Some (room, s) ->
  session_of sk (with_sessions w (<[room := s']> (activeQuizSessions w))) =
  Some (room, s').
Proof.
  intros (so & Hso & Hr & _)%session_of_Some. apply session_of_Some.
  exists so. simpl. repeat split; auto. apply lookup_insert_eq.
Qed.

(** C3. An accepted submit awards the question's points when the answer
    is correct and 0 otherwise, adds exactly the awarded points to the
    participant's score and appends exactly one record, carrying the
    computed correctness and points, to the participant's answers; the
    other participants are left as they were. Nothing is exclusive per
    question: the same submit sent again is accepted again, appends a
    second record and adds the points a second time. *)
Theorem submit_answer_scores sk questionId selected spent q saved w room s p :
  session_of sk w = Some (room, s) ->
  isActive s = true ->
  JsMap.get sk (participants s) = Some p ->
  exists a w1 s1 w2 s2,
    a = graded questionId selected spent q /\
    a_isCorrect a = check_answer q selected /\
    (a_isCorrect a = Js.JTrue -> a_points a = points q) /\
    (a_isCorrect a <> Js.JTrue -> a_points a = 0) /\
    (* the first submit *)
    submit_answer sk questionId selected spent (Resolved (Some q)) saved w =
      Ok w1 (reply sk q a (score p + a_points a) saved) /\
    session_of sk w1 = Some (room, s1) /\
    isActive s1 = true /\
    JsMap.get sk (participants s1) =
      Some {| userId := userId p; username := username p;
              score := score p + a_points a;
              answers := answers p ++ [a] |} /\
    (forall k, k <> sk ->
       JsMap.get k (participants s1) = JsMap.get k (participants s)) /\
    (* the same submit once more *)
    submit_answer sk questionId selected spent (Resolved (Some q)) saved w1 =
      Ok w2 (reply sk q a (score p + a_points a + a_points a) saved) /\
    session_of sk w2 = Some (room, s2) /\
    JsMap.get sk (participants s2) =
      Some {| userId := userId p; username := username p;
              score := score p + a_points a + a_points a;
              answers := answers p ++ [a; a] |}.
Proof.
  intros Hs Ha Hp.
  set (a := graded questionId selected spent q).
  set (s1 := with_participants s (JsMap.set sk (credited p a) (participants s))).
  set (w1 := with_sessions w (<[room := s1]> (activeQuizSessions w))).
  assert (Hs1 : session_of sk w1 = Some (room, s1))
    by (apply session_of_updated with (s := s); exact Hs).
  assert (Hp1 : JsMap.get sk (participants s1) = Some (credited p a))
    by apply jsmap_get_set_eq.
  set (s2 := with_participants s1
               (JsMap.set sk (credited (credited p a) a) (participants s1))).
  exists a, w1, s1,
    (with_sessions w1 (<[room := s2]> (activeQuizSessions w1))), s2.
  repeat split.
  - unfold a, graded, award; simpl. now intros ->.
  - unfold a, graded, award; simpl.
    destruct (check_answer q selected); simpl; congruence.
  - apply submit_answer_accepted; assumption.
  - exact Hs1.
  - exact Ha.
  - exact Hp1.
  - intros k Hk. now apply jsmap_get_set_ne.
  - rewrite (submit_answer_accepted sk questionId selected spent q saved
               w1 room s1 (credited p a) Hs1 Ha Hp1).
    reflexivity.
  - apply session_of_updated with (s := s1). exact Hs1.
  - unfold s2. simpl. rewrite jsmap_get_set_eq. unfold credited. simpl.
    now rewrite <- app_assoc.
Qed.

Lemma second_question_reached :
  exists out, run at_second_question initial_world = Ok second_question_world out.
Proof. eexists. vm_compute. reflexivity. Qed.

(** C3 at the room in its second question: the same answer to the blank,
    submitted twice, is credited twice. *)
Lemma submit_answer_scores_twice :
  session_of "s1" second_question_world =
    Some ("quiz-Q", second_question_session) /\
  isActive second_question_session = true /\
  JsMap.get "s1" (participants second_question_session) =
    Some (fresh_participant "u1" "ann") /\
  exists w2 out s2 p2,
    run [ESubmit "s1" "q1" " paris " 4 (Resolved (Some capital_blank)) true;
         ESubmit "s1" "q1" " paris " 4 (Resolved (Some capital_blank)) true]
        second_question_world = Ok w2 out /\
    session_of "s1" w2 = Some ("quiz-Q", s2) /\
    JsMap.get "s1" (participants s2) = Some p2 /\
    score p2 = 10 /\ length (answers p2) = 2%nat.
Proof.
  assert (H1 : session_of "s1" second_question_world =
               Some ("quiz-Q", second_question_session))
    by (vm_compute; reflexivity).
  assert (H2 : isActive second_question_session = true) by reflexivity.
  assert (H3 : JsMap.get "s1" (participants second_question_session) =
               Some (fresh_participant "u1" "ann")) by reflexivity.
  refine (conj H1 (conj H2 (conj H3 _))).
  destruct (submit_answer_scores "s1" "q1" " paris " 4 capital_blank true
              second_question_world "quiz-Q" second_question_session
              (fresh_participant "u1" "ann") H1 H2 H3)
    as (a & w1 & s1 & w2 & s2 & Ea & _ & _ & _ & E1 & _ & _ & _ & _ & E2 & Hs2 & Hp2).
  eexists w2, _, s2, _.
  split; [simpl; unfold and_then; rewrite E1, E2; reflexivity|].
  split; [exact Hs2|]. split; [exact Hp2|].
  rewrite Ea. split; reflexivity.
Defined.

Lemma submit_answer_ignored sk questionId selected spent found saved w :
  submit_ignored sk found w ->
  submit_answer sk questionId selected spent found saved w = Ok w [].
Proof.
  unfold submit_answer.
  intros [H | [(room & s & H & [Hi | Hp]) | ->]].
  - now rewrite H.
  - now rewrite H, Hi.
  - rewrite H, Hp. now destruct (isActive s).
  - destruct (session_of sk w) as [[room s]|]; [|reflexivity].
    destruct (isActive s); [|reflexivity]. simpl.
    now destruct (JsMap.get sk (participants s)).
Qed.

(** A submit is ignored, or it passes the three guards and then the
    lookup of the question either yields a question or is rejected. *)
Lemma submit_ignored_dec sk found w :
  submit_ignored sk found w \/
  exists room s p,
    session_of sk w = Some (room, s) /\ isActive s = true /\
    JsMap.get sk (participants s) = Some p /\
    ((exists q, found = Resolved (Some q)) \/ found = Rejected).
Proof.
  unfold submit_ignored.
  destruct (session_of sk w) as [[room s]|] eqn:Hs; [|now left; left].
  destruct (isActive s) eqn:Ha; [|left; right; left; eauto].
  destruct (JsMap.get sk (participants s)) as [p|] eqn:Hp;
    [|left; right; left; eauto 6].
  destruct found as [[q|]|]; [|now left; right; right|].
  - right. exists room, s, p. eauto 6.
  - right. exists room, s, p. auto.
Qed.

(** A rejected lookup is reported to the connection; nothing changes. *)
Lemma submit_answer_rejected sk questionId selected spent saved w room s p :
  session_of sk w = Some (room, s) ->
  isActive s = true ->
  JsMap.get sk (participants s) = Some p ->
  submit_answer sk questionId selected spent Rejected saved w =
  Ok w [Emit sk (MError "Failed to submit answer")].
Proof.
  intros Hs Ha Hp. unfold submit_answer. now rewrite Hs, Ha, Hp.
Qed.

(** C4 (counterexample). In the room at its second question, a submit
    for the first question is evaluated and scored: the participant's
    score goes from 0 to 10 and a result is sent back. *)
Lemma stale_submit_is_scored :
  already_advanced second_question_session capital_mc /\
  session_of "s1" second_question_world =
    Some ("quiz-Q", second_question_session) /\
  JsMap.get "s1" (participants second_question_session) =
    Some (fresh_participant "u1" "ann") /\
  exists w1 s1 p1,
    submit_answer "s1" "q0" "Paris" 3 (Resolved (Some capital_mc)) true
      second_question_world =
      Ok w1 [QuestionSave
               (with_stats capital_mc
                  {| correctAnswers := 1; totalAnswers := 1; accuracyRate := 100 |});
             Emit "s1" (MAnswerResult Js.JTrue 10 10 (Some (Js.lit "Paris")))] /\
    session_of "s1" w1 = Some ("quiz-Q", s1) /\
    JsMap.get "s1" (participants s1) = Some p1 /\
    score p1 = 10 /\
    w1 <> second_question_world.
Proof.
  split; [exists 0%nat; split; [simpl; lia|reflexivity]|].
  split; [vm_compute; reflexivity|]. split; [reflexivity|].
  eexists _, _, _. split; [vm_compute; reflexivity|].
  split; [vm_compute; reflexivity|]. split; [reflexivity|].
  split; [reflexivity|].
  intros E. apply (f_equal (fun w => activeQuizSessions w !! "quiz-Q")) in E.
  vm_compute in E. discriminate E.
Qed.

Lemma credited_neq (p : participant) (a : answer) : credited p a <> p.
Proof.
  intros E. apply (f_equal (fun x => length (answers x))) in E.
  simpl in E. rewrite length_app in E. simpl in E. lia.
Qed.

(** C4 (amended). [submit-answer] does nothing, and sends nothing,
    whenever there is no session for the connection's room, the session
    is inactive, the connection has no participant in it, or the
    question was not found. A stale submit is not swallowed: when its
    question is found, a submit is evaluated and scored whichever
    question it names and wherever the session stands. The handler never
    reads the session's question index, so a submit for a question the
    session has advanced past is treated exactly like one for the
    current question. *)
Theorem submit_answer_lenient sk questionId selected spent found saved w :
  (submit_ignored sk found w ->
   submit_answer sk questionId selected spent found saved w = Ok w []) /\
  (forall room s p q,
     session_of sk w = Some (room, s) -> isActive s = true ->
     JsMap.get sk (participants s) = Some p -> found = Resolved (Some q) ->
     let a := graded questionId selected spent q in
     (exists w1 s1,
        submit_answer sk questionId selected spent found saved w =
          Ok w1 (reply sk q a (score p + a_points a) saved) /\
        w1 <> w /\
        session_of sk w1 = Some (room, s1) /\
        JsMap.get sk (participants s1) = Some (credited p a)) /\
     forall k,
       let at_k := {| sess_quiz := sess_quiz s; participants := participants s;
                      currentQuestion := k; isActive := isActive s;
                      startTime := startTime s |} in
       exists w1 s1,
         submit_answer sk questionId selected spent found saved
           (with_sessions w (<[room := at_k]> (activeQuizSessions w))) =
           Ok w1 (reply sk q a (score p + a_points a) saved) /\
         session_of sk w1 = Some (room, s1) /\
         currentQuestion s1 = k /\
         JsMap.get sk (participants s1) = Some (credited p a)).
Proof.
  assert (Hacc : forall w room s p q,
     session_of sk w = Some (room, s) -> isActive s = true ->
     JsMap.get sk (participants s) = Some p ->
     exists w1 s1,
       submit_answer sk questionId selected spent (Resolved (Some q)) saved w =
         Ok w1 (reply sk q (graded questionId selected spent q)
                  (score p + a_points (graded questionId selected spent q))
                  saved) /\
       w1 <> w /\
       session_of sk w1 = Some (room, s1) /\
       currentQuestion s1 = currentQuestion s /\
       JsMap.get sk (participants s1) =
         Some (credited p (graded questionId selected spent q))).
  { intros w0 room s p q Hs Ha Hp.
    eexists _, _.
    split; [exact (submit_answer_accepted sk questionId selected spent q saved
                     w0 room s p Hs Ha Hp)|].
    split; [|split; [exact (session_of_updated sk w0 room s _ Hs)|
                     split; [reflexivity|apply jsmap_get_set_eq]]].
    intros E.
    apply (f_equal (fun x => activeQuizSessions x !! room)) in E. simpl in E.
    rewrite lookup_insert_eq in E.
    apply session_of_Some in Hs as (so & _ & _ & Hl). rewrite Hl in E.
    injection E as E.
    apply (f_equal (fun x => JsMap.get sk (participants x))) in E.
    simpl in E. rewrite jsmap_get_set_eq, Hp in E. injection E as E.
    now apply credited_neq in E. }
  split; [apply submit_answer_ignored|].
  intros room s p q Hs Ha Hp -> a. split.
  - destruct (Hacc w room s p q Hs Ha Hp) as (w1 & s1 & E & Hne & Hs1 & _ & Hp1).
    exists w1, s1. auto.
  - intros k at_k.
    destruct (Hacc (with_sessions w (<[room := at_k]> (activeQuizSessions w)))
                room at_k p q (session_of_updated sk w room s at_k Hs) Ha Hp)
      as (w1 & s1 & E & _ & Hs1 & Hk & Hp1).
    exists w1, s1. auto.
Qed.

(** C4 at the room before [start-quiz]: the session is inactive and the
    submit is ignored. *)
Lemma submit_before_start_ignored :
  run [EJoin "s1" "Q" "u1" "ann" (Resolved (Some capitals))] initial_world =
    Ok waiting_world
       [BroadcastOthers "s1" "quiz-Q" (MUserJoined "u1" "ann" 1);
        Emit "s1" (MQuizJoined "Q" "Capitals" "Two questions" 20 1 false)] /\
  submit_answer "s1" "q0" "Paris" 3 (Resolved (Some capital_mc)) true waiting_world =
    Ok waiting_world [].
Proof.
  split; [vm_compute; reflexivity|].
  apply (submit_answer_lenient "s1" "q0" "Paris" 3 (Resolved (Some capital_mc)) true
           waiting_world).
  right; left. eexists _, _. split; [vm_compute; reflexivity|].
  left; reflexivity.
Defined.

(** ** C1: the question index and the bound *)

Lemma past_the_end_reached :
  run past_the_end initial_world =
  Ok past_the_end_world
     [BroadcastOthers "s1" "quiz-Q1" (MUserJoined "u1" "ann" 1);
      Emit "s1" (MQuizJoined "Q1" "One" "One question" 20 1 false);
      Broadcast "quiz-Q1" (MQuizStarted (payload 1 one_question capital_mc));
      Emit "s1" MFinishQuiz].
Proof. vm_compute. reflexivity. Qed.

(** C1 (counterexample). On a quiz of one question, join, start and one
    advance leave the session active with [currentQuestion = 1], the
    length of the question list. *)
Lemma active_index_reaches_bound :
  ~ (forall evs w out, run evs initial_world = Ok w out -> index_in_range w).
Proof.
  intros H.
  specialize (H _ _ _ past_the_end_reached "quiz-Q1" past_the_end_session).
  assert (1 < 1)%nat; [|lia].
  apply H; [vm_compute|]; reflexivity.
Qed.

Lemma next_question_cases (sk : string) (w : world) :
  (session_of sk w = None /\ next_question sk w = Ok w []) \/
  exists room s,
    session_of sk w = Some (room, s) /\
    ((isActive s = false /\ next_question sk w = Ok w []) \/
     (isActive s = true /\
      let n := S (currentQuestion s) in
      let s1 := {| sess_quiz := sess_quiz s; participants := participants s;
                   currentQuestion := n; isActive := true;
                   startTime := startTime s |} in
      let m1 := <[room := s1]> (activeQuizSessions w) in
      ((length (questions (sess_quiz s)) <= n)%nat /\
       next_question sk w = Ok (with_sessions w m1) [Emit sk MFinishQuiz]) \/
      (exists q, (n < length (questions (sess_quiz s)))%nat /\
         questions (sess_quiz s) !! n = Some q /\
         next_question sk w =
           Ok {| activeQuizSessions := m1; sockets := sockets w;
                 timers := timers w ++ [arm sk (sess_quiz s) q] |}
              [Broadcast room
                 (MNextQuestion (Some (payload (n + 1) (sess_quiz s) q)))]))).
Proof.
  unfold next_question.
  destruct (session_of sk w) as [[room s]|]; [|now left].
  right. exists room, s. split; [reflexivity|].
  destruct (isActive s) eqn:Ha; [|now left]. right. split; [reflexivity|].
  simpl.
  destruct (Nat.leb_spec (length (questions (sess_quiz s)))
              (S (currentQuestion s))) as [Hle|Hlt].
  - left. auto.
  - right. destruct (lookup_lt_is_Some_2 _ _ Hlt) as [q Hq].
    exists q. rewrite Hq. auto.
Qed.

Lemma handle_payload_in_range (e : event) (w w' : world) (out : list effect) :
  handle e w = Ok w' out -> Forall payload_in_range out.
Proof.
  destruct e; simpl.
  - unfold join_quiz. destruct found as [[qz|]|]; intros [= <- <-];
      repeat constructor.
  - unfold start_quiz. destruct (session_of sk w) as [[room s]|].
    + destruct (questions (sess_quiz s) !! 0%nat) as [q|] eqn:Hq; [|discriminate].
      intros [= <- <-]. apply lookup_lt_Some in Hq.
      constructor; [simpl; lia|constructor].
    + intros [= <- <-]. constructor.
  - unfold submit_answer.
    repeat case_match; intros [= <- <-]; repeat constructor.
  - destruct (next_question_cases sk w)
      as [[_ ->] | (room & s & _ & [[_ ->] | [_ [[_ ->] | (q & Hlt & _ & ->)]]])];
      intros [= <- <-]; try (constructor; [simpl; lia|]); constructor;
      try exact I; constructor.
  - unfold finish_quiz.
    repeat case_match; intros [= <- <-]; repeat constructor.
  - unfold get_leaderboard.
    repeat case_match; intros [= <- <-]; repeat constructor.
  - unfold disconnect.
    repeat case_match; intros [= <- <-]; repeat constructor.
Qed.

Lemma run_payload_in_range (evs : list event) (w w' : world) (out : list effect) :
  run evs w = Ok w' out -> Forall payload_in_range out.
Proof.
  revert w w' out. induction evs as [|e evs IH]; simpl; intros w w' out.
  - intros [= <- <-]. constructor.
  - unfold and_then. destruct (handle e w) as [w1 out1|] eqn:He; [|discriminate].
    destruct (run evs w1) as [w2 out2|] eqn:Hr; [|discriminate].
    intros [= <- <-]. apply Forall_app. split.
    + eapply handle_payload_in_range, He.
    + eapply IH, Hr.
Qed.

(** C1 (amended). No advance reads a question out of range. At every
    point of a run each question payload sent names a position between 1
    and the number of questions; [next-question] never throws; on an
    active session it increments the index and, while the new index is
    below the number of questions, broadcasts the question at that
    index. The advance that reaches the bound sends the finish signal to
    the advancing connection and reads no question; it leaves the session
    active with the index at the bound (no handler clears [isActive]). *)
Theorem advance_reads_in_range :
  (forall evs w0 w out,
     run evs w0 = Ok w out -> Forall payload_in_range out) /\
  (forall sk w, next_question sk w <> Uncaught) /\
  (forall sk w room s,
     session_of sk w = Some (room, s) -> isActive s = true ->
     let n := S (currentQuestion s) in
     let s1 := {| sess_quiz := sess_quiz s; participants := participants s;
                  currentQuestion := n; isActive := true;
                  startTime := startTime s |} in
     ((n < length (questions (sess_quiz s)))%nat ->
      exists q,
        questions (sess_quiz s) !! n = Some q /\
        next_question sk w =
          Ok {| activeQuizSessions := <[room := s1]> (activeQuizSessions w);
                sockets := sockets w;
                timers := timers w ++ [arm sk (sess_quiz s) q] |}
             [Broadcast room
                (MNextQuestion (Some (payload (n + 1) (sess_quiz s) q)))]) /\
     ((length (questions (sess_quiz s)) <= n)%nat ->
      next_question sk w =
        Ok (with_sessions w (<[room := s1]> (activeQuizSessions w)))
           [Emit sk MFinishQuiz] /\
      session_of sk (with_sessions w (<[room := s1]> (activeQuizSessions w))) =
        Some (room, s1) /\
      isActive s1 = true /\
      (length (questions (sess_quiz s1)) <= currentQuestion s1)%nat)).
Proof.
  split; [exact run_payload_in_range|]. split.
  - intros sk w.
    destruct (next_question_cases sk w)
      as [[_ ->] | (room & s & _ & [[_ ->] | [_ [[_ ->] | (q & _ & _ & ->)]]])];
      discriminate.
  - intros sk w room s Hs Ha n s1.
    destruct (next_question_cases sk w)
      as [[E _] | (room' & s' & E & [[Hi _] | [_ H]])];
      rewrite Hs in E; try discriminate; injection E as <- <-;
      [congruence|].
    fold n s1 in H. simpl in H.
    destruct H as [[Hle E] | (q & Hlt & Hq & E)].
    + split; [lia|]. intros _. split; [exact E|].
      split; [exact (session_of_updated sk w room s s1 Hs)|].
      split; [reflexivity|]. simpl. exact Hle.
    + split; [|lia]. intros _. exists q. auto.
Qed.

(** C1 at the room in its second and last question: the advance reaches
    the bound. *)
Lemma advance_reads_in_range_at_bound :
  session_of "s1" second_question_world =
    Some ("quiz-Q", second_question_session) /\
  isActive second_question_session = true /\
  (length (questions (sess_quiz second_question_session)) <=
   S (currentQuestion second_question_session))%nat /\
  exists w1 s1,
    next_question "s1" second_question_world = Ok w1 [Emit "s1" MFinishQuiz] /\
    session_of "s1" w1 = Some ("quiz-Q", s1) /\
    isActive s1 = true /\ currentQuestion s1 = 2%nat.
Proof.
  assert (H1 : session_of "s1" second_question_world =
               Some ("quiz-Q", second_question_session))
    by (vm_compute; reflexivity).
  assert (H2 : isActive second_question_session = true) by reflexivity.
  assert (H3 : (length (questions (sess_quiz second_question_session)) <=
                S (currentQuestion second_question_session))%nat)
    by (simpl; lia).
  refine (conj H1 (conj H2 (conj H3 _))).
  destruct advance_reads_in_range as (_ & _ & H).
  destruct (H "s1" second_question_world "quiz-Q" second_question_session
              H1 H2) as [_ Hb].
  destruct (Hb H3) as (E & Hs & Ha & _).
  eexists _, _. split; [exact E|]. split; [exact Hs|]. split; reflexivity.
Defined.

(** ** What finish-quiz computes *)

Lemma finish_quiz_present sk now stored w room s p :
  session_of sk w = Some (room, s) ->
  JsMap.get sk (participants s) = Some p ->
  finish_quiz sk now stored w =
  if stored then
    Ok (leave sk room s w)
       [ScoreCreate (finish_doc now s p);
        Emit sk
          (MQuizCompleted (score p) (maxScore_of (questions (sess_quiz s)))
             (Js.round_percent (score p) (maxScore_of (questions (sess_quiz s))))
             (finish_leaderboard (maxScore_of (questions (sess_quiz s)))
                (participants s))
             (finish_rank s p))]
  else Ok w [ScoreCreate (finish_doc now s p);
             Emit sk (MError "Failed to finish quiz")].
Proof.
  intros Hs Hp. unfold finish_quiz. rewrite Hs, Hp. reflexivity.
Qed.

(** ** C6: the leaderboard builder *)

Section Sorting.
Context {A : Type} (cmp : A -> A -> Z).

Lemma insert_by_perm (x : A) (l : list A) :
  Permutation (insert_by cmp x l) (x :: l).
Proof.
  induction l as [|y l IH]; simpl; [reflexivity|].
  destruct (0 <? cmp x y); [|reflexivity].
  rewrite IH. apply perm_swap.
Qed.

Lemma sort_by_perm (l : list A) : Permutation (sort_by cmp l) l.
Proof.
  induction l as [|x l IH]; simpl; [reflexivity|].
  rewrite insert_by_perm. now constructor.
Qed.

Lemma sort_by_length (l : list A) : length (sort_by cmp l) = length l.
Proof. apply Permutation_length, sort_by_perm. Qed.

(** Sorting commutes with a projection the comparator factors through. *)
Lemma sort_by_map {B} (f : B -> A) (l : list B) :
  map f (sort_by (fun a b => cmp (f a) (f b)) l) = sort_by cmp (map f l).
Proof.
  induction l as [|x l IH]; simpl; [reflexivity|]. rewrite <- IH.
  generalize (sort_by (fun a b => cmp (f a) (f b)) l). clear IH.
  intros l'. induction l' as [|y l' IH]; simpl; [reflexivity|].
  destruct (0 <? cmp (f x) (f y)); simpl; [now rewrite IH|reflexivity].
Qed.

End Sorting.

Lemma insert_by_score_sorted (x : entry) (l : list entry) :
  StronglySorted desc l -> StronglySorted desc (insert_by by_score_desc x l).
Proof.
  induction 1 as [|y l Hl IH Hy]; simpl.
  - repeat constructor.
  - unfold by_score_desc at 1. destruct (Z.ltb_spec 0 (e_score y - e_score x)).
    + constructor; [exact IH|].
      eapply Permutation_Forall; [symmetry; apply insert_by_perm|].
      constructor; [unfold desc; lia|exact Hy].
    + constructor; [now constructor|].
      constructor; [unfold desc; lia|].
      eapply Forall_impl; [exact Hy|]. unfold desc. intros; lia.
Qed.

Lemma sort_by_score_sorted (l : list entry) :
  StronglySorted desc (sort_by by_score_desc l).
Proof.
  induction l as [|x l IH]; simpl; [constructor|].
  now apply insert_by_score_sorted.
Qed.

Lemma insert_by_score_stable (v : Z) (x : entry) (l : list entry) :
  List.filter (has_score v) (insert_by by_score_desc x l) =
  List.filter (has_score v) (x :: l).
Proof.
  induction l as [|y l IH]; [reflexivity|].
  cbn [insert_by]. unfold by_score_desc at 1.
  destruct (Z.ltb_spec 0 (e_score y - e_score x)) as [Hlt|Hge]; [|reflexivity].
  cbn [List.filter] in *. rewrite IH. unfold has_score.
  destruct (Z.eqb_spec (e_score x) v), (Z.eqb_spec (e_score y) v);
    try reflexivity. lia.
Qed.

Lemma sort_by_score_stable (v : Z) (l : list entry) :
  List.filter (has_score v) (sort_by by_score_desc l) =
  List.filter (has_score v) l.
Proof.
  induction l as [|x l IH]; [reflexivity|].
  cbn [sort_by]. rewrite insert_by_score_stable. cbn [List.filter].
  now rewrite IH.
Qed.

Lemma sorted_by_position (l : list entry) (i j : nat) (a b : entry) :
  StronglySorted desc l ->
  l !! i = Some a -> l !! j = Some b -> (i < j)%nat -> e_score b <= e_score a.
Proof.
  intros Hs. revert i j. induction Hs as [|x l Hl IH Hx]; intros i j Hi Hj Hlt.
  - destruct i; discriminate.
  - destruct j as [|j]; [lia|]. simpl in Hj. destruct i as [|i].
    + injection Hi as <-. rewrite Forall_forall in Hx. apply Hx.
      apply list_elem_of_lookup. eauto.
    + simpl in Hi. apply (IH i j); auto. lia.
Qed.

Lemma has_score_self (x : entry) : has_score (e_score x) x = true.
Proof. apply Z.eqb_refl. Qed.

Lemma head_score_max (x y : entry) (l1 l2 : list entry) :
  Forall (desc y) l2 ->
  List.filter (has_score (e_score x)) (x :: l1) =
  List.filter (has_score (e_score x)) (y :: l2) ->
  e_score x <= e_score y.
Proof.
  intros Hy E. cbn [List.filter] in E. rewrite has_score_self in E.
  destruct (has_score (e_score x) y) eqn:Ey.
  - apply Z.eqb_eq in Ey. lia.
  - assert (In x (List.filter (has_score (e_score x)) l2)) as Hin
      by (rewrite <- E; now left).
    apply filter_In in Hin as [Hin _].
    rewrite Forall_forall in Hy. apply list_elem_of_In, Hy in Hin. exact Hin.
Qed.

(** A sorted list is determined by its entries of each score, in their
    order: whichever stable algorithm [Array.prototype.sort] runs, it
    returns [sort_by by_score_desc]. *)
Lemma stable_sorted_unique (l1 l2 : list entry) :
  StronglySorted desc l1 -> StronglySorted desc l2 ->
  (forall v, List.filter (has_score v) l1 = List.filter (has_score v) l2) ->
  l1 = l2.
Proof.
  intros H1. revert l2. induction H1 as [|x l1 Hs1 IH Hx]; intros l2 H2 Hf.
  - destruct l2 as [|y l2]; [reflexivity|].
    specialize (Hf (e_score y)). cbn [List.filter] in Hf.
    rewrite has_score_self in Hf. discriminate.
  - destruct H2 as [|y l2 Hs2 Hy].
    + specialize (Hf (e_score x)). cbn [List.filter] in Hf.
      rewrite has_score_self in Hf. discriminate.
    + assert (Hxy : e_score x = e_score y).
      { apply Z.le_antisymm.
        - apply (head_score_max x y l1 l2 Hy), Hf.
        - apply (head_score_max y x l2 l1 Hx). symmetry. apply Hf. }
      assert (x = y) as <-.
      { pose proof (Hf (e_score x)) as E. cbn [List.filter] in E.
        rewrite has_score_self in E. rewrite Hxy in E at 2.
        rewrite has_score_self in E. congruence. }
      f_equal. apply IH; [exact Hs2|]. intros v.
      specialize (Hf v). cbn [List.filter] in Hf.
      destruct (has_score v x); congruence.
Qed.

Section ByScore.
Context {A : Type} (sc : A -> Z).

Let cmp (a b : A) : Z := sc b - sc a.

Lemma insert_sc_sorted (x : A) (l : list A) :
  StronglySorted (fun a b => sc b <= sc a) l ->
  StronglySorted (fun a b => sc b <= sc a) (insert_by cmp x l).
Proof.
  induction 1 as [|y l Hl IH Hy]; simpl.
  - repeat constructor.
  - unfold cmp at 1. destruct (Z.ltb_spec 0 (sc y - sc x)).
    + constructor; [exact IH|].
      eapply Permutation_Forall; [symmetry; apply insert_by_perm|].
      constructor; [lia|exact Hy].
    + constructor; [now constructor|].
      constructor; [lia|].
      eapply Forall_impl; [exact Hy|]. simpl. intros; lia.
Qed.

Lemma sort_sc_sorted (l : list A) :
  StronglySorted (fun a b => sc b <= sc a) (sort_by cmp l).
Proof.
  induction l as [|x l IH]; simpl; [constructor|].
  now apply insert_sc_sorted.
Qed.

Lemma insert_sc_stable (v : Z) (x : A) (l : list A) :
  List.filter (fun a => sc a =? v) (insert_by cmp x l) =
  List.filter (fun a => sc a =? v) (x :: l).
Proof.
  induction l as [|y l IH]; [reflexivity|].
  cbn [insert_by]. unfold cmp at 1.
  destruct (Z.ltb_spec 0 (sc y - sc x)) as [Hlt|Hge]; [|reflexivity].
  cbn [List.filter] in *. rewrite IH.
  destruct (Z.eqb_spec (sc x) v), (Z.eqb_spec (sc y) v);
    try reflexivity. lia.
Qed.

Lemma sort_sc_stable (v : Z) (l : list A) :
  List.filter (fun a => sc a =? v) (sort_by cmp l) =
  List.filter (fun a => sc a =? v) l.
Proof.
  induction l as [|x l IH]; [reflexivity|].
  cbn [sort_by]. rewrite insert_sc_stable. cbn [List.filter].
  now rewrite IH.
Qed.

Lemma sorted_sc_lookup (l : list A) (i j : nat) (a b : A) :
  StronglySorted (fun a b => sc b <= sc a) l ->
  l !! i = Some a -> l !! j = Some b -> (i < j)%nat -> sc b <= sc a.
Proof.
  intros Hs. revert i j. induction Hs as [|x l Hl IH Hx]; intros i j Hi Hj Hlt.
  - destruct i; discriminate.
  - destruct j as [|j]; [lia|]. simpl in Hj. destruct i as [|i].
    + injection Hi as <-. rewrite Forall_forall in Hx. apply Hx.
      apply list_elem_of_lookup. eauto.
    + simpl in Hi. apply (IH i j); auto. lia.
Qed.

End ByScore.

(** [findIndex] finds the first element that passes, when there is one. *)
Lemma findIndex_found {A} (f : A -> bool) (l : list A) (x : A) :
  In x l -> f x = true ->
  0 <= findIndex f l < Z.of_nat (length l) /\
  exists y, l !! Z.to_nat (findIndex f l) = Some y /\ f y = true /\
            forall j z, (j < Z.to_nat (findIndex f l))%nat ->
                        l !! j = Some z -> f z = false.
Proof.
  induction l as [|a l IH]; intros Hin Hx; [destruct Hin|].
  cbn [findIndex length]. destruct (f a) eqn:Ea.
  - split; [lia|]. exists a. split; [reflexivity|]. split; [exact Ea|].
    intros j z Hj. simpl in Hj. lia.
  - destruct Hin as [->|Hin]; [congruence|].
    destruct (IH Hin Hx) as (Hr & y & Hy & Hfy & Hbefore).
    destruct (Z.ltb_spec (findIndex f l) 0) as [|_]; [lia|].
    split; [lia|]. exists y.
    replace (Z.to_nat (findIndex f l + 1)) with (S (Z.to_nat (findIndex f l)))
      by lia.
    split; [exact Hy|]. split; [exact Hfy|].
    intros [|j] z Hj Hz; simpl in Hz; [congruence|].
    apply (Hbefore j z); [lia|exact Hz].
Qed.

Lemma live_leaderboard_standing (ps : JsMap.t participant) :
  live_leaderboard ps =
  map (fun kp => {| e_username := username (snd kp); e_score := score (snd kp);
                    e_percentage := None |}) (standing ps).
Proof.
  unfold live_leaderboard, standing, JsMap.values.
  rewrite map_map.
  exact (eq_sym (sort_by_map by_score_desc (fun kp => live_entry (snd kp)) ps)).
Qed.

Lemma finish_leaderboard_standing (maxScore : Z) (ps : JsMap.t participant) :
  finish_leaderboard maxScore ps =
  map (fun kp => {| e_username := username (snd kp); e_score := score (snd kp);
                    e_percentage :=
                      Some (Js.round_percent (score (snd kp)) maxScore) |})
    (standing ps).
Proof.
  unfold finish_leaderboard, standing, JsMap.values.
  rewrite map_map.
  exact (eq_sym (sort_by_map by_score_desc
                   (fun kp => finish_entry maxScore (snd kp)) ps)).
Qed.

(** C6. The leaderboard is built from the session's current
    participants, each once: the entry at a place carries the username
    and the score of the participant standing at that place, the
    participants stand by score descending, and those of equal score in
    the order the [Map] iterates them, their original order. An entry
    has no rank of its own and nothing is stored on a participant: the
    rank of an entry is its place in the array, and the one rank the code
    computes, the [rank] of finish-quiz, is the 1-based place of the
    first entry that carries the finisher's username. The builder is a
    function of the participants alone, so every call computes the
    leaderboard afresh: [get-leaderboard] sends it to the caller and
    leaves the world as it was, finish-quiz sends the one of the
    participants present when it runs. *)
Theorem leaderboard_sorted_stable (ps : JsMap.t participant) :
  let order := standing ps in
  Permutation order ps /\
  (forall i j a b,
     order !! i = Some a -> order !! j = Some b -> (i < j)%nat ->
     score (snd b) <= score (snd a)) /\
  (forall v,
     List.filter (fun kp => score (snd kp) =? v) order =
     List.filter (fun kp => score (snd kp) =? v) ps) /\
  live_leaderboard ps =
    map (fun kp => {| e_username := username (snd kp);
                      e_score := score (snd kp);
                      e_percentage := None |}) order /\
  (forall maxScore,
     finish_leaderboard maxScore ps =
     map (fun kp => {| e_username := username (snd kp);
                       e_score := score (snd kp);
                       e_percentage :=
                         Some (Js.round_percent (score (snd kp)) maxScore) |})
       order) /\
  (forall sk w,
     match session_of sk w with
     | Some (room, s) =>
         get_leaderboard sk w =
         Ok w [Emit sk (MLeaderboardUpdate (live_leaderboard (participants s)))]
     | None => get_leaderboard sk w = Ok w []
     end) /\
  (forall sk now w room s p,
     session_of sk w = Some (room, s) ->
     JsMap.get sk (participants s) = Some p ->
     let maxScore := maxScore_of (questions (sess_quiz s)) in
     let board := finish_leaderboard maxScore (participants s) in
     exists rank,
       finish_quiz sk now true w =
         Ok (leave sk room s w)
            [ScoreCreate (finish_doc now s p);
             Emit sk
               (MQuizCompleted (score p) maxScore
                  (Js.round_percent (score p) maxScore) board rank)] /\
       1 <= rank <= Z.of_nat (JsMap.size (participants s)) /\
       exists e,
         board !! Z.to_nat (rank - 1) = Some e /\
         e_username e = username p /\
         forall j e', (j < Z.to_nat (rank - 1))%nat ->
                      board !! j = Some e' -> e_username e' <> username p).
Proof.
  cbv zeta. unfold standing.
  split; [apply sort_by_perm|].
  split; [intros i j a b Hi Hj Hlt;
          exact (sorted_sc_lookup (fun kp => score (snd kp)) _ i j a b
                   (sort_sc_sorted _ ps) Hi Hj Hlt)|].
  split; [intros v; apply (sort_sc_stable (fun kp => score (snd kp)))|].
  split; [apply live_leaderboard_standing|].
  split; [intros maxScore; apply finish_leaderboard_standing|].
  split.
  - intros sk w. unfold get_leaderboard.
    now destruct (session_of sk w) as [[room s]|].
  - intros sk now w room s p Hs Hp.
    rewrite (finish_quiz_present sk now true w room s p Hs Hp).
    exists (finish_rank s p). split; [reflexivity|].
    unfold finish_rank.
    set (board := finish_leaderboard (maxScore_of (questions (sess_quiz s)))
                    (participants s)).
    assert (Hin : In (finish_entry (maxScore_of (questions (sess_quiz s))) p)
                    board).
    { apply (Permutation_in _
               (Permutation_sym (sort_by_perm by_score_desc _))).
      apply in_map. unfold JsMap.values.
      apply (in_map snd _ (sk, p)). now apply jsmap_get_In. }
    destruct (findIndex_found
                (fun e => String.eqb (e_username e) (username p)) board _ Hin)
      as (Hr & e & He & Hfe & Hbefore); [apply String.eqb_refl|].
    assert (Hlen : length board = JsMap.size (participants s)).
    { unfold board, finish_leaderboard, JsMap.values, JsMap.size.
      now rewrite sort_by_length, !length_map. }
    split; [lia|]. exists e.
    replace (findIndex (fun e0 => String.eqb (e_username e0) (username p)) board
             + 1 - 1)
      with (findIndex (fun e0 => String.eqb (e_username e0) (username p)) board)
      by lia.
    split; [exact He|]. split; [now apply String.eqb_eq|].
    intros j e' Hj He' E. specialize (Hbefore j e' Hj He').
    apply String.eqb_neq in Hbefore. contradiction.
Qed.

Example tie_keeps_join_order :
  finish_leaderboard 100 three_players =
  [{| e_username := "ann"; e_score := 50; e_percentage := Some (Js.JInt 50) |};
   {| e_username := "cy"; e_score := 50; e_percentage := Some (Js.JInt 50) |};
   {| e_username := "bob"; e_score := 30; e_percentage := Some (Js.JInt 30) |}].
Proof. reflexivity. Qed.

Corollary any_stable_sort_agrees (l l' : list entry) :
  StronglySorted desc l' ->
  (forall v, List.filter (has_score v) l' = List.filter (has_score v) l) ->
  l' = sort_by by_score_desc l.
Proof.
  intros Hs Hf. apply stable_sorted_unique; [exact Hs|apply sort_by_score_sorted|].
  intros v. now rewrite sort_by_score_stable.
Qed.

(** ** C5 and C10: the result of finish-quiz *)

Lemma maxScore_of_sum (qs : list question) : maxScore_of qs = sum_points qs.
Proof.
  unfold maxScore_of, sum_points.
  assert (H : forall a, fold_left (fun total q => total + points q) qs a =
                        a + foldr Z.add 0 (map points qs)).
  { induction qs as [|q qs IH]; intros a; simpl; [lia|]. rewrite IH. lia. }
  rewrite H. lia.
Qed.

(** Away from a zero divisor [round_percent] is an integer nearest to
    [100 a / b]: it is off by at most one half. *)
Lemma round_percent_nearest (a b : Z) :
  b <> 0 ->
  exists r, Js.round_percent a b = Js.JInt r /\
            2 * Z.abs (100 * a - r * b) <= Z.abs b.
Proof.
  intros Hb. unfold Js.round_percent.
  destruct (Z.eqb_spec b 0) as [|_]; [contradiction|].
  eexists. split; [reflexivity|].
  pose proof (Z.div_mod (200 * a + b) (2 * b) ltac:(lia)) as E.
  destruct (Z_lt_le_dec 0 b) as [Hpos|Hneg].
  - pose proof (Z.mod_pos_bound (200 * a + b) (2 * b) ltac:(lia)). lia.
  - pose proof (Z.mod_neg_bound (200 * a + b) (2 * b) ltac:(lia)). lia.
Qed.

(** For a positive divisor the rounding, of the exact quotient, is half
    up. *)
Lemma round_percent_half_up (a b : Z) :
  0 < b ->
  exists r, Js.round_percent a b = Js.JInt r /\
            2 * b * r <= 200 * a + b < 2 * b * (r + 1).
Proof.
  intros Hb. unfold Js.round_percent.
  destruct (Z.eqb_spec b 0) as [|_]; [lia|].
  eexists. split; [reflexivity|].
  pose proof (Z.div_mod (200 * a + b) (2 * b) ltac:(lia)) as E.
  pose proof (Z.mod_pos_bound (200 * a + b) (2 * b) ltac:(lia)). lia.
Qed.

Example round_percent_values :
  Js.round_percent 1 3 = Js.JInt 33 /\ Js.round_percent 2 3 = Js.JInt 67 /\
  Js.round_percent 1 8 = Js.JInt 13 /\ Js.round_percent (-1) 8 = Js.JInt (-12) /\
  Js.round_percent 0 0 = Js.JNaN /\ Js.round_percent 5 0 = Js.JInf true.
Proof. repeat split; reflexivity. Qed.

Lemma round_percent_zero_divisor (a : Z) :
  Js.round_percent a 0 = if a =? 0 then Js.JNaN else Js.JInf (0 <? a).
Proof. reflexivity. Qed.


(** C5. A finish by a participant present in the session (whose result
    was stored) returns the participant's accumulated score as
    [finalScore], the sum of the point values of all the session's
    questions as [maxScore], and as [percentage], the quotient being
    defined, an integer nearest to 100 times score over maxScore. The
    document handed to the result store carries the same three values. *)
Theorem finish_quiz_result sk now w room s p :
  session_of sk w = Some (room, s) ->
  JsMap.get sk (participants s) = Some p ->
  exists doc finalScore maxScore percentage leaderboard rank,
    finish_quiz sk now true w =
      Ok (leave sk room s w)
         [ScoreCreate doc;
          Emit sk (MQuizCompleted finalScore maxScore percentage leaderboard rank)] /\
    finalScore = score p /\
    maxScore = sum_points (questions (sess_quiz s)) /\
    (maxScore <> 0 ->
     exists r, percentage = Js.JInt r /\
               2 * Z.abs (100 * score p - r * maxScore) <= Z.abs maxScore) /\
    sd_score doc = finalScore /\ sd_maxScore doc = maxScore /\
    sd_percentage doc = percentage.
Proof.
  intros Hs Hp. rewrite (finish_quiz_present sk now true w room s p Hs Hp).
  eexists _, _, _, _, _, _. split; [reflexivity|].
  split; [reflexivity|]. split; [apply maxScore_of_sum|].
  split; [apply round_percent_nearest|]. repeat split.
Qed.

(** C5 at the room in its second question: nothing scored out of 15. *)
Lemma finish_quiz_result_demo :
  session_of "s1" second_question_world =
    Some ("quiz-Q", second_question_session) /\
  JsMap.get "s1" (participants second_question_session) =
    Some (fresh_participant "u1" "ann") /\
  exists doc leaderboard rank,
    finish_quiz "s1" 2000 true second_question_world =
      Ok (leave "s1" "quiz-Q" second_question_session second_question_world)
         [ScoreCreate doc;
          Emit "s1" (MQuizCompleted 0 15 (Js.JInt 0) leaderboard rank)].
Proof.
  assert (H1 : session_of "s1" second_question_world =
               Some ("quiz-Q", second_question_session))
    by (vm_compute; reflexivity).
  assert (H2 : JsMap.get "s1" (participants second_question_session) =
               Some (fresh_participant "u1" "ann")) by reflexivity.
  refine (conj H1 (conj H2 _)).
  destruct (finish_quiz_result "s1" 2000 second_question_world "quiz-Q"
              second_question_session (fresh_participant "u1" "ann") H1 H2)
    as (doc & fs & ms & pc & lb & rk & E & Hfs & Hms & Hpc & _).
  exists doc, lb, rk. rewrite E. subst fs ms.
  destruct (Hpc ltac:(vm_compute; discriminate)) as (r & -> & Hr).
  change (2 * Z.abs (100 * 0 - r * 15) <= Z.abs 15) in Hr.
  assert (r = 0) as -> by lia.
  reflexivity.
Defined.

Lemma sum_points_lower (qs : list question) :
  Forall (fun q => 1 <= points q) qs -> Z.of_nat (length qs) <= sum_points qs.
Proof.
  unfold sum_points. induction 1 as [|q qs Hq _ IH]; simpl; [lia|].
  simpl in IH. lia.
Qed.

(** C10. Finish-quiz divides by [maxScore] unguarded. For a session
    whose quiz has no question [maxScore] is 0 and the percentage, both
    the one handed to the result store and the one returned, is no
    number: [NaN] for a score of 0, an infinity otherwise. With at least
    one question, each worth at least one point as the question schema
    requires, the percentage is an integer. *)
Theorem finish_percentage_unguarded sk now stored w room s p :
  session_of sk w = Some (room, s) ->
  JsMap.get sk (participants s) = Some p ->
  exists w1 doc rest,
    finish_quiz sk now stored w = Ok w1 (ScoreCreate doc :: rest) /\
    (stored = true ->
     exists leaderboard rank,
       rest = [Emit sk (MQuizCompleted (score p) (sd_maxScore doc)
                          (sd_percentage doc) leaderboard rank)]) /\
    (questions (sess_quiz s) = [] ->
     sd_maxScore doc = 0 /\
     sd_percentage doc =
       (if score p =? 0 then Js.JNaN else Js.JInf (0 <? score p)) /\
     forall r, sd_percentage doc <> Js.JInt r) /\
    (questions (sess_quiz s) <> [] ->
     Forall (fun q => 1 <= points q) (questions (sess_quiz s)) ->
     exists r, sd_percentage doc = Js.JInt r).
Proof.
  intros Hs Hp. rewrite (finish_quiz_present sk now stored w room s p Hs Hp).
  exists (if stored then leave sk room s w else w), (finish_doc now s p),
    (if stored then
       [Emit sk
          (MQuizCompleted (score p) (maxScore_of (questions (sess_quiz s)))
             (Js.round_percent (score p) (maxScore_of (questions (sess_quiz s))))
             (finish_leaderboard (maxScore_of (questions (sess_quiz s)))
                (participants s))
             (finish_rank s p))]
     else [Emit sk (MError "Failed to finish quiz")]).
  split; [destruct stored; reflexivity|]. split; [|split].
  - intros ->. eexists _, _. reflexivity.
  - intros Hq. simpl. rewrite Hq. simpl. split; [reflexivity|].
    rewrite round_percent_zero_divisor. split; [reflexivity|].
    intros r. destruct (score p =? 0); discriminate.
  - intros Hne Hpts. simpl.
    destruct (round_percent_nearest (score p)
                (maxScore_of (questions (sess_quiz s)))) as (r & -> & _); eauto.
    rewrite maxScore_of_sum. pose proof (sum_points_lower _ Hpts).
    destruct (questions (sess_quiz s)); [contradiction|]. simpl in *. lia.
Qed.

(** C10 at the empty quiz, reached by one join: the percentage is [NaN]. *)
Lemma finish_on_empty_quiz :
  (exists out,
     run [EJoin "s1" "E" "u1" "ann" (Resolved (Some no_questions))] initial_world =
     Ok empty_quiz_world out) /\
  session_of "s1" empty_quiz_world = Some ("quiz-E", empty_quiz_session) /\
  JsMap.get "s1" (participants empty_quiz_session) =
    Some (fresh_participant "u1" "ann") /\
  questions (sess_quiz empty_quiz_session) = [] /\
  exists w1 doc leaderboard rank,
    finish_quiz "s1" 2000 true empty_quiz_world =
      Ok w1 [ScoreCreate doc;
             Emit "s1" (MQuizCompleted 0 0 Js.JNaN leaderboard rank)] /\
    sd_percentage doc = Js.JNaN.
Proof.
  assert (H1 : session_of "s1" empty_quiz_world =
               Some ("quiz-E", empty_quiz_session))
    by (vm_compute; reflexivity).
  assert (H2 : JsMap.get "s1" (participants empty_quiz_session) =
               Some (fresh_participant "u1" "ann")) by reflexivity.
  split; [eexists; vm_compute; reflexivity|].
  refine (conj H1 (conj H2 (conj eq_refl _))).
  destruct (finish_percentage_unguarded "s1" 2000 true empty_quiz_world
              "quiz-E" empty_quiz_session (fresh_participant "u1" "ann") H1 H2)
    as (w1 & doc & rest & E & Hrest & Hempty & _).
  destruct (Hrest eq_refl) as (lb & rk & ->).
  destruct (Hempty eq_refl) as (Hm & Hpc & _).
  exists w1, doc, lb, rk. rewrite E, Hm, Hpc. split; reflexivity.
Defined.

(** ** C7: the rank finish-quiz reports *)

Lemma keyed_leaderboard_entries (maxScore : Z) (ps : JsMap.t participant) :
  map snd (keyed_leaderboard maxScore ps) = finish_leaderboard maxScore ps.
Proof.
  unfold keyed_leaderboard, finish_leaderboard, JsMap.values.
  rewrite (sort_by_map by_score_desc snd). now rewrite !map_map.
Qed.

Lemma findIndex_map {A B} (f : B -> bool) (g : A -> B) (l : list A) :
  findIndex f (map g l) = findIndex (fun x => f (g x)) l.
Proof.
  induction l as [|x l IH]; simpl; [reflexivity|]. now rewrite IH.
Qed.

Lemma findIndex_ext_in {A} (f g : A -> bool) (l : list A) :
  (forall x, In x l -> f x = g x) -> findIndex f l = findIndex g l.
Proof.
  induction l as [|x l IH]; simpl; intros H; [reflexivity|].
  rewrite (H x), IH by auto. reflexivity.
Qed.

(** Where the finishing participant's name belongs to no other
    connection of the session, the reported rank is the place of the
    participant's own entry. *)
Lemma finish_rank_own_place (sk : string) (s : session) (p : participant) :
  (forall k' p', In (k', p') (participants s) ->
     String.eqb (username p') (username p) = String.eqb k' sk) ->
  finish_rank s p =
  own_place sk (maxScore_of (questions (sess_quiz s))) (participants s).
Proof.
  intros Huniq. unfold finish_rank, own_place. f_equal.
  rewrite <- keyed_leaderboard_entries, findIndex_map.
  apply findIndex_ext_in. intros [k e] Hin. simpl.
  unfold keyed_leaderboard in Hin.
  apply (Permutation_in _ (sort_by_perm _ _)) in Hin.
  apply in_map_iff in Hin as ([k' p'] & [= <- <-] & Hin).
  simpl. now apply Huniq.
Qed.

(** C7 (the code at the failing input). The second connection, whose
    score is 0, finishes. The leaderboard holds the entries of the two
    present participants and its own entry is in place 2, but the rank
    returned is 1: [findIndex] stops at the first entry with the name. *)
Lemma finish_rank_shared_name :
  (exists out, run shared_name initial_world = Ok shared_name_world out) /\
  session_of "s2" shared_name_world = Some ("quiz-Q", shared_name_session) /\
  JsMap.get "s2" (participants shared_name_session) =
    Some (fresh_participant "u2" "sam") /\
  (exists w1 doc,
     finish_quiz "s2" 2000 true shared_name_world =
     Ok w1
        [ScoreCreate doc;
         Emit "s2"
           (MQuizCompleted 0 15 (Js.JInt 0)
              [{| e_username := "sam"; e_score := 10;
                  e_percentage := Some (Js.JInt 67) |};
               {| e_username := "sam"; e_score := 0;
                  e_percentage := Some (Js.JInt 0) |}]
              1)]) /\
  own_place "s2" 15 (participants shared_name_session) = 2.
Proof.
  split; [eexists; vm_compute; reflexivity|].
  split; [vm_compute; reflexivity|]. split; [reflexivity|].
  split; [eexists _, _; vm_compute; reflexivity|]. reflexivity.
Qed.

(** ** C8: teardown of an emptied session *)

Lemma join_absent_room (sk quizId uid uname : string) (qz : quiz) (w : world) :
  activeQuizSessions w !! room_name quizId = None ->
  exists w2 out,
    join_quiz sk quizId uid uname (Resolved (Some qz)) w = Ok w2 out /\
    activeQuizSessions w2 !! room_name quizId =
      Some (first_join_session sk uid uname qz).
Proof.
  intros Hnone. unfold join_quiz. rewrite Hnone. eexists _, _.
  split; [reflexivity|]. simpl. now rewrite lookup_insert_eq.
Qed.

Lemma leave_last (sk room : string) (s : session) (w : world) :
  JsMap.delete sk (participants s) = [] ->
  activeQuizSessions (leave sk room s w) !! room = None.
Proof.
  intros Hempty. unfold leave. rewrite Hempty. simpl. apply lookup_delete_eq.
Qed.

(** Handlers that do not overlap. When the participant that leaves, by
    disconnecting or by a finish-quiz during whose awaits nothing else
    is handled, is the last one of its session, the session is removed
    from the registry; a join to the same room afterwards creates a
    session anew, with [currentQuestion] 0, [isActive] false and the
    joining connection as its only participant. *)
Lemma last_leave_then_fresh_join sk w room s :
  session_of sk w = Some (room, s) ->
  JsMap.delete sk (participants s) = [] ->
  (exists w1 out,
     disconnect sk w = Ok w1 out /\
     activeQuizSessions w1 !! room = None /\
     forall sk2 quizId uid uname qz,
       room_name quizId = room ->
       exists w2 out2,
         join_quiz sk2 quizId uid uname (Resolved (Some qz)) w1 = Ok w2 out2 /\
         activeQuizSessions w2 !! room =
           Some (first_join_session sk2 uid uname qz)) /\
  (forall now p,
     JsMap.get sk (participants s) = Some p ->
     exists w1 out,
       finish_quiz sk now true w = Ok w1 out /\
       activeQuizSessions w1 !! room = None /\
       forall sk2 quizId uid uname qz,
         room_name quizId = room ->
         exists w2 out2,
           join_quiz sk2 quizId uid uname (Resolved (Some qz)) w1 = Ok w2 out2 /\
           activeQuizSessions w2 !! room =
             Some (first_join_session sk2 uid uname qz)).
Proof.
  intros Hs Hempty.
  assert (Hgone := leave_last sk room s w Hempty).
  assert (Hjoin : forall sk2 quizId uid uname qz,
            room_name quizId = room ->
            exists w2 out2,
              join_quiz sk2 quizId uid uname (Resolved (Some qz)) (leave sk room s w) =
                Ok w2 out2 /\
              activeQuizSessions w2 !! room =
                Some (first_join_session sk2 uid uname qz)).
  { intros sk2 quizId uid uname qz <-. now apply join_absent_room. }
  split.
  - apply session_of_Some in Hs as (so & Hso & <- & Hl).
    unfold disconnect. rewrite Hso, Hl. eauto.
  - intros now p Hp.
    rewrite (finish_quiz_present sk now true w room s p Hs Hp). eauto.
Qed.

(** At the room with one participant: it disconnects, another
    connection joins. *)
Lemma last_disconnect_then_rejoin :
  session_of "s1" second_question_world =
    Some ("quiz-Q", second_question_session) /\
  JsMap.delete "s1" (participants second_question_session) = [] /\
  exists w1 out w2 out2,
    disconnect "s1" second_question_world = Ok w1 out /\
    activeQuizSessions w1 !! "quiz-Q" = None /\
    join_quiz "s9" "Q" "u9" "zoe" (Resolved (Some capitals)) w1 = Ok w2 out2 /\
    activeQuizSessions w2 !! "quiz-Q" =
      Some {| sess_quiz := capitals;
              participants := [("s9", fresh_participant "u9" "zoe")];
              currentQuestion := 0; isActive := false; startTime := None |}.
Proof.
  assert (H1 : session_of "s1" second_question_world =
               Some ("quiz-Q", second_question_session))
    by (vm_compute; reflexivity).
  assert (H2 : JsMap.delete "s1" (participants second_question_session) = [])
    by reflexivity.
  refine (conj H1 (conj H2 _)).
  destruct (last_leave_then_fresh_join "s1" second_question_world "quiz-Q"
              second_question_session H1 H2) as [(w1 & out & E & Hnone & Hj) _].
  destruct (Hj "s9" "Q" "u9" "zoe" capitals eq_refl) as (w2 & out2 & E2 & Hl).
  exists w1, out, w2, out2. auto.
Defined.

(** C8 (the code at the failing input). The last participant of the
    two-question quiz, which is at its second question, sends
    finish-quiz; while the handler awaits [Score.create] a join-quiz of
    the same connection to another quiz is handled, which sets
    [socket.roomId] to the other room. When the finish goes on it
    deletes the connection from the session it read at its start, finds
    it empty, and deletes from the registry the room [socket.roomId]
    names by now: the other room loses its session, which holds the
    connection, and the emptied session stays registered. The next join
    to its room is answered with [isActive] true and is put into that
    session, at question index 1, not into a fresh one. With the same
    events and the finish run to its end before the join is handled, the
    session is removed and the next join creates it anew. *)
Theorem finish_deletes_other_room :
  (exists sv out stale,
     play overlapped_finish initial_server = Played sv out /\
     waiting sv = [] /\
     activeQuizSessions (snapshot (objects sv)) !! "quiz-Q" = Some stale /\
     participants stale = [] /\
     isActive stale = true /\ currentQuestion stale = 1%nat /\
     activeQuizSessions (snapshot (objects sv)) !! "quiz-Q1" = None /\
     roomId <$> sockets (snapshot (objects sv)) !! "s1" = Some "quiz-Q1" /\
     exists sv' joined,
       play later_join sv =
         Played sv'
           [BroadcastOthers "s2" "quiz-Q" (MUserJoined "u2" "bob" 1);
            Emit "s2" (MQuizJoined "Q" "Capitals" "Two questions" 20 1 true)] /\
       activeQuizSessions (snapshot (objects sv')) !! "quiz-Q" = Some joined /\
       isActive joined = true /\ currentQuestion joined = 1%nat /\
       joined <> first_join_session "s2" "u2" "bob" capitals) /\
  (exists sv out,
     play finish_then_join initial_server = Played sv out /\
     waiting sv = [] /\
     activeQuizSessions (snapshot (objects sv)) !! "quiz-Q" = None /\
     activeQuizSessions (snapshot (objects sv)) !! "quiz-Q1" =
       Some (first_join_session "s1" "u1" "ann" one_question) /\
     exists sv',
       play later_join sv =
         Played sv'
           [BroadcastOthers "s2" "quiz-Q" (MUserJoined "u2" "bob" 1);
            Emit "s2" (MQuizJoined "Q" "Capitals" "Two questions" 20 1 false)] /\
       activeQuizSessions (snapshot (objects sv')) !! "quiz-Q" =
         Some (first_join_session "s2" "u2" "bob" capitals)).
Proof.
  split.
  - eexists _, _, _. split; [vm_compute; reflexivity|].
    split; [reflexivity|]. split; [vm_compute; reflexivity|].
    split; [reflexivity|]. split; [reflexivity|]. split; [reflexivity|].
    split; [vm_compute; reflexivity|]. split; [vm_compute; reflexivity|].
    eexists _, _. split; [vm_compute; reflexivity|].
    split; [vm_compute; reflexivity|].
    split; [reflexivity|]. split; [reflexivity|].
    intros E. apply (f_equal isActive) in E. discriminate E.
  - eexists _, _. split; [vm_compute; reflexivity|].
    split; [reflexivity|]. split; [vm_compute; reflexivity|].
    split; [vm_compute; reflexivity|].
    eexists. split; [vm_compute; reflexivity|]. vm_compute; reflexivity.
Qed.

(** ** C9: the per-question timers *)










Section QuietRun.
Variables (sk room : string) (qz : quiz).


End QuietRun.





(** With an explicit advance the timer armed for the question left
    behind stays pending: when it elapses too the run goes past the end
    a second time. *)
Example superseded_timer_finishes_twice :
  exists w' out,
    run_timed [Client (EStart "s1" 1000); Client (ENext "s1");
               Timeout 0; Timeout 0] waiting_world = Ok w' out /\
    finishes out = 2%nat /\ asked out = [1; 2]%nat.
Proof. eexists _, _. split; [vm_compute; reflexivity|]. split; reflexivity. Qed.

(** * Further properties of the handlers *)

(** ** How a handler changes the registry *)

Lemma sessions_step_refl (e : event) (m : gmap string session) :
  sessions_step e m m.
Proof. intros room. destruct (m !! room); [constructor|exact I]. Qed.

Lemma sessions_step_insert (e : event) (m : gmap string session)
    (room0 : string) (s s1 : session) :
  m !! room0 = Some s -> session_step e s s1 ->
  sessions_step e m (<[room0 := s1]> m).
Proof.
  intros Hl Hstep room. destruct (decide (room0 = room)) as [<-|Hne].
  - now rewrite Hl, lookup_insert_eq.
  - rewrite lookup_insert_ne by exact Hne.
    destruct (m !! room); [constructor|exact I].
Qed.

Lemma sessions_step_leave (e : event) (sk room0 : string) (s : session)
    (w : world) :
  activeQuizSessions w !! room0 = Some s -> leaves e sk ->
  sessions_step e (activeQuizSessions w)
    (activeQuizSessions (leave sk room0 s w)).
Proof.
  intros Hl Hleave. unfold leave. simpl.
  destruct (JsMap.size (JsMap.delete sk (participants s)) =? 0)%nat eqn:Esz.
  - intros room. destruct (decide (room0 = room)) as [<-|Hne].
    + rewrite Hl, lookup_delete_eq. exists sk. split; [exact Hleave|].
      apply Nat.eqb_eq in Esz. unfold JsMap.size in Esz.
      now destruct (JsMap.delete sk (participants s)).
    + rewrite lookup_delete_ne by exact Hne.
      destruct (activeQuizSessions w !! room); [constructor|exact I].
  - apply sessions_step_insert with (s := s); [exact Hl|].
    apply ss_leave; [exact Hleave|]. intros E. rewrite E in Esz. discriminate.
Qed.

Lemma handle_sessions_step (e : event) (w w' : world) (out : list effect) :
  handle e w = Ok w' out ->
  sessions_step e (activeQuizSessions w) (activeQuizSessions w').
Proof.
  destruct e as [sk quizId uid uname found | sk now
                | sk questionId selected spent found saved
                | sk | sk now stored | sk | sk]; simpl.
  - (* join *)
    unfold join_quiz. destruct found as [[qz|]|];
      intros [= <- <-]; try apply sessions_step_refl. simpl.
    destruct (activeQuizSessions w !! room_name quizId) as [s|] eqn:Hl.
    + apply sessions_step_insert with (s := s); [exact Hl|constructor].
    + intros room. destruct (decide (room_name quizId = room)) as [<-|Hne].
      * rewrite Hl, lookup_insert_eq. exists sk, quizId, uid, uname, qz. auto.
      * rewrite lookup_insert_ne by exact Hne.
        destruct (activeQuizSessions w !! room); [constructor|exact I].
  - (* start *)
    unfold start_quiz.
    destruct (session_of sk w) as [[room s]|] eqn:Hs;
      [|intros [= <- <-]; apply sessions_step_refl].
    destruct (questions (sess_quiz s) !! 0%nat) as [q|] eqn:Hq; [|discriminate].
    intros [= <- <-]. simpl.
    apply session_of_Some in Hs as (so & _ & _ & Hl).
    apply sessions_step_insert with (s := s); [exact Hl|].
    now apply ss_start with (q := q).
  - (* submit *)
    destruct (submit_ignored_dec sk found w)
      as [Hig | (room & s & p & Hs & Ha & Hp & [[q ->] | ->])].
    + rewrite (submit_answer_ignored _ _ _ _ _ _ _ Hig).
      intros [= <- <-]. apply sessions_step_refl.
    + rewrite (submit_answer_accepted sk questionId selected spent q saved
                 w room s p Hs Ha Hp).
      intros [= <- <-]. simpl.
      apply session_of_Some in Hs as (so & _ & _ & Hl).
      apply sessions_step_insert with (s := s); [exact Hl|].
      now constructor.
    + rewrite (submit_answer_rejected sk questionId selected spent saved
                 w room s p Hs Ha Hp).
      intros [= <- <-]. apply sessions_step_refl.
  - (* next *)
    destruct (next_question_cases sk w)
      as [[_ ->] | (room & s & Hs & [[_ ->] | [Ha [[_ ->] | (q & _ & _ & ->)]]])];
      intros [= <- <-]; try apply sessions_step_refl; simpl;
      apply session_of_Some in Hs as (so & _ & _ & Hl);
      (apply sessions_step_insert with (s := s); [exact Hl|now constructor]).
  - (* finish *)
    unfold finish_quiz.
    destruct (session_of sk w) as [[room s]|] eqn:Hs;
      [|intros [= <- <-]; apply sessions_step_refl].
    destruct (JsMap.get sk (participants s)) as [p|];
      [|intros [= <- <-]; apply sessions_step_refl].
    destruct stored; intros [= <- <-]; [|apply sessions_step_refl].
    apply session_of_Some in Hs as (so & _ & _ & Hl).
    apply sessions_step_leave; [exact Hl|]. right. eauto.
  - (* get-leaderboard *)
    unfold get_leaderboard.
    destruct (session_of sk w) as [[room s]|];
      intros [= <- <-]; apply sessions_step_refl.
  - (* disconnect *)
    unfold disconnect.
    destruct (sockets w !! sk) as [so|];
      [|intros [= <- <-]; apply sessions_step_refl].
    destruct (activeQuizSessions w !! roomId so) as [s|] eqn:Hl;
      intros [= <- <-]; [|apply sessions_step_refl].
    apply sessions_step_leave; [exact Hl|]. now left.
Qed.

(** An invariant of sessions that the first join establishes and every
    [session_step] keeps holds all along a run. *)
Lemma run_every_session (Q : session -> Prop) :
  (forall sk uid uname qz, Q (first_join_session sk uid uname qz)) ->
  (forall e s s', session_step e s s' -> Q s -> Q s') ->
  forall evs w w' out,
    every_session Q w -> run evs w = Ok w' out -> every_session Q w'.
Proof.
  intros Hfirst Hstep evs. induction evs as [|e evs IH]; simpl; intros w w' out HQ.
  - now intros [= <- <-].
  - unfold and_then. destruct (handle e w) as [w1 out1|] eqn:He; [|discriminate].
    destruct (run evs w1) as [w2 out2|] eqn:Hr; [|discriminate].
    intros [= <- <-]. apply (IH w1 w2 out2); [|exact Hr].
    intros room s1 Hl1. pose proof (handle_sessions_step e w w1 out1 He room) as H.
    rewrite Hl1 in H. destruct (activeQuizSessions w !! room) as [s|] eqn:Hl.
    + apply (Hstep e s s1 H). now apply (HQ room).
    + destruct H as (sk & quizId & uid & uname & qz & _ & _ & ->). apply Hfirst.
Qed.

Lemma every_session_initial (Q : session -> Prop) : every_session Q initial_world.
Proof. intros room s H. simpl in H. now rewrite lookup_empty in H. Qed.

(** ** Invariants of the sessions of a run *)

Lemma jsmap_In_set {V} (k k' : string) (v p : V) (m : JsMap.t V) :
  In (k, p) (JsMap.set k' v m) -> (k, p) = (k', v) \/ In (k, p) m.
Proof.
  induction m as [|[k0 v0] m IH]; simpl.
  - intros [E|[]]. now left.
  - destruct (String.eqb_spec k' k0) as [->|Hne]; simpl.
    + intros [E|H]; [now left|right; now right].
    + intros [E|H]; [right; now left|]. destruct (IH H); auto.
Qed.

Lemma jsmap_In_delete {V} (k k' : string) (p : V) (m : JsMap.t V) :
  In (k, p) (JsMap.delete k' m) -> In (k, p) m.
Proof.
  induction m as [|[k0 v0] m IH]; simpl; [tauto|].
  destruct (String.eqb k' k0); simpl; intros H.
  - right. now apply IH.
  - destruct H as [E|H]; [now left|right; now apply IH].
Qed.

Lemma jsmap_set_nonempty {V} (k : string) (v : V) (m : JsMap.t V) :
  JsMap.set k v m <> [].
Proof. destruct m as [|[k0 v0] m]; simpl; [|destruct (String.eqb k k0)]; discriminate. Qed.

Lemma points_total_app (l1 l2 : list answer) :
  points_total (l1 ++ l2) = points_total l1 + points_total l2.
Proof.
  unfold points_total. induction l1 as [|a l1 IH]; simpl; [reflexivity|].
  rewrite IH. lia.
Qed.

Lemma session_step_scores_add_up (e : event) (s s' : session) :
  session_step e s s' -> scores_add_up s -> scores_add_up s'.
Proof.
  unfold scores_add_up.
  intros Hstep Hs. destruct Hstep; try exact Hs; intros k p0 Hin; simpl in Hin.
  - apply jsmap_In_set in Hin as [[= -> ->]|Hin]; [reflexivity|now apply (Hs k)].
  - apply jsmap_In_set in Hin as [[= -> ->]|Hin]; [|now apply (Hs k)].
    unfold credited. simpl. rewrite points_total_app.
    rewrite <- (Hs sk p) by now apply jsmap_get_In.
    unfold points_total. simpl. lia.
  - apply jsmap_In_delete in Hin. now apply (Hs k).
Qed.

Lemma session_step_populated (e : event) (s s' : session) :
  session_step e s s' -> populated s -> populated s'.
Proof.
  intros Hstep [Hne Hnd]. destruct Hstep; try (split; assumption); split; simpl.
  - apply jsmap_set_nonempty.
  - now apply jsmap_set_NoDup.
  - apply jsmap_set_nonempty.
  - now apply jsmap_set_NoDup.
  - assumption.
  - now apply jsmap_delete_NoDup.
Qed.

Lemma session_step_coherent (e : event) (s s' : session) :
  session_step e s s' -> coherent s -> coherent s'.
Proof.
  unfold coherent.
  intros Hstep (Hat & Hq & Hz). destruct Hstep; simpl; try tauto.
  - (* start *)
    split; [split; congruence|]. split; [|congruence].
    intros _ E. rewrite E in *. discriminate.
  - (* next *)
    split; [|split; [tauto|congruence]].
    split; [intros _; now apply Hat|reflexivity].
Qed.

(** X1. Along every run each participant's score is the sum of the
    points of the answers in its log. *)
Theorem run_scores_add_up (evs : list event) (w : world) (out : list effect) :
  run evs initial_world = Ok w out ->
  forall room s sk p,
    activeQuizSessions w !! room = Some s ->
    JsMap.get sk (participants s) = Some p ->
    score p = points_total (answers p).
Proof.
  intros Hrun room s sk p Hl Hp.
  assert (H : every_session scores_add_up w).
  { apply (run_every_session scores_add_up) with (evs := evs)
      (w := initial_world) (out := out).
    - intros sk0 uid uname qz k p0 [[= <- <-]|[]]. reflexivity.
    - exact session_step_scores_add_up.
    - apply every_session_initial.
    - exact Hrun. }
  apply (H room s Hl sk p). now apply jsmap_get_In.
Qed.

(** X2. As long as handlers do not overlap (every handler runs to its
    end before the next event is handled, which is what a run is), the
    registry holds no session without a participant, and no connection
    is twice in a participants map. Without the restriction the first
    part fails: a finish-quiz overlapped by a join-quiz of its
    connection leaves an empty session registered
    ([overlapped_finish]). *)
Theorem run_sessions_populated (evs : list event) (w : world) (out : list effect) :
  run evs initial_world = Ok w out ->
  forall room s,
    activeQuizSessions w !! room = Some s ->
    (0 < JsMap.size (participants s))%nat /\
    List.NoDup (JsMap.keys (participants s)).
Proof.
  intros Hrun room s Hl.
  assert (H : every_session populated w).
  { apply (run_every_session populated) with (evs := evs)
      (w := initial_world) (out := out).
    - intros sk0 uid uname qz. split; simpl; [discriminate|].
      constructor; [intros []|constructor].
    - exact session_step_populated.
    - apply every_session_initial.
    - exact Hrun. }
  destruct (H room s Hl) as [Hne Hnd]. split; [|exact Hnd].
  unfold JsMap.size. destruct (participants s); [contradiction|simpl; lia].
Qed.

(** X3. Along every run in which no handler throws a session is active
    exactly when its start time is set; an active session has at least
    one question ([start-quiz] on a quiz without questions throws after
    its assignments, which ends the run) and a session not yet started
    is at index 0. *)
Theorem run_sessions_coherent (evs : list event) (w : world) (out : list effect) :
  run evs initial_world = Ok w out ->
  forall room s,
    activeQuizSessions w !! room = Some s ->
    (isActive s = true <-> startTime s <> None) /\
    (isActive s = true -> questions (sess_quiz s) <> []) /\
    (isActive s = false -> currentQuestion s = 0%nat).
Proof.
  intros Hrun room s Hl.
  assert (H : every_session coherent w).
  { apply (run_every_session coherent) with (evs := evs)
      (w := initial_world) (out := out).
    - intros sk0 uid uname qz. repeat split; simpl; congruence.
    - exact session_step_coherent.
    - apply every_session_initial.
    - exact Hrun. }
  exact (H room s Hl).
Qed.

Lemma shared_name_reached :
  exists out, run shared_name initial_world = Ok shared_name_world out.
Proof. eexists. vm_compute. reflexivity. Qed.

(** X1 at the room of the two connections named alike. *)
Lemma run_scores_add_up_shared_name :
  (exists out, run shared_name initial_world = Ok shared_name_world out) /\
  activeQuizSessions shared_name_world !! "quiz-Q" = Some shared_name_session /\
  JsMap.get "s1" (participants shared_name_session) =
    Some (credited (fresh_participant "u1" "sam")
            (graded "q0" "Paris" 3 capital_mc)) /\
  score (credited (fresh_participant "u1" "sam")
           (graded "q0" "Paris" 3 capital_mc)) = 10.
Proof.
  assert (Hl : activeQuizSessions shared_name_world !! "quiz-Q" =
               Some shared_name_session) by (vm_compute; reflexivity).
  refine (conj shared_name_reached (conj Hl (conj eq_refl _))).
  destruct shared_name_reached as [out Hrun].
  rewrite (run_scores_add_up shared_name shared_name_world out Hrun
             "quiz-Q" shared_name_session "s1" _ Hl eq_refl).
  reflexivity.
Defined.

(** X2 at the same room: two participants. *)
Lemma run_sessions_populated_shared_name :
  (exists out, run shared_name initial_world = Ok shared_name_world out) /\
  activeQuizSessions shared_name_world !! "quiz-Q" = Some shared_name_session /\
  (0 < JsMap.size (participants shared_name_session))%nat /\
  List.NoDup (JsMap.keys (participants shared_name_session)).
Proof.
  assert (Hl : activeQuizSessions shared_name_world !! "quiz-Q" =
               Some shared_name_session) by (vm_compute; reflexivity).
  refine (conj shared_name_reached (conj Hl _)).
  destruct shared_name_reached as [out Hrun].
  exact (run_sessions_populated shared_name shared_name_world out Hrun
           "quiz-Q" shared_name_session Hl).
Defined.

(** X3 at the same room: started, with two questions. *)
Lemma run_sessions_coherent_shared_name :
  (exists out, run shared_name initial_world = Ok shared_name_world out) /\
  activeQuizSessions shared_name_world !! "quiz-Q" = Some shared_name_session /\
  (isActive shared_name_session = true <->
   startTime shared_name_session <> None) /\
  (isActive shared_name_session = true ->
   questions (sess_quiz shared_name_session) <> []) /\
  (isActive shared_name_session = false ->
   currentQuestion shared_name_session = 0%nat).
Proof.
  assert (Hl : activeQuizSessions shared_name_world !! "quiz-Q" =
               Some shared_name_session) by (vm_compute; reflexivity).
  refine (conj shared_name_reached (conj Hl _)).
  destruct shared_name_reached as [out Hrun].
  exact (run_sessions_coherent shared_name shared_name_world out Hrun
           "quiz-Q" shared_name_session Hl).
Defined.

(** ** What one event can change of a session *)

(** X4. The handler of an event never replaces the quiz of a session
    that stays in the registry and never deactivates it. An event other
    than [start-quiz] leaves its activity and start time as they were
    and moves its index forward by at most one, never back. *)
Theorem handle_keeps_session (e : event) (w w' : world) (out : list effect)
    (room : string) (s s' : session) :
  handle e w = Ok w' out ->
  activeQuizSessions w !! room = Some s ->
  activeQuizSessions w' !! room = Some s' ->
  sess_quiz s' = sess_quiz s /\
  (isActive s = true -> isActive s' = true) /\
  ((forall sk now, e <> EStart sk now) ->
   isActive s' = isActive s /\ startTime s' = startTime s /\
   (currentQuestion s <= currentQuestion s' <= S (currentQuestion s))%nat).
Proof.
  intros He Hl Hl'. pose proof (handle_sessions_step e w w' out He room) as H.
  rewrite Hl, Hl' in H.
  destruct H as [e s | sk quizId uid uname qz s | sk now s q Hq
                | sk questionId selected spent q saved s p Ha Hp
                | sk s Ha | e sk s Hleave Hne]; simpl;
    (split; [reflexivity|]); (split; [auto|]); intros Hns.
  - repeat split; auto; lia.
  - repeat split; auto; lia.
  - exfalso. now apply (Hns sk now).
  - repeat split; auto; lia.
  - repeat split; auto; lia.
  - repeat split; auto; lia.
Qed.

(** X4 at the advance from the first to the second question. *)
Lemma handle_keeps_session_advance :
  handle (ENext "s1") shared_name_world =
    Ok shared_name_advanced
       [Broadcast "quiz-Q"
          (MNextQuestion (Some (payload 2 capitals capital_blank)))] /\
  activeQuizSessions shared_name_world !! "quiz-Q" = Some shared_name_session /\
  activeQuizSessions shared_name_advanced !! "quiz-Q" =
    Some shared_name_session_advanced /\
  (currentQuestion shared_name_session <=
   currentQuestion shared_name_session_advanced <=
   S (currentQuestion shared_name_session))%nat.
Proof.
  assert (He : handle (ENext "s1") shared_name_world =
    Ok shared_name_advanced
       [Broadcast "quiz-Q"
          (MNextQuestion (Some (payload 2 capitals capital_blank)))])
    by (vm_compute; reflexivity).
  assert (Hl : activeQuizSessions shared_name_world !! "quiz-Q" =
               Some shared_name_session) by (vm_compute; reflexivity).
  assert (Hl' : activeQuizSessions shared_name_advanced !! "quiz-Q" =
                Some shared_name_session_advanced) by (vm_compute; reflexivity).
  refine (conj He (conj Hl (conj Hl' _))).
  destruct (handle_keeps_session _ _ _ _ "quiz-Q" shared_name_session
              shared_name_session_advanced He Hl Hl') as (_ & _ & H).
  destruct H as (_ & _ & H); [discriminate|exact H].
Defined.

(** ** After a finish *)

(** Only the join of a connection touches what is stored on its socket. *)
Lemma handle_sockets (e : event) (w w' : world) (out : list effect) (sk : string) :
  handle e w = Ok w' out ->
  (forall quizId uid uname found, e <> EJoin sk quizId uid uname found) ->
  sockets w' !! sk = sockets w !! sk.
Proof.
  destruct e as [sk' quizId uid uname found | sk' now
                | sk' questionId selected spent found saved
                | sk' | sk' now stored | sk' | sk']; simpl; intros He Hne.
  - unfold join_quiz in He. destruct found as [[qz|]|];
      injection He as <- _; try reflexivity. simpl.
    apply lookup_insert_ne. intros ->. now apply (Hne quizId uid uname (Resolved (Some qz))).
  - unfold start_quiz in He. repeat case_match; try discriminate;
      injection He as <- _; reflexivity.
  - unfold submit_answer in He. repeat case_match; injection He as <- _; reflexivity.
  - unfold next_question in He. repeat case_match; try discriminate;
      injection He as <- _; reflexivity.
  - unfold finish_quiz in He. repeat case_match; injection He as <- _; reflexivity.
  - unfold get_leaderboard in He. repeat case_match; injection He as <- _; reflexivity.
  - unfold disconnect in He. repeat case_match; injection He as <- _; reflexivity.
Qed.

Lemma session_step_absent (e : event) (sk : string) (s s' : session) :
  session_step e s s' ->
  (forall quizId uid uname found, e <> EJoin sk quizId uid uname found) ->
  JsMap.get sk (participants s) = None ->
  JsMap.get sk (participants s') = None.
Proof.
  intros Hstep Hne Hnone.
  destruct Hstep as [e s | sk' quizId uid uname qz s | sk' now s q Hq
                    | sk' questionId selected spent q saved s p Ha Hp
                    | sk' s Ha | e sk' s Hleave Hnonempty]; simpl; auto.
  - rewrite jsmap_get_set_ne; [exact Hnone|]. intros ->.
    now apply (Hne quizId uid uname (Resolved (Some qz))).
  - rewrite jsmap_get_set_ne; [exact Hnone|]. intros ->. congruence.
  - destruct (decide (sk' = sk)) as [->|Hk].
    + apply jsmap_get_delete_eq.
    + now rewrite jsmap_get_delete_ne.
Qed.

Lemma handle_absent (e : event) (sk : string) (w w' : world) (out : list effect) :
  handle e w = Ok w' out ->
  (forall quizId uid uname found, e <> EJoin sk quizId uid uname found) ->
  absent sk w -> absent sk w'.
Proof.
  intros He Hne Habs room s' Hs'.
  apply session_of_Some in Hs' as (so & Hso & Hr & Hl').
  rewrite (handle_sockets e w w' out sk He Hne) in Hso.
  pose proof (handle_sessions_step e w w' out He room) as H. rewrite Hl' in H.
  destruct (activeQuizSessions w !! room) as [s|] eqn:Hl.
  - apply (session_step_absent e sk s s' H Hne). apply (Habs room).
    apply session_of_Some. eauto.
  - destruct H as (sk' & quizId & uid & uname & qz & -> & _ & ->). simpl.
    destruct (String.eqb_spec sk sk') as [->|_]; [|reflexivity].
    exfalso. now apply (Hne quizId uid uname (Resolved (Some qz))).
Qed.

Lemma run_absent (sk : string) (evs : list event) :
  forall w w' out,
    Forall (fun e => forall quizId uid uname found,
                       e <> EJoin sk quizId uid uname found) evs ->
    run evs w = Ok w' out -> absent sk w -> absent sk w'.
Proof.
  induction evs as [|e evs IH]; simpl; intros w w' out Hq.
  - now intros [= <- <-].
  - apply Forall_cons in Hq as [He Hq]. unfold and_then.
    destruct (handle e w) as [w1 out1|] eqn:E1; [|discriminate].
    destruct (run evs w1) as [w2 out2|] eqn:E2; [|discriminate].
    intros [= <- <-] Habs. apply (IH w1 w2 out2 Hq E2).
    now apply (handle_absent e sk w w1 out1).
Qed.

Lemma finish_quiz_absent (sk : string) (now : Z) (w w1 : world) (out : list effect) :
  finish_quiz sk now true w = Ok w1 out -> absent sk w1.
Proof.
  unfold finish_quiz. destruct (session_of sk w) as [[room s]|] eqn:Hs.
  - destruct (JsMap.get sk (participants s)) as [p|] eqn:Hp.
    + intros [= <- <-] room' s' Hs'.
      apply session_of_Some in Hs as (so & Hso & Hr & Hl).
      apply session_of_Some in Hs' as (so' & Hso' & Hr' & Hl').
      simpl in Hso'. assert (so' = so) as -> by congruence.
      assert (room' = room) as -> by congruence.
      unfold leave in Hl'. simpl in Hl'.
      destruct (JsMap.size (JsMap.delete sk (participants s)) =? 0)%nat.
      * rewrite lookup_delete_eq in Hl'. discriminate.
      * rewrite lookup_insert_eq in Hl'. injection Hl' as <-. simpl.
        apply jsmap_get_delete_eq.
    + intros [= <- <-] room' s' Hs'. congruence.
  - intros [= <- <-] room' s' Hs'. congruence.
Qed.

Lemma absent_ignored (sk : string) (w : world) :
  absent sk w ->
  (forall now stored, finish_quiz sk now stored w = Ok w []) /\
  (forall questionId selected spent found saved,
     submit_answer sk questionId selected spent found saved w = Ok w []).
Proof.
  intros Habs. split.
  - intros now stored. unfold finish_quiz.
    destruct (session_of sk w) as [[room s]|] eqn:Hs; [|reflexivity].
    now rewrite (Habs room s Hs).
  - intros questionId selected spent found saved. apply submit_answer_ignored.
    unfold submit_ignored. destruct (session_of sk w) as [[room s]|] eqn:Hs; [|now left].
    right; left. exists room, s. split; [reflexivity|]. right.
    now apply (Habs room).
Qed.

(** X5. After a finish-quiz that ran to its end ([Score.create] and
    [quiz.updateStats] both resolved) the connection is no participant
    of its room, and it stays none until it joins again: whatever events
    follow, of this or of other connections, a further finish of the
    connection stores and sends nothing and its answers are ignored. A
    finish-quiz one of whose two awaited calls was rejected is different:
    it reports the error and leaves the participant in the session, also
    when it was [updateStats] that failed and the score document had
    been stored, so that a repeated finish-quiz hands [Score.create] a
    second document with the same user, quiz, answers and score. *)
Theorem finish_then_ignored (sk : string) (now : Z) (w w1 w2 : world)
    (out1 out2 : list effect) (evs : list event) :
  finish_quiz sk now true w = Ok w1 out1 ->
  Forall (fun e => forall quizId uid uname found,
                     e <> EJoin sk quizId uid uname found) evs ->
  run evs w1 = Ok w2 out2 ->
  (forall now' stored, finish_quiz sk now' stored w2 = Ok w2 []) /\
  (forall questionId selected spent found saved,
     submit_answer sk questionId selected spent found saved w2 = Ok w2 []) /\
  (forall room s p now',
     session_of sk w = Some (room, s) ->
     JsMap.get sk (participants s) = Some p ->
     exists w' d' rest,
       run [EFinish sk now false; EFinish sk now' true] w =
         Ok w' (ScoreCreate (finish_doc now s p) ::
                Emit sk (MError "Failed to finish quiz") ::
                ScoreCreate d' :: rest) /\
       sd_user d' = sd_user (finish_doc now s p) /\
       sd_quiz d' = sd_quiz (finish_doc now s p) /\
       sd_answers d' = sd_answers (finish_doc now s p) /\
       sd_score d' = sd_score (finish_doc now s p)).
Proof.
  intros Hfin Hq Hrun.
  destruct (absent_ignored sk w2) as [H1 H2].
  { apply (run_absent sk evs w1 w2 out2 Hq Hrun).
    now apply (finish_quiz_absent sk now w w1 out1). }
  split; [exact H1|]. split; [exact H2|].
  intros room s p now' Hs Hp. cbn [run handle]. unfold and_then.
  rewrite (finish_quiz_present sk now false w room s p Hs Hp).
  rewrite (finish_quiz_present sk now' true w room s p Hs Hp).
  eexists _, _, _. split; [reflexivity|]. repeat split.
Qed.

(** X5 at the room in its second question: the participant finishes,
    another connection joins and starts, the first one finishes again. *)
Lemma finish_then_ignored_demo :
  exists out1 w2 out2,
    finish_quiz "s1" 2000 true second_question_world = Ok finished_world out1 /\
    run [EJoin "s2" "Q" "u2" "bob" (Resolved (Some capitals)); EStart "s2" 3000]
        finished_world = Ok w2 out2 /\
    finish_quiz "s1" 4000 true w2 = Ok w2 [] /\
    submit_answer "s1" "q0" "Paris" 1 (Resolved (Some capital_mc)) true w2 =
      Ok w2 [].
Proof.
  assert (E1 : exists out1,
             finish_quiz "s1" 2000 true second_question_world =
             Ok finished_world out1)
    by (eexists; vm_compute; reflexivity).
  assert (E2 : exists w2 out2,
             run [EJoin "s2" "Q" "u2" "bob" (Resolved (Some capitals));
                  EStart "s2" 3000] finished_world = Ok w2 out2)
    by (eexists _, _; vm_compute; reflexivity).
  destruct E1 as [out1 E1]. destruct E2 as (w2 & out2 & E2).
  exists out1, w2, out2. split; [exact E1|]. split; [exact E2|].
  assert (Hq : Forall (fun e => forall quizId uid uname found,
                         e <> EJoin "s1" quizId uid uname found)
                 [EJoin "s2" "Q" "u2" "bob" (Resolved (Some capitals));
                  EStart "s2" 3000])
    by (repeat constructor; intros; discriminate).
  destruct (finish_then_ignored "s1" 2000 second_question_world finished_world
              w2 out1 out2 _ E1 Hq E2) as (Hf & Hs & _).
  split; [apply Hf|apply Hs].
Defined.

(** ** Where the effects go *)

(** X6. Every effect of the handling of an event is routed by it: what
    is sent to a single connection (the result of an answer with the
    correct answer, the result of a finish, a leaderboard, an error, the
    finish signal) goes to the connection the event came from, and a
    room only receives joins, leaves and questions. *)
Theorem handle_routed (e : event) (w w' : world) (out : list effect) :
  handle e w = Ok w' out -> Forall (routed (sender e)) out.
Proof.
  destruct e as [sk quizId uid uname found | sk now
                | sk questionId selected spent found saved
                | sk | sk now stored | sk | sk]; simpl.
  - unfold join_quiz. destruct found as [[qz|]|]; intros [= <- <-];
      repeat constructor.
  - unfold start_quiz. repeat case_match; try discriminate;
      intros [= <- <-]; repeat constructor.
  - unfold submit_answer. repeat case_match; intros [= <- <-];
      repeat constructor.
  - unfold next_question. repeat case_match; try discriminate;
      intros [= <- <-]; repeat constructor.
  - unfold finish_quiz. repeat case_match; intros [= <- <-];
      repeat constructor.
  - unfold get_leaderboard. repeat case_match; intros [= <- <-];
      repeat constructor.
  - unfold disconnect. repeat case_match; intros [= <- <-];
      repeat constructor.
Qed.

(** X6 at the run of the two connections named alike, continued by the
    finish of the second. *)
Lemma handle_routed_finish :
  exists w' out,
    handle (EFinish "s2" 2000 true) shared_name_world = Ok w' out /\
    Forall (routed "s2") out.
Proof.
  assert (E : exists w' out,
            handle (EFinish "s2" 2000 true) shared_name_world = Ok w' out)
    by (eexists _, _; vm_compute; reflexivity).
  destruct E as (w' & out & E). exists w', out. split; [exact E|].
  exact (handle_routed (EFinish "s2" 2000 true) shared_name_world w' out E).
Defined.


(** ** Timers are only ever added *)

Lemma time_limits_app (a b : list effect) :
  time_limits (a ++ b) = time_limits a ++ time_limits b.
Proof. unfold time_limits. apply flat_map_app. Qed.

Lemma handle_timers (e : event) (w w' : world) (out : list effect) :
  handle e w = Ok w' out ->
  exists new,
    timers w' = timers w ++ new /\
    map timer_ms new = map (fun t => t * 1000) (time_limits out).
Proof.
  assert (Hnone : forall w0 out0,
            timers w0 = timers w -> time_limits out0 = [] ->
            exists new, timers w0 = timers w ++ new /\
              map timer_ms new = map (fun t => t * 1000) (time_limits out0)).
  { intros w0 out0 -> ->. exists []. now rewrite app_nil_r. }
  destruct e as [sk quizId uid uname found | sk now
                | sk questionId selected spent found saved
                | sk | sk now stored | sk | sk]; simpl.
  - unfold join_quiz. destruct found as [[qz|]|]; intros [= <- <-];
      now apply Hnone.
  - unfold start_quiz. destruct (session_of sk w) as [[room s]|];
      [|intros [= <- <-]; now apply Hnone].
    destruct (questions (sess_quiz s) !! 0%nat) as [q|]; [|discriminate].
    intros [= <- <-]. exists [arm sk (sess_quiz s) q]. split; reflexivity.
  - unfold submit_answer. repeat case_match; intros [= <- <-];
      now apply Hnone.
  - destruct (next_question_cases sk w)
      as [[_ ->] | (room & s & Hs & [[_ ->] | [Ha [[_ ->] | (q & _ & _ & ->)]]])];
      intros [= <- <-]; try now apply Hnone.
    exists [arm sk (sess_quiz s) q]. split; reflexivity.
  - unfold finish_quiz. repeat case_match; intros [= <- <-];
      now apply Hnone.
  - unfold get_leaderboard. repeat case_match; intros [= <- <-];
      now apply Hnone.
  - unfold disconnect. repeat case_match; intros [= <- <-];
      now apply Hnone.
Qed.

Lemma run_timers (evs : list event) :
  forall w w' out,
    run evs w = Ok w' out ->
    exists new,
      timers w' = timers w ++ new /\
      map timer_ms new = map (fun t => t * 1000) (time_limits out).
Proof.
  induction evs as [|e evs IH]; simpl; intros w w' out.
  - intros [= <- <-]. exists []. now rewrite app_nil_r.
  - unfold and_then.
    destruct (handle e w) as [w1 out1|] eqn:He; [|discriminate].
    destruct (run evs w1) as [w2 out2|] eqn:Hr; [|discriminate].
    intros [= <- <-].
    destruct (handle_timers e w w1 out1 He) as (new1 & E1 & M1).
    destruct (IH w1 w2 out2 Hr) as (new2 & E2 & M2).
    exists (new1 ++ new2). rewrite E2, E1, <- app_assoc. split; [reflexivity|].
    now rewrite time_limits_app, !map_app, M1, M2.
Qed.

Lemma time_limits_asked (out : list effect) :
  length (time_limits out) = length (asked out).
Proof.
  unfold time_limits, asked.
  induction out as [|eff out IH]; simpl; [reflexivity|].
  rewrite !length_app, IH. f_equal.
  destruct eff as [? m|? m|? ? m| |]; try reflexivity;
    destruct m as [| | | |[qd|]| | | | |]; reflexivity.
Qed.

(** X7. No event of a client removes a pending timer: along a run the
    pending timers only grow, by one timer for each question broadcast,
    in order, set to the time limit announced with the question (in
    milliseconds). *)
Theorem run_timers_grow (evs : list event) (w w' : world) (out : list effect) :
  run evs w = Ok w' out ->
  exists new,
    timers w' = timers w ++ new /\
    map timer_ms new = map (fun t => t * 1000) (time_limits out) /\
    length new = length (asked out).
Proof.
  intros Hrun. destruct (run_timers evs w w' out Hrun) as (new & E & M).
  exists new. split; [exact E|]. split; [exact M|].
  rewrite <- time_limits_asked. apply (f_equal (@length _)) in M.
  now rewrite !length_map in M.
Qed.

(** X7 at the run to the second question: two timers, of 30 and of 20
    seconds. *)
Lemma run_timers_grow_demo :
  run at_second_question initial_world =
    Ok second_question_world
       [BroadcastOthers "s1" "quiz-Q" (MUserJoined "u1" "ann" 1);
        Emit "s1" (MQuizJoined "Q" "Capitals" "Two questions" 20 1 false);
        Broadcast "quiz-Q" (MQuizStarted (payload 1 capitals capital_mc));
        Broadcast "quiz-Q"
          (MNextQuestion (Some (payload 2 capitals capital_blank)))] /\
  exists new,
    timers second_question_world = timers initial_world ++ new /\
    map timer_ms new = [30000; 20000] /\ length new = 2%nat.
Proof.
  assert (E : run at_second_question initial_world =
    Ok second_question_world
       [BroadcastOthers "s1" "quiz-Q" (MUserJoined "u1" "ann" 1);
        Emit "s1" (MQuizJoined "Q" "Capitals" "Two questions" 20 1 false);
        Broadcast "quiz-Q" (MQuizStarted (payload 1 capitals capital_mc));
        Broadcast "quiz-Q"
          (MNextQuestion (Some (payload 2 capitals capital_blank)))])
    by (vm_compute; reflexivity).
  split; [exact E|].
  exact (run_timers_grow at_second_question initial_world
           second_question_world _ E).
Defined.

(** ** Joining a room that has a session *)

(** X8. A join to a room that has a session leaves the session's quiz,
    index, activity and start time as they are (the quiz just loaded is
    used for the summary sent back only) and the other participants
    untouched. The joining connection gets a participant with score 0
    and no answers: a connection that was in the room keeps its place
    and the count is unchanged, a new one is added last and the count
    grows by one. *)
Theorem join_existing_session (sk quizId uid uname : string) (qz : quiz)
    (w : world) (s : session) :
  activeQuizSessions w !! room_name quizId = Some s ->
  exists w' s',
    join_quiz sk quizId uid uname (Resolved (Some qz)) w =
      Ok w'
         [BroadcastOthers sk (room_name quizId)
            (MUserJoined uid uname (JsMap.size (participants s')));
          Emit sk
            (MQuizJoined (quiz_id qz) (title qz) (description qz)
               (settings_timeLimit qz) (JsMap.size (participants s'))
               (isActive s))] /\
    activeQuizSessions w' !! room_name quizId = Some s' /\
    sess_quiz s' = sess_quiz s /\ currentQuestion s' = currentQuestion s /\
    isActive s' = isActive s /\ startTime s' = startTime s /\
    JsMap.get sk (participants s') = Some (fresh_participant uid uname) /\
    (forall k, k <> sk ->
       JsMap.get k (participants s') = JsMap.get k (participants s)) /\
    match JsMap.get sk (participants s) with
    | Some _ =>
        JsMap.keys (participants s') = JsMap.keys (participants s) /\
        JsMap.size (participants s') = JsMap.size (participants s)
    | None =>
        JsMap.keys (participants s') = JsMap.keys (participants s) ++ [sk] /\
        JsMap.size (participants s') = S (JsMap.size (participants s))
    end.
Proof.
  intros Hl. unfold join_quiz. rewrite Hl. eexists _, _.
  split; [reflexivity|]. simpl. rewrite lookup_insert_eq.
  split; [reflexivity|]. simpl. repeat split.
  - apply jsmap_get_set_eq.
  - intros k Hk. now apply jsmap_get_set_ne.
  - destruct (JsMap.get sk (participants s)) as [p0|] eqn:Hp.
    + split; [now apply jsmap_keys_set_present with (v0 := p0)|].
      now apply jsmap_set_length_present with (v0 := p0).
    + pose proof (jsmap_keys_set_absent sk (fresh_participant uid uname)
                    (participants s) Hp) as E.
      split; [exact E|]. apply (f_equal (@length _)) in E.
      unfold JsMap.keys, JsMap.size in *.
      rewrite length_app, !length_map in E. simpl in E. lia.
Qed.

(** X8 at the room of the two connections named alike: the first, which
    has 10 points, joins again. *)
Lemma join_existing_session_rejoin :
  activeQuizSessions shared_name_world !! room_name "Q" =
    Some shared_name_session /\
  exists w' s',
    join_quiz "s1" "Q" "u1" "sam" (Resolved (Some capitals)) shared_name_world =
      Ok w'
         [BroadcastOthers "s1" "quiz-Q" (MUserJoined "u1" "sam" 2);
          Emit "s1" (MQuizJoined "Q" "Capitals" "Two questions" 20 2 true)] /\
    activeQuizSessions w' !! "quiz-Q" = Some s' /\
    JsMap.get "s1" (participants s') = Some (fresh_participant "u1" "sam") /\
    JsMap.keys (participants s') = ["s1"; "s2"].
Proof.
  assert (Hl : activeQuizSessions shared_name_world !! room_name "Q" =
               Some shared_name_session) by (vm_compute; reflexivity).
  split; [exact Hl|].
  destruct (join_existing_session "s1" "Q" "u1" "sam" capitals
              shared_name_world shared_name_session Hl)
    as (w' & s' & E & Hl' & _ & _ & _ & _ & Hp & _ & Hk).
  simpl in Hk. destruct Hk as [Hk Hsz]. exists w', s'.
  rewrite E. unfold JsMap.size in *. rewrite Hsz, Hk.
  repeat split; assumption.
Defined.

(** * Text and answers *)

Lemma letters_not_space (u : Z) : 65 <= u <= 122 -> Js.is_space u = false.
Proof.
  intros Hu.
  assert (H : forallb (fun n => negb (Js.is_space (Z.of_nat n))) (seq 65 58)
              = true) by (vm_compute; reflexivity).
  rewrite forallb_forall in H.
  specialize (H (Z.to_nat u)). rewrite Z2Nat.id in H by lia.
  apply negb_true_iff, H, in_seq. lia.
Qed.

Lemma is_space_lower (u : Z) : Js.is_space (ascii_lower u) = Js.is_space u.
Proof.
  unfold ascii_lower.
  destruct (Z.leb_spec 65 u), (Z.leb_spec u 90); simpl; try reflexivity.
  rewrite !letters_not_space by lia. reflexivity.
Qed.

Lemma ascii_lower_idem (u : Z) : ascii_lower (ascii_lower u) = ascii_lower u.
Proof.
  unfold ascii_lower.
  destruct (Z.leb_spec 65 u), (Z.leb_spec u 90); simpl;
    destruct (Z.leb_spec 65 (u + 32)), (Z.leb_spec (u + 32) 90); simpl;
    destruct (Z.leb_spec 65 u), (Z.leb_spec u 90); simpl; lia.
Qed.

Lemma lower_trimStart (s : Js.str) :
  map ascii_lower (Js.trimStart s) = Js.trimStart (map ascii_lower s).
Proof.
  induction s as [|c s IH]; simpl; [reflexivity|].
  rewrite is_space_lower. destruct (Js.is_space c); [exact IH|reflexivity].
Qed.

Lemma lower_trimEnd (s : Js.str) :
  map ascii_lower (Js.trimEnd s) = Js.trimEnd (map ascii_lower s).
Proof.
  induction s as [|c s IH]; simpl; [reflexivity|].
  rewrite <- IH, is_space_lower.
  destruct (Js.trimEnd s) as [|a t]; simpl; [|reflexivity].
  destruct (Js.is_space c); reflexivity.
Qed.

Lemma lower_trim (s : Js.str) :
  map ascii_lower (Js.trim s) = Js.trim (map ascii_lower s).
Proof. unfold Js.trim. now rewrite lower_trimEnd, lower_trimStart. Qed.

Lemma trimEnd_idem (s : Js.str) : Js.trimEnd (Js.trimEnd s) = Js.trimEnd s.
Proof.
  induction s as [|c s IH]; simpl; [reflexivity|].
  destruct (Js.trimEnd s) as [|a t] eqn:E.
  - destruct (Js.is_space c) eqn:Ec; simpl; [reflexivity|now rewrite Ec].
  - change (Js.trimEnd (c :: a :: t)) with
      (match Js.trimEnd (a :: t) with
       | [] => if Js.is_space c then [] else [c]
       | r => c :: r
       end).
    now rewrite IH.
Qed.

Lemma trim_idem (s : Js.str) : Js.trim (Js.trim s) = Js.trim s.
Proof.
  unfold Js.trim.
  rewrite (clean_trimStart (Js.trimEnd (Js.trimStart s)))
    by apply clean_trimEnd, trimStart_clean.
  apply trimEnd_idem.
Qed.

Lemma trimEnd_app_space (s : Js.str) (c : Z) :
  Js.is_space c = true -> Js.trimEnd (s ++ [c]) = Js.trimEnd s.
Proof.
  intros Hc. induction s as [|a s IH]; simpl; [now rewrite Hc|].
  now rewrite IH.
Qed.

Lemma trim_app_space (s : Js.str) (c : Z) :
  Js.is_space c = true -> Js.trim (s ++ [c]) = Js.trim s.
Proof.
  intros Hc. unfold Js.trim. induction s as [|a s IH]; simpl.
  - now rewrite Hc.
  - destruct (Js.is_space a); [exact IH|].
    change (Js.trimEnd (a :: (s ++ [c]))) with
      (match Js.trimEnd (s ++ [c]) with
       | [] => if Js.is_space a then [] else [a]
       | r => a :: r
       end).
    now rewrite trimEnd_app_space.
Qed.

Lemma trimStart_ascii (s : Js.str) : ascii_text s -> ascii_text (Js.trimStart s).
Proof.
  induction 1 as [|u s Hu Hs IH]; simpl; [constructor|].
  destruct (Js.is_space u); [exact IH|now constructor].
Qed.

Lemma trimEnd_ascii (s : Js.str) : ascii_text s -> ascii_text (Js.trimEnd s).
Proof.
  induction 1 as [|u s Hu Hs IH]; simpl; [constructor|].
  destruct (Js.trimEnd s) as [|a t].
  - destruct (Js.is_space u); [constructor|now repeat constructor].
  - now constructor.
Qed.

Lemma lower_ascii (s : Js.str) : ascii_text s -> ascii_text (map ascii_lower s).
Proof.
  intros Hs. apply Forall_map. eapply Forall_impl; [exact Hs|].
  intros u Hu. now apply ascii_lower_range.
Qed.

(** The white-space code units are their own lowercase. *)
Lemma space_fixed (u : Z) :
  Js.is_space u = true ->
  Js.is_high u = false /\ Js.units u = [u] /\
  forall before after, Js.lower_point before u after = [u].
Proof.
  intros Hu.
  assert (Hin : In u [9; 10; 11; 12; 13; 32; 160; 5760; 8192; 8193; 8194;
                      8195; 8196; 8197; 8198; 8199; 8200; 8201; 8202; 8232;
                      8233; 8239; 8287; 12288; 65279]).
  { unfold Js.is_space, Js.within, Js.white_space in Hu. cbn [existsb fst snd] in Hu.
    rewrite !orb_true_iff, !andb_true_iff, !Z.leb_le in Hu. simpl. lia. }
  assert (H : forallb (fun u => negb (Js.is_high u) && Js.eqb (Js.units u) [u] &&
                                negb (u =? 0x3A3) &&
                                Js.eqb (Js.lower_point [] u []) [u])
                [9; 10; 11; 12; 13; 32; 160; 5760; 8192; 8193; 8194;
                 8195; 8196; 8197; 8198; 8199; 8200; 8201; 8202; 8232;
                 8233; 8239; 8287; 12288; 65279] = true)
    by (vm_compute; reflexivity).
  rewrite forallb_forall in H. specialize (H u Hin).
  rewrite !andb_true_iff, !negb_true_iff, !js_eqb_eq in H.
  destruct H as (((Hh & Hunits) & Hsig) & Hlow).
  split; [exact Hh|]. split; [exact Hunits|].
  intros before after. unfold Js.lower_point in *. now rewrite Hsig in *.
Qed.

Lemma code_points_cons (u : Z) (s : Js.str) :
  Js.is_high u = false -> Js.code_points (u :: s) = u :: Js.code_points s.
Proof. intros Hu. destruct s; simpl; [reflexivity|]. now rewrite Hu. Qed.

Lemma ascii_not_high (u : Z) : 0 <= u < 128 -> Js.is_high u = false.
Proof. intros Hu. unfold Js.is_high. apply andb_false_iff. left. apply Z.leb_gt. lia. Qed.

Lemma toLowerCase_cons_space (u : Z) (s : Js.str) :
  Js.is_space u = true -> ascii_text s ->
  Js.toLowerCase (u :: s) = u :: map ascii_lower s.
Proof.
  intros Hu Hs. destruct (space_fixed u Hu) as (Hh & Hunits & Hlow).
  unfold Js.toLowerCase. rewrite (code_points_cons u s Hh), (code_points_ascii s Hs).
  cbn [Js.lower_points]. rewrite Hlow, (lower_points_ascii _ s Hs).
  cbn [app flat_map]. rewrite Hunits. simpl. f_equal.
  apply units_plain, lower_ascii, Hs.
Qed.

Lemma toLowerCase_snoc_space (u : Z) (s : Js.str) :
  Js.is_space u = true -> ascii_text s ->
  Js.toLowerCase (s ++ [u]) = map ascii_lower s ++ [u].
Proof.
  intros Hu Hs. destruct (space_fixed u Hu) as (Hh & Hunits & Hlow).
  unfold Js.toLowerCase.
  assert (Hcp : Js.code_points (s ++ [u]) = s ++ [u]).
  { induction Hs as [|a s Ha Hs IH]; [reflexivity|].
    change ((a :: s) ++ [u]) with (a :: (s ++ [u])).
    rewrite code_points_cons by now apply ascii_not_high. now rewrite IH. }
  rewrite Hcp. clear Hcp.
  assert (Hlp : forall before,
            Js.lower_points before (s ++ [u]) = map ascii_lower s ++ [u]).
  { induction Hs as [|a s Ha Hs IH]; intros before.
    - simpl. rewrite Hlow. reflexivity.
    - change ((a :: s) ++ [u]) with (a :: (s ++ [u])).
      cbn [Js.lower_points map]. rewrite IH.
      unfold Js.lower_point.
      destruct (Z.eqb_spec a 0x3A3); [lia|].
      destruct (Z.eqb_spec a 0x130); [lia|].
      now rewrite lower_in_ascii. }
  rewrite Hlp, flat_map_app. cbn [flat_map]. rewrite Hunits, app_nil_r.
  f_equal. apply units_plain, lower_ascii, Hs.
Qed.

(** What [normalise] forgets of an ASCII text. *)
Lemma normalise_forgets (s : Js.str) :
  ascii_text s ->
  normalise (Js.trim s) = normalise s /\
  normalise (Js.toLowerCase s) = normalise s /\
  forall c, Js.is_space c = true ->
    normalise (c :: s) = normalise s /\
    normalise (s ++ [c]) = normalise s.
Proof.
  intros Hs. unfold normalise. rewrite (toLowerCase_ascii s Hs).
  split; [|split].
  - rewrite toLowerCase_ascii
      by (unfold Js.trim; apply trimEnd_ascii, trimStart_ascii, Hs).
    now rewrite lower_trim, trim_idem.
  - rewrite toLowerCase_ascii by apply lower_ascii, Hs.
    f_equal. rewrite map_map. apply map_ext. intros u. apply ascii_lower_idem.
  - intros c Hc. split.
    + rewrite (toLowerCase_cons_space c s Hc Hs).
      unfold Js.trim. simpl. now rewrite Hc.
    + rewrite (toLowerCase_snoc_space c s Hc Hs). now apply trim_app_space.
Qed.

Lemma check_answer_blank (q : question) (selected : Js.str) :
  type q = FillInBlank ->
  check_answer q selected =
  Js.of_bool (Js.eqb (normalise (correctAnswer q)) (normalise selected)).
Proof. intros Ht. unfold check_answer. now rewrite Ht. Qed.

(** X9. A fill-in-blank question accepts its stored answer, and the
    verdict on a submitted ASCII text does not change when the text is
    trimmed, lowercased, or has a white-space character (any that
    [trim] strips) put in front of it or behind it. *)
Theorem blank_verdict_ignores_case_and_padding (q : question) :
  type q = FillInBlank ->
  check_answer q (correctAnswer q) = Js.JTrue /\
  forall s, ascii_text s ->
    check_answer q (Js.trim s) = check_answer q s /\
    check_answer q (Js.toLowerCase s) = check_answer q s /\
    forall c, Js.is_space c = true ->
      check_answer q (c :: s) = check_answer q s /\
      check_answer q (s ++ [c]) = check_answer q s.
Proof.
  intros Ht. split.
  - rewrite (check_answer_blank q _ Ht). now rewrite js_eqb_refl.
  - intros s Hs. destruct (normalise_forgets s Hs) as (H1 & H2 & H3).
    rewrite !(check_answer_blank q _ Ht), H1, H2.
    split; [reflexivity|]. split; [reflexivity|].
    intros c Hc. destruct (H3 c Hc) as [H4 H5].
    now rewrite !(check_answer_blank q _ Ht), H4, H5.
Qed.

(** X9 at the blank of the capital: a no-break space in front,
    capitals, a line feed behind. *)
Lemma blank_verdict_demo :
  type capital_blank = FillInBlank /\
  check_answer capital_blank (correctAnswer capital_blank) = Js.JTrue /\
  check_answer capital_blank (0xA0 :: Js.lit "PARIS") =
    check_answer capital_blank "PARIS" /\
  check_answer capital_blank (Js.lit "PARIS" ++ [10]) =
    check_answer capital_blank "PARIS" /\
  check_answer capital_blank (Js.toLowerCase "PARIS") =
    check_answer capital_blank "PARIS".
Proof.
  assert (Ht : type capital_blank = FillInBlank) by reflexivity.
  assert (Ha : ascii_text (Js.lit "PARIS"))
    by (vm_compute; repeat constructor; discriminate).
  assert (H160 : Js.is_space 0xA0 = true) by reflexivity.
  assert (H10 : Js.is_space 10 = true) by reflexivity.
  refine (conj Ht _).
  destruct (blank_verdict_ignores_case_and_padding capital_blank Ht)
    as [H0 H].
  refine (conj H0 _).
  destruct (H (Js.lit "PARIS") Ha) as (_ & H2 & H3).
  destruct (H3 0xA0 H160) as [H4 _]. destruct (H3 10 H10) as [_ H5].
  exact (conj H4 (conj H5 H2)).
Defined.

(** * The question model *)

Lemma existsb_find (os : list opt) :
  existsb isCorrect os = true <-> exists o, List.find isCorrect os = Some o.
Proof.
  induction os as [|x os IH]; simpl.
  - split; [discriminate|]. intros [o H]. discriminate.
  - destruct (isCorrect x); simpl; [split; eauto|exact IH].
Qed.

Lemma unflagged_find (os : list opt) :
  (forall o, In o os -> isCorrect o = false) -> List.find isCorrect os = None.
Proof.
  intros H. destruct (List.find isCorrect os) as [o|] eqn:F; [|reflexivity].
  apply find_some in F as [Hin Ho]. rewrite (H o Hin) in Ho. discriminate.
Qed.

(** X10. The save hook lets a multiple-choice question through exactly
    when some answer can be judged correct; the text of its first
    flagged option is such an answer and earns the question's points. *)
Theorem choice_saved_iff_answerable (q : question) :
  type q = MultipleChoice ->
  (question_pre_save q = None <->
   exists s, check_answer q s = Js.JTrue) /\
  (question_pre_save q = None ->
   exists o, In o (options q) /\ isCorrect o = true /\
             check_answer q (text o) = Js.JTrue /\
             award q (check_answer q (text o)) = points q) /\
  (question_pre_save q <> None ->
   forall s, check_answer q s = Js.JUndefined /\
             award q (check_answer q s) = 0).
Proof.
  intros Ht. unfold question_pre_save, check_answer, award. rewrite Ht.
  destruct (existsb isCorrect (options q)) eqn:Ex.
  - apply existsb_find in Ex as [o F]. rewrite F.
    assert (Hself : Js.of_bool (Js.eqb (text o) (text o)) = Js.JTrue)
      by now rewrite js_eqb_refl.
    split; [split; [intros _; exists (text o); exact Hself|reflexivity]|].
    split; [|congruence]. intros _. exists o.
    apply find_some in F as [Hin Ho]. rewrite Hself. auto.
  - assert (F : List.find isCorrect (options q) = None).
    { destruct (List.find isCorrect (options q)) as [o|] eqn:F; [|reflexivity].
      assert (existsb isCorrect (options q) = true)
        by (apply existsb_find; eauto).
      congruence. }
    rewrite F. split; [split; [discriminate|intros [s H]; discriminate]|].
    split; [discriminate|]. intros _ s. split; reflexivity.
Qed.

(** X10 at the question of the capital. *)
Lemma choice_saved_demo :
  type capital_mc = MultipleChoice /\
  question_pre_save capital_mc = None /\
  exists o, In o (options capital_mc) /\ isCorrect o = true /\
            check_answer capital_mc (text o) = Js.JTrue /\
            award capital_mc (check_answer capital_mc (text o)) = 10.
Proof.
  split; [reflexivity|]. split; [reflexivity|].
  destruct (choice_saved_iff_answerable capital_mc eq_refl) as (_ & H & _).
  exact (H eq_refl).
Defined.

(** X11. For a true-false question the save hook only counts the
    options: the question is let through exactly when it has two, also
    when none of them is flagged, and then every answer submitted is
    judged [undefined] and earns nothing. *)
Theorem true_false_saved_unanswerable (q : question) :
  type q = TrueFalse ->
  (question_pre_save q = None <-> length (options q) = 2%nat) /\
  ((forall o, In o (options q) -> isCorrect o = false) ->
   forall s, check_answer q s = Js.JUndefined /\
             award q (check_answer q s) = 0).
Proof.
  intros Ht. unfold question_pre_save, check_answer, award. rewrite Ht. split.
  - destruct (Nat.eqb_spec (length (options q)) 2); split;
      congruence || discriminate.
  - intros Hno s. rewrite (unflagged_find _ Hno). split; reflexivity.
Qed.

(** X11 at a true-false question with neither option flagged. *)
Lemma true_false_saved_unanswerable_demo :
  type unflagged_true_false = TrueFalse /\
  question_pre_save unflagged_true_false = None /\
  check_answer unflagged_true_false "True" = Js.JUndefined /\
  award unflagged_true_false (check_answer unflagged_true_false "True") = 0.
Proof.
  split; [reflexivity|].
  destruct (true_false_saved_unanswerable unflagged_true_false eq_refl)
    as [Hsave Hno].
  split; [now apply Hsave|].
  apply Hno. intros o [<-|[<-|[]]]; reflexivity.
Defined.

Lemma round_percent_range (a b : Z) :
  0 <= a <= b -> 0 < b ->
  exists r, Js.round_percent a b = Js.JInt r /\ 0 <= r <= 100 /\
            2 * Z.abs (100 * a - r * b) <= b.
Proof.
  intros Ha Hb. destruct (round_percent_half_up a b Hb) as (r & E & Hr).
  exists r. split; [exact E|]. split; [nia|]. lia.
Qed.

Lemma bump_stats_updateStats (c : Js.jsbool) (st : qstats) :
  bump_stats c st = updateStats (count_answer c st).
Proof.
  unfold bump_stats, updateStats, count_answer. simpl.
  destruct (0 <? totalAnswers st + 1); reflexivity.
Qed.

(** X12. Counting an answer keeps the statistics of a question
    consistent: from counters with [0 <= correct <= total] the total
    grows by one, the correct count by one exactly for a correct answer,
    the counters stay ordered, and the accuracy rate stored is an
    integer from 0 to 100 nearest to the share of correct answers. *)
Theorem counted_answer_keeps_stats (c : Js.jsbool) (st : qstats) :
  0 <= correctAnswers st <= totalAnswers st ->
  let st' := updateStats (count_answer c st) in
  bump_stats c st = st' /\
  totalAnswers st' = totalAnswers st + 1 /\
  correctAnswers st' =
    correctAnswers st + (if Js.truthy c then 1 else 0) /\
  0 <= correctAnswers st' <= totalAnswers st' /\
  0 <= accuracyRate st' <= 100 /\
  2 * Z.abs (100 * correctAnswers st' - accuracyRate st' * totalAnswers st')
    <= totalAnswers st'.
Proof.
  intros H st'. split; [apply bump_stats_updateStats|].
  subst st'. unfold updateStats, count_answer. simpl.
  destruct (Z.ltb_spec 0 (totalAnswers st + 1)) as [Hpos|]; [|lia]. simpl.
  set (correct := if Js.truthy c then correctAnswers st + 1 else correctAnswers st).
  assert (Hc : 0 <= correct <= totalAnswers st + 1)
    by (subst correct; destruct (Js.truthy c); lia).
  destruct (round_percent_range correct (totalAnswers st + 1) Hc Hpos)
    as (r & -> & Hr & Hn).
  repeat split; try lia. subst correct. destruct (Js.truthy c); lia.
Qed.

(** X12 at a question answered correctly once in two: the third answer is
    correct. *)
Lemma counted_answer_demo :
  0 <= correctAnswers {| correctAnswers := 1; totalAnswers := 2;
                         accuracyRate := 50 |}
    <= totalAnswers {| correctAnswers := 1; totalAnswers := 2;
                       accuracyRate := 50 |} /\
  bump_stats Js.JTrue
    {| correctAnswers := 1; totalAnswers := 2; accuracyRate := 50 |} =
  {| correctAnswers := 2; totalAnswers := 3; accuracyRate := 67 |}.
Proof.
  assert (H : 0 <= correctAnswers {| correctAnswers := 1; totalAnswers := 2;
                                     accuracyRate := 50 |}
                <= totalAnswers {| correctAnswers := 1; totalAnswers := 2;
                                   accuracyRate := 50 |}) by (simpl; lia).
  split; [exact H|].
  destruct (counted_answer_keeps_stats Js.JTrue _ H) as [E _].
  rewrite E. reflexivity.
Defined.

(** * The score model *)

Lemma fold_points_total (l : list answer) :
  fold_left (fun total a => total + a_points a) l 0 = points_total l.
Proof.
  unfold points_total.
  assert (H : forall z, fold_left (fun total a => total + a_points a) l z =
                        z + foldr Z.add 0 (map a_points l)).
  { induction l as [|a l IH]; intros z; simpl; [lia|]. rewrite IH. lia. }
  rewrite H. lia.
Qed.

Lemma fold_timeSpent (l : list answer) :
  fold_left (fun total a => total + timeSpent a) l 0 =
  foldr Z.add 0 (map timeSpent l).
Proof.
  assert (H : forall z, fold_left (fun total a => total + timeSpent a) l z =
                        z + foldr Z.add 0 (map timeSpent l)).
  { induction l as [|a l IH]; intros z; simpl; [lia|]. rewrite IH. lia. }
  rewrite H. lia.
Qed.

(** X13. The document finish-quiz hands to [Score.create] agrees with
    the save hook of the score model: along every run the hook, which
    recomputes the score from the answer log, finds the score the
    session had accumulated, and for a positive [maxScore] the same
    percentage. For a [maxScore] of 0, where the handler's percentage is
    no number, the hook stores 0: what it stores is always an integer. *)
Theorem saved_score_agrees (evs : list event) (w : world) (out : list effect)
    (sk room : string) (now : Z) (s : session) (p : participant) :
  run evs initial_world = Ok w out ->
  session_of sk w = Some (room, s) ->
  JsMap.get sk (participants s) = Some p ->
  exists d rest,
    finish_quiz sk now true w = Ok (leave sk room s w) (ScoreCreate d :: rest) /\
    let saved := score_pre_save true (created_score d) in
    sd_score (sc_doc saved) = sd_score d /\
    sd_score d = score p /\
    (0 < sd_maxScore d ->
     sd_percentage (sc_doc saved) = sd_percentage d) /\
    (sd_maxScore d <= 0 -> sd_percentage (sc_doc saved) = Js.JInt 0) /\
    (exists r, sd_percentage (sc_doc saved) = Js.JInt r) /\
    sc_timeSpent saved =
      foldr Z.add 0 (map timeSpent (answers p)).
Proof.
  intros Hrun Hs Hp.
  assert (Hsum : score p = points_total (answers p)).
  { assert (H : every_session scores_add_up w).
    { apply (run_every_session scores_add_up) with (evs := evs)
        (w := initial_world) (out := out).
      - intros sk0 uid uname qz k p0 [[= <- <-]|[]]. reflexivity.
      - exact session_step_scores_add_up.
      - apply every_session_initial.
      - exact Hrun. }
    apply session_of_Some in Hs as (so & _ & _ & Hl).
    apply (H room s Hl sk p). now apply jsmap_get_In. }
  rewrite (finish_quiz_present sk now true w room s p Hs Hp).
  exists (finish_doc now s p). eexists. split; [reflexivity|].
  cbv zeta. unfold score_pre_save, created_score. simpl.
  rewrite fold_points_total, <- Hsum.
  split; [reflexivity|]. split; [reflexivity|].
  destruct (Z.ltb_spec 0 (maxScore_of (questions (sess_quiz s)))) as [Hpos|Hle].
  - split; [reflexivity|]. split; [lia|]. split.
    + destruct (round_percent_half_up (score p) _ Hpos) as (r & E & _). eauto.
    + apply fold_timeSpent.
  - split; [lia|]. split; [reflexivity|]. split; [eauto|].
    apply fold_timeSpent.
Qed.

(** X13 at the room of the two connections named alike: the first one,
    with one right answer, has 10 points stored. *)
Lemma saved_score_agrees_shared_name :
  (exists out, run shared_name initial_world = Ok shared_name_world out) /\
  session_of "s1" shared_name_world = Some ("quiz-Q", shared_name_session) /\
  JsMap.get "s1" (participants shared_name_session) =
    Some (credited (fresh_participant "u1" "sam")
            (graded "q0" "Paris" 3 capital_mc)) /\
  exists d rest,
    finish_quiz "s1" 0 true shared_name_world =
      Ok (leave "s1" "quiz-Q" shared_name_session shared_name_world)
         (ScoreCreate d :: rest) /\
    sd_score (sc_doc (score_pre_save true (created_score d))) = 10.
Proof.
  assert (Hs : session_of "s1" shared_name_world =
               Some ("quiz-Q", shared_name_session))
    by (vm_compute; reflexivity).
  refine (conj shared_name_reached (conj Hs (conj eq_refl _))).
  destruct shared_name_reached as [out Hrun].
  destruct (saved_score_agrees shared_name shared_name_world out
              "s1" "quiz-Q" 0 shared_name_session _ Hrun Hs eq_refl)
    as (d & rest & E & H1 & H2 & _).
  exists d, rest. split; [exact E|].
  rewrite H1, H2. reflexivity.
Defined.

(** * The quiz model *)

Lemma fold_left_sum {A} (f : A -> Z) (l : list A) (z : Z) :
  fold_left (fun total x => total + f x) l z = z + foldr Z.add 0 (map f l).
Proof.
  revert z. induction l as [|a l IH]; intros z; simpl; [lia|].
  rewrite IH. lia.
Qed.

Lemma sum_between {A} (f : A -> Z) (lo hi : Z) (l : list A) :
  Forall (fun x => lo <= f x <= hi) l ->
  Z.of_nat (length l) * lo <= foldr Z.add 0 (map f l) <=
  Z.of_nat (length l) * hi.
Proof.
  induction 1 as [|x l Hx _ IH]; [simpl; lia|].
  cbn [length map foldr]. lia.
Qed.

Lemma round_quot_between (a n lo hi : Z) :
  0 < n -> n * lo <= a <= n * hi -> lo <= round_quot a n <= hi.
Proof.
  intros Hn Ha. unfold round_quot. split.
  - apply Z.div_le_lower_bound; nia.
  - apply Z.lt_succ_r. apply Z.div_lt_upper_bound; nia.
Qed.

Lemma filter_all {A} (f : A -> bool) (l : list A) :
  Forall (fun x => f x = true) l -> List.filter f l = l.
Proof.
  induction 1 as [|x l Hx _ IH]; [reflexivity|].
  simpl. now rewrite Hx, IH.
Qed.

Lemma filter_none {A} (f : A -> bool) (l : list A) :
  Forall (fun x => f x = false) l -> List.filter f l = [].
Proof.
  induction 1 as [|x l Hx _ IH]; [reflexivity|].
  simpl. now rewrite Hx.
Qed.

(** X14. The statistics [updateStats] of the quiz model stores. The
    number of attempts is the number of scores found. With no score the
    average and the completion rate are 0, the divisions being guarded.
    Otherwise the completion rate is a percentage between 0 and 100, 100
    when every attempt is completed and 0 when none is, and the average
    lies between any two bounds of the scores. *)
Theorem quiz_stats_bounds (scores : list attempt) :
  let st := quiz_updateStats scores in
  totalAttempts st = length scores /\
  (scores = [] -> averageScore st = 0 /\ completionRate st = 0) /\
  0 <= completionRate st <= 100 /\
  (scores <> [] ->
   (Forall (fun sc => at_completed sc = true) scores ->
    completionRate st = 100) /\
   (Forall (fun sc => at_completed sc = false) scores ->
    completionRate st = 0) /\
   forall lo hi, Forall (fun sc => lo <= at_score sc <= hi) scores ->
                 lo <= averageScore st <= hi).
Proof.
  cbv zeta. unfold quiz_updateStats. cbn [totalAttempts averageScore completionRate].
  split; [reflexivity|]. split; [intros ->; simpl; lia|].
  assert (Hcount : (length (List.filter at_completed scores) <= length scores)%nat).
  { induction scores as [|sc l IH]; simpl; [lia|].
    destruct (at_completed sc); simpl; lia. }
  destruct scores as [|sc l]; [split; [simpl; lia|]; intros H; now destruct H|].
  set (scores := sc :: l) in *.
  assert (Hn : (0 < length scores)%nat) by (subst scores; simpl; lia).
  destruct (Nat.ltb_spec 0 (length scores)) as [_|]; [|lia].
  split.
  - destruct (round_percent_range
                (Z.of_nat (length (List.filter at_completed scores)))
                (Z.of_nat (length scores)) ltac:(lia) ltac:(lia))
      as (r & -> & Hr & _).
    exact Hr.
  - intros _. split; [|split].
    + intros Hall. rewrite (filter_all _ _ Hall).
      destruct (round_percent_half_up (Z.of_nat (length scores))
                  (Z.of_nat (length scores)) ltac:(lia)) as (r & -> & Hr).
      nia.
    + intros Hnone. rewrite (filter_none _ _ Hnone).
      destruct (round_percent_half_up (Z.of_nat (@length attempt []))
                  (Z.of_nat (length scores)) ltac:(lia)) as (r & -> & Hr).
      simpl in Hr. nia.
    + intros lo hi Hb. rewrite fold_left_sum.
      apply round_quot_between; [lia|].
      pose proof (sum_between at_score lo hi scores Hb). lia.
Qed.

(** * The quiz generator *)

Lemma of_bool_eqb (a b : Js.str) :
  Js.of_bool (Js.eqb a b) = Js.JTrue <-> b = a.
Proof. rewrite of_bool_true, js_eqb_eq. split; congruence. Qed.

Lemma fallback_question_flag (topic difficulty : string) (k : nat) :
  exists o,
    d_options (fallback_question topic difficulty (S k)) !! (k mod 4)%nat =
      Some o /\
    List.filter isCorrect (d_options (fallback_question topic difficulty (S k)))
      = [o] /\
    List.find isCorrect (d_options (fallback_question topic difficulty (S k)))
      = Some o.
Proof.
  unfold fallback_question. cbn [d_options].
  assert (E : (S k mod 4 = (k mod 4 + 1) mod 4)%nat).
  { replace (S k) with (k + 1)%nat by lia.
    rewrite Nat.Div0.add_mod. reflexivity. }
  pose proof (Nat.mod_upper_bound k 4 ltac:(lia)) as Hlt.
  rewrite E.
  destruct (k mod 4)%nat as [|[|[|[|r]]]]; try lia;
    eexists; repeat split; reflexivity.
Qed.

Lemma fallback_points (topic difficulty : string) (a n : nat) :
  foldr Z.add 0
    (map d_points (map (fallback_question topic difficulty) (seq a n))) =
  10 * Z.of_nat n.
Proof.
  revert a. induction n as [|n IH]; intros a; [reflexivity|].
  cbn [seq map foldr]. rewrite IH. cbn [fallback_question d_points]. lia.
Qed.

Lemma fallback_lookup (topic difficulty : string) (n : Z) (k : nat) (d : draft) :
  g_questions (generateFallbackQuiz topic difficulty n) !! k = Some d ->
  (k < Z.to_nat n)%nat /\ d = fallback_question topic difficulty (S k).
Proof.
  unfold generateFallbackQuiz. cbn [g_questions]. intros H.
  assert (Hk : (k < Z.to_nat n)%nat).
  { apply lookup_lt_Some in H. now rewrite length_map, length_seq in H. }
  split; [exact Hk|].
  rewrite list_lookup_fmap in H.
  assert (Hs : seq 1 (Z.to_nat n) !! k = Some (S k)).
  { now rewrite lookup_seq_lt. }
  rewrite Hs in H. simpl in H. congruence.
Qed.

(** X15. The quiz [generateFallbackQuiz] returns has as many questions
    as were asked for, none when the number is below 1, worth 10 points
    each. The question at position [k] carries order [k], is marked
    multiple-choice and has exactly one option flagged correct, the one
    at position [k mod 4]: a multiple-choice question with these options
    passes the save hook of the question model, and submit-answer judges
    correct the text of that option and no other answer. *)
Theorem fallback_quiz_shape (topic difficulty : string) (n : Z) :
  let g := generateFallbackQuiz topic difficulty n in
  length (g_questions g) = Z.to_nat n /\
  foldr Z.add 0 (map d_points (g_questions g)) = 10 * Z.max 0 n /\
  forall k d, g_questions g !! k = Some d ->
    d_order d = k /\ d_type d = "multiple-choice" /\ d_points d = 10 /\
    exists o,
      d_options d !! (k mod 4)%nat = Some o /\
      List.filter isCorrect (d_options d) = [o] /\
      forall q, type q = MultipleChoice -> options q = d_options d ->
        question_pre_save q = None /\
        forall selected,
          check_answer q selected = Js.JTrue <-> selected = text o.
Proof.
  cbv zeta. split; [|split].
  - unfold generateFallbackQuiz. cbn [g_questions].
    now rewrite length_map, length_seq.
  - unfold generateFallbackQuiz. cbn [g_questions].
    rewrite fallback_points. lia.
  - intros k d Hd. apply fallback_lookup in Hd as [_ ->].
    split; [cbn [fallback_question d_order]; lia|].
    split; [reflexivity|]. split; [reflexivity|].
    destruct (fallback_question_flag topic difficulty k) as (o & Hl & Hf & Hfind).
    exists o. split; [exact Hl|]. split; [exact Hf|].
    intros q Ht Ho. split.
    + unfold question_pre_save. rewrite Ht, Ho.
      assert (Ex : existsb isCorrect
                     (d_options (fallback_question topic difficulty (S k))) = true)
        by (apply existsb_find; eauto).
      now rewrite Ex.
    + intros selected. unfold check_answer. rewrite Ht, Ho, Hfind.
      apply of_bool_eqb.
Qed.

Lemma map_index_length {A B} (f : nat -> A -> B) (i : nat) (l : list A) :
  length (map_index f i l) = length l.
Proof.
  revert i. induction l as [|x l IH]; intros i; simpl; [reflexivity|].
  now rewrite IH.
Qed.

Lemma map_index_lookup {A B} (f : nat -> A -> B) (i k : nat) (l : list A)
    (y : B) :
  map_index f i l !! k = Some y ->
  exists x, l !! k = Some x /\ y = f (i + k)%nat x.
Proof.
  revert i k. induction l as [|x l IH]; intros i k H; [discriminate|].
  destruct k as [|k]; simpl in H.
  - injection H as <-. exists x. split; [reflexivity|]. f_equal. lia.
  - destruct (IH (S i) k H) as (x' & Hl & ->). exists x'.
    split; [exact Hl|]. f_equal. lia.
Qed.

Lemma slice0_lookup {A} (e : Z) (l : list A) (k : nat) (x : A) :
  slice0 e l !! k = Some x -> l !! k = Some x.
Proof.
  unfold slice0. destruct (e <? 0); intros H;
    apply lookup_take_Some in H; tauto.
Qed.

Lemma slice0_length {A} (e : Z) (l : list A) :
  length (slice0 e l) =
  if e <? 0 then Z.to_nat (Z.of_nat (length l) + e)
  else Nat.min (Z.to_nat e) (length l).
Proof.
  unfold slice0. destruct (Z.ltb_spec e 0); rewrite length_take; lia.
Qed.

Lemma or_string_nonempty (x : option string) (d : string) :
  d <> "" -> or_string x d <> "".
Proof. intros Hd. destruct x as [[|c s]|]; simpl; congruence. Qed.

Lemma app_nonempty_r (s t : string) : t <> "" -> s +:+ t <> "".
Proof. intros Ht. destruct s; simpl; [exact Ht|discriminate]. Qed.

(** X16. What [generateQuizWithAI] returns. When no key is configured,
    the request fails or the reply is no quiz, it is the fallback quiz.
    From a parsed reply it keeps the first [numberOfQuestions] questions
    when that number is not negative, so never more than were asked for;
    a negative number does not give an empty quiz but drops that many
    questions from the end. In every case the quiz has a title, and the
    question at position [k] carries order [k], a text, a type and a
    number of points other than 0. *)
Theorem generated_quiz_shape (topic difficulty : string) (n : Z)
    (reply : ai_reply) :
  let g := generateQuizWithAI topic difficulty n reply in
  match reply with
  | Parsed _ _ qs =>
      length (g_questions g) =
        if n <? 0 then Z.to_nat (Z.of_nat (length qs) + n)
        else Nat.min (Z.to_nat n) (length qs)
  | _ => g = generateFallbackQuiz topic difficulty n
  end /\
  (0 <= n -> (length (g_questions g) <= Z.to_nat n)%nat) /\
  g_title g <> "" /\
  forall k d, g_questions g !! k = Some d ->
    d_order d = k /\ d_question d <> "" /\ d_type d <> "" /\ d_points d <> 0.
Proof.
  cbv zeta.
  assert (Hfb : generateFallbackQuiz topic difficulty n =
                generateFallbackQuiz topic difficulty n /\
    (0 <= n ->
     (length (g_questions (generateFallbackQuiz topic difficulty n))
      <= Z.to_nat n)%nat) /\
    g_title (generateFallbackQuiz topic difficulty n) <> "" /\
    forall k d,
      g_questions (generateFallbackQuiz topic difficulty n) !! k = Some d ->
      d_order d = k /\ d_question d <> "" /\ d_type d <> "" /\ d_points d <> 0).
  { split; [reflexivity|]. split; [|split].
    - intros _. unfold generateFallbackQuiz. cbn [g_questions].
      rewrite length_map, length_seq. lia.
    - unfold generateFallbackQuiz. cbn [g_title].
      apply app_nonempty_r. discriminate.
    - intros k d Hd. apply fallback_lookup in Hd as [_ ->].
      cbn [fallback_question d_order d_question d_type d_points].
      split; [lia|]. split; [discriminate|]. split; [discriminate|lia]. }
  destruct reply as [| | |ttl descr qs]; try exact Hfb.
  clear Hfb. unfold generateQuizWithAI. cbn [g_questions g_title].
  split; [|split; [|split]].
  - now rewrite slice0_length, map_index_length.
  - intros Hn. rewrite slice0_length, map_index_length.
    destruct (Z.ltb_spec n 0); lia.
  - apply or_string_nonempty, app_nonempty_r. discriminate.
  - intros k d Hd. apply slice0_lookup in Hd.
    apply map_index_lookup in Hd as (r & _ & ->).
    unfold normalise_question. cbn [d_order d_question d_type d_points].
    split; [lia|]. split; [|split].
    + apply or_string_nonempty. discriminate.
    + apply or_string_nonempty. discriminate.
    + unfold Js.or_default. destruct (r_points r) as [v|]; [|lia].
      destruct (Z.eqb_spec v 0); lia.
Qed.

(** * Handlers one after the other *)

Lemma snapshot_lookup (st : store) (room : string) :
  activeQuizSessions (snapshot st) !! room =
  registry st !! room ≫= fun a => session_value st <$> session_objects st !! a.
Proof. unfold snapshot. cbn [activeQuizSessions]. apply lookup_omap. Qed.

Lemma session_of_snapshot (sk : string) (st : store) :
  session_of sk (snapshot st) =
  (fun rao => (fst (fst rao), session_value st (snd rao))) <$> session_at sk st.
Proof.
  unfold session_of, session_at. cbn [sockets snapshot].
  destruct (socket_fields st !! sk) as [so|]; [|reflexivity].
  rewrite snapshot_lookup.
  destruct (registry st !! roomId so) as [a|]; [|reflexivity]. simpl.
  destruct (session_objects st !! a) as [o|]; reflexivity.
Qed.

Lemma session_at_registered (sk room : string) (a : nat) (o : session_object)
    (st : store) :
  session_at sk st = Some (room, a, o) ->
  registered st room a o /\
  exists so, socket_fields st !! sk = Some so /\ roomId so = room.
Proof.
  unfold session_at, registered.
  destruct (socket_fields st !! sk) as [so|]; [|discriminate].
  destruct (registry st !! roomId so) as [a'|] eqn:Hr; [|discriminate].
  destruct (session_objects st !! a') as [o'|] eqn:Ho; [|discriminate].
  intros [= <- <- <-]. eauto.
Qed.

(** The participants of a session object, address by address. *)
Lemma members_get (st : store) (o : session_object) (k : string) :
  (forall k' pa, In (k', pa) (o_participants o) ->
                 is_Some (participant_objects st !! pa)) ->
  JsMap.get k (members st o) =
  JsMap.get k (o_participants o) ≫= fun pa => participant_objects st !! pa.
Proof.
  unfold members, deref. induction (o_participants o) as [|[k0 pa] m IH]; intros H;
    [reflexivity|].
  cbn [flat_map JsMap.get fst snd].
  destruct (H k0 pa (or_introl eq_refl)) as [p Hp]. rewrite Hp.
  cbn [app JsMap.get]. destruct (String.eqb k k0); [simpl; now rewrite Hp|].
  apply IH. intros k' pa' Hin. apply (H k' pa'). now right.
Qed.

Lemma members_delete (st : store) (o : session_object) (k : string) :
  members st (with_members o (JsMap.delete k (o_participants o))) =
  JsMap.delete k (members st o).
Proof.
  unfold members, deref. cbn [o_participants with_members].
  induction (o_participants o) as [|[k0 pa] m IH]; [reflexivity|].
  cbn [flat_map JsMap.delete fst snd].
  destruct (String.eqb k k0) eqn:E.
  - rewrite IH. destruct (participant_objects st !! pa); [|reflexivity].
    cbn [app JsMap.delete]. now rewrite E.
  - cbn [flat_map fst snd]. rewrite IH.
    destruct (participant_objects st !! pa); [|reflexivity].
    cbn [app JsMap.delete]. now rewrite E.
Qed.

Lemma members_length (st : store) (o : session_object) :
  (forall k' pa, In (k', pa) (o_participants o) ->
                 is_Some (participant_objects st !! pa)) ->
  length (members st o) = length (o_participants o).
Proof.
  unfold members, deref. induction (o_participants o) as [|[k0 pa] m IH]; intros H;
    [reflexivity|].
  cbn [flat_map fst snd].
  destruct (H k0 pa (or_introl eq_refl)) as [p Hp]. rewrite Hp.
  cbn [app length]. f_equal. apply IH.
  intros k' pa' Hin. apply (H k' pa'). now right.
Qed.

Lemma snapshot_put_session (st : store) (room : string) (a : nat)
    (o' : session_object) :
  (forall r1 r2 a, registry st !! r1 = Some a -> registry st !! r2 = Some a ->
                   r1 = r2) ->
  registry st !! room = Some a ->
  activeQuizSessions (snapshot (put_session a o' st)) =
  <[room := session_value st o']> (activeQuizSessions (snapshot st)).
Proof.
  intros Hinj Hr. apply map_eq. intros r.
  rewrite snapshot_lookup. cbn [registry session_objects put_session].
  destruct (decide (r = room)) as [->|Hne].
  - rewrite lookup_insert_eq, Hr. simpl. now rewrite lookup_insert_eq.
  - rewrite lookup_insert_ne by congruence. rewrite snapshot_lookup.
    destruct (registry st !! r) as [a'|] eqn:Hr'; [|reflexivity]. simpl.
    rewrite lookup_insert_ne; [reflexivity|].
    intros <-. apply Hne. now apply (Hinj r room a).
Qed.

Lemma snapshot_delete_room (st : store) (room : string) :
  activeQuizSessions (snapshot (put_registry (delete room (registry st)) st)) =
  delete room (activeQuizSessions (snapshot st)).
Proof.
  apply map_eq. intros r. rewrite snapshot_lookup.
  cbn [registry session_objects put_registry].
  destruct (decide (r = room)) as [->|Hne].
  - now rewrite !lookup_delete_eq.
  - rewrite !lookup_delete_ne by congruence. now rewrite snapshot_lookup.
Qed.

Lemma tidy_members (st : store) (room : string) (a : nat) (o : session_object) :
  tidy st -> registered st room a o ->
  List.NoDup (JsMap.keys (o_participants o)) /\
  forall k pa, In (k, pa) (o_participants o) ->
    (pa < next_address st)%nat /\ is_Some (participant_objects st !! pa).
Proof.
  intros (H1 & _ & _) [Hr Ho]. destruct (H1 room a Hr) as (_ & o' & Ho' & Hn & Hm).
  assert (o' = o) as -> by congruence. auto.
Qed.

Lemma tidy_put_timer (t : timer) (st : store) : tidy st -> tidy (put_timer t st).
Proof. intros H. exact H. Qed.

Lemma tidy_put_session (st : store) (room : string) (a : nat)
    (o o' : session_object) :
  tidy st -> registered st room a o ->
  List.NoDup (JsMap.keys (o_participants o')) ->
  (forall k pa, In (k, pa) (o_participants o') -> In (k, pa) (o_participants o)) ->
  tidy (put_session a o' st).
Proof.
  intros Ht Hreg Hnd Hsub. pose proof Ht as (H1 & H2 & H3).
  destruct (tidy_members st room a o Ht Hreg) as [_ Hm].
  assert (Hreg' : forall r b ob,
            registered (put_session a o' st) r b ob ->
            exists ob0, registered st r b ob0 /\
              forall k pa, In (k, pa) (o_participants ob) ->
                           In (k, pa) (o_participants ob0)).
  { intros r b ob [Hr Hb]. cbn [registry session_objects put_session] in *.
    destruct (decide (b = a)) as [->|Hne].
    - rewrite lookup_insert_eq in Hb. injection Hb as <-.
      assert (r = room) as -> by (destruct Hreg; now apply (H2 r room a)).
      exists o. auto.
    - rewrite lookup_insert_ne in Hb by congruence.
      exists ob. split; [split; assumption|auto]. }
  split; [|split].
  - intros r b Hr. cbn [registry session_objects put_session next_address
                        participant_objects] in *.
    destruct (H1 r b Hr) as (Hlt & ob & Hob & Hnd' & Hm').
    split; [exact Hlt|].
    destruct (decide (b = a)) as [->|Hne].
    + exists o'. rewrite lookup_insert_eq. split; [reflexivity|].
      split; [exact Hnd|]. intros k pa Hin. apply (Hm k pa), Hsub, Hin.
    + exists ob. rewrite lookup_insert_ne by congruence. auto.
  - exact H2.
  - intros r1 a1 o1 k1 r2 a2 o2 k2 pa Hr1 Hi1 Hr2 Hi2.
    destruct (Hreg' r1 a1 o1 Hr1) as (o1' & Hr1' & Hs1).
    destruct (Hreg' r2 a2 o2 Hr2) as (o2' & Hr2' & Hs2).
    apply (H3 r1 a1 o1' k1 r2 a2 o2' k2 pa); auto.
Qed.

Lemma tidy_delete_room (st : store) (room : string) :
  tidy st -> tidy (put_registry (delete room (registry st)) st).
Proof.
  intros (H1 & H2 & H3).
  assert (Hsub : forall r b, delete room (registry st) !! r = Some b ->
                             registry st !! r = Some b).
  { intros r b H. now apply lookup_delete_Some in H as [_ H]. }
  split; [|split].
  - intros r b Hr. cbn [registry put_registry] in Hr. apply (H1 r b), Hsub, Hr.
  - intros r1 r2 b Hr1 Hr2. cbn [registry put_registry] in *.
    apply (H2 r1 r2 b); auto.
  - intros r1 a1 o1 k1 r2 a2 o2 k2 pa [Hr1 Ho1] Hi1 [Hr2 Ho2] Hi2.
    cbn [registry session_objects put_registry] in *.
    apply (H3 r1 a1 o1 k1 r2 a2 o2 k2 pa); try split; auto.
Qed.

Lemma snapshot_eq (st : store) (m : gmap string session)
    (so : gmap string socket) (ti : list timer) :
  activeQuizSessions (snapshot st) = m -> socket_fields st = so ->
  pending_timers st = ti ->
  snapshot st = {| activeQuizSessions := m; sockets := so; timers := ti |}.
Proof. intros <- <- <-. reflexivity. Qed.

(** ** The synchronous handlers *)

Lemma start_agrees (sk : string) (now : Z) (st : store) :
  tidy st ->
  match start_quiz sk now (snapshot st) with
  | Ok w' out =>
      exists st', start_block sk now st = Goes st' out None /\
                  snapshot st' = w' /\ tidy st'
  | Uncaught => start_block sk now st = Throws
  end.
Proof.
  intros Ht. unfold start_quiz, start_block. rewrite session_of_snapshot.
  destruct (session_at sk st) as [[[room a] o]|] eqn:Hs; simpl;
    [|exists st; auto].
  destruct (session_at_registered sk room a o st Hs) as [Hreg _].
  destruct (questions (o_quiz o) !! 0%nat) as [q|]; [|reflexivity].
  eexists. split; [reflexivity|]. split.
  - apply snapshot_eq; [|reflexivity..].
    apply (snapshot_put_session st room a); [apply Ht|apply Hreg].
  - apply tidy_put_timer.
    apply (tidy_put_session st room a o); auto.
    apply (tidy_members st room a o Ht Hreg).
Qed.

Lemma next_agrees (sk : string) (st : store) :
  tidy st ->
  match next_question sk (snapshot st) with
  | Ok w' out =>
      exists st', next_block sk st = Goes st' out None /\
                  snapshot st' = w' /\ tidy st'
  | Uncaught => next_block sk st = Throws
  end.
Proof.
  intros Ht. unfold next_question, next_block. rewrite session_of_snapshot.
  destruct (session_at sk st) as [[[room a] o]|] eqn:Hs; simpl;
    [|exists st; auto].
  destruct (session_at_registered sk room a o st Hs) as [Hreg _].
  destruct (o_isActive o); simpl; [|exists st; auto].
  destruct (length (questions (o_quiz o)) <=? S (o_currentQuestion o))%nat.
  - eexists. split; [reflexivity|]. split.
    + apply snapshot_eq; [|reflexivity..].
      apply (snapshot_put_session st room a); [apply Ht|apply Hreg].
    + apply (tidy_put_session st room a o); auto.
      apply (tidy_members st room a o Ht Hreg).
  - destruct (questions (o_quiz o) !! S (o_currentQuestion o)) as [q|];
      [|reflexivity].
    eexists. split; [reflexivity|]. split.
    + apply snapshot_eq; [|reflexivity..].
      apply (snapshot_put_session st room a); [apply Ht|apply Hreg].
    + apply tidy_put_timer. apply (tidy_put_session st room a o); auto.
      apply (tidy_members st room a o Ht Hreg).
Qed.

Lemma leaderboard_agrees (sk : string) (st : store) :
  leaderboard_block sk st =
  match get_leaderboard sk (snapshot st) with
  | Ok w' out => Goes st out None
  | Uncaught => Throws
  end.
Proof.
  unfold get_leaderboard, leaderboard_block. rewrite session_of_snapshot.
  now destruct (session_at sk st) as [[[room a] o]|].
Qed.

Lemma leave_size (sk room : string) (a : nat) (o : session_object)
    (st : store) :
  tidy st -> registered st room a o ->
  JsMap.size (JsMap.delete sk (members st o)) =
  JsMap.size (JsMap.delete sk (o_participants o)).
Proof.
  intros Ht Hreg.
  destruct (tidy_members st room a o Ht Hreg) as [Hnd Hm].
  rewrite <- members_delete.
  unfold JsMap.size. apply members_length.
  cbn [o_participants with_members]. intros k pa Hin.
  apply (Hm k pa). eapply jsmap_In_delete, Hin.
Qed.

(** The participant leaves: the end of finish-quiz and disconnect. *)
Lemma leave_agrees (sk room : string) (a : nat) (o : session_object)
    (st : store) :
  tidy st -> registered st room a o ->
  let ps := JsMap.delete sk (o_participants o) in
  let st1 := put_session a (with_members o ps) st in
  let st2 := if (JsMap.size ps =? 0)%nat
             then put_registry (delete room (registry st1)) st1 else st1 in
  snapshot st2 = leave sk room (session_value st o) (snapshot st) /\ tidy st2.
Proof.
  intros Ht Hreg ps st1 st2.
  destruct (tidy_members st room a o Ht Hreg) as [Hnd Hm].
  assert (Ht1 : tidy st1).
  { apply (tidy_put_session st room a o); auto.
    - now apply jsmap_delete_NoDup.
    - intros k pa. apply jsmap_In_delete. }
  assert (Hsize : JsMap.size (JsMap.delete sk (participants (session_value st o)))
                  = JsMap.size ps).
  { apply (leave_size sk room a o st Ht Hreg). }
  assert (H1 : activeQuizSessions (snapshot st1) =
               <[room := with_participants (session_value st o)
                           (JsMap.delete sk (participants (session_value st o)))]>
                 (activeQuizSessions (snapshot st))).
  { unfold st1. rewrite (snapshot_put_session st room a);
      [|apply Ht|apply Hreg].
    f_equal. unfold session_value, with_participants.
    cbn [sess_quiz participants currentQuestion isActive startTime
         o_quiz o_currentQuestion o_isActive o_startTime with_members].
    f_equal. apply members_delete. }
  unfold leave. rewrite Hsize. subst st2.
  destruct (JsMap.size ps =? 0)%nat.
  - split; [|now apply tidy_delete_room].
    unfold with_sessions. apply snapshot_eq; [|reflexivity..].
    rewrite snapshot_delete_room, H1. apply delete_insert_eq.
  - split; [|exact Ht1].
    unfold with_sessions. apply snapshot_eq; [exact H1|reflexivity..].
Qed.

Lemma disconnect_agrees (sk : string) (st : store) :
  tidy st ->
  match disconnect sk (snapshot st) with
  | Ok w' out =>
      exists st', disconnect_block sk st = Goes st' out None /\
                  snapshot st' = w' /\ tidy st'
  | Uncaught => False
  end.
Proof.
  intros Ht. unfold disconnect, disconnect_block.
  unfold session_at. cbn [sockets snapshot].
  destruct (socket_fields st !! sk) as [so|] eqn:Hso; [|exists st; auto].
  rewrite snapshot_lookup.
  destruct (registry st !! roomId so) as [a|] eqn:Hr; [|exists st; auto].
  simpl.
  destruct (session_objects st !! a) as [o|] eqn:Ho; [|exists st; auto].
  simpl.
  destruct (leave_agrees sk (roomId so) a o st Ht (conj Hr Ho)) as [H1 H2].
  cbn [participants session_value].
  rewrite (leave_size sk (roomId so) a o st Ht (conj Hr Ho)).
  eexists. split; [reflexivity|]. split; [exact H1|exact H2].
Qed.

(** ** Participant objects *)

Lemma deref_ext (objs objs' : gmap nat participant) (ps : JsMap.t nat) :
  (forall k pa, In (k, pa) ps -> objs' !! pa = objs !! pa) ->
  deref objs' ps = deref objs ps.
Proof.
  unfold deref. induction ps as [|[k0 pa0] m IH]; intros H; [reflexivity|].
  cbn [flat_map fst snd]. rewrite (H k0 pa0 (or_introl eq_refl)).
  f_equal. apply IH. intros k pa Hin. apply (H k pa). now right.
Qed.

Lemma deref_set (objs objs' : gmap nat participant) (ps : JsMap.t nat)
    (k : string) (pa : nat) (p : participant) :
  List.NoDup (JsMap.keys ps) ->
  (forall k' pa', In (k', pa') ps -> is_Some (objs !! pa')) ->
  (forall k' pa', In (k', pa') ps -> k' <> k -> objs' !! pa' = objs !! pa') ->
  objs' !! pa = Some p ->
  deref objs' (JsMap.set k pa ps) = JsMap.set k p (deref objs ps).
Proof.
  intros Hnd Hsome Hsame Hp. induction ps as [|[k0 pa0] m IH].
  - unfold deref. cbn [JsMap.set flat_map fst snd]. now rewrite Hp.
  - cbn [JsMap.keys map fst] in Hnd.
    apply List.NoDup_cons_iff in Hnd as [Hnin Hnd].
    destruct (Hsome k0 pa0 (or_introl eq_refl)) as [p0 Hp0].
    cbn [JsMap.set]. destruct (String.eqb_spec k k0) as [->|Hne].
    + unfold deref. cbn [flat_map fst snd]. rewrite Hp, Hp0.
      cbn [app JsMap.set]. rewrite String.eqb_refl. f_equal.
      apply (deref_ext objs objs' m). intros k pa' Hin. apply (Hsame k pa'); [now right|].
      intros ->. apply Hnin. apply (in_map fst) in Hin. exact Hin.
    + unfold deref. cbn [flat_map fst snd].
      rewrite (Hsame k0 pa0 (or_introl eq_refl)) by congruence. rewrite Hp0.
      cbn [app JsMap.set]. apply String.eqb_neq in Hne. rewrite Hne. f_equal.
      apply IH; auto.
      * intros k' pa' Hin. apply (Hsome k' pa'). now right.
      * intros k' pa' Hin. apply (Hsame k' pa'). now right.
Qed.

Lemma jsmap_set_same {V} (k : string) (v : V) (m : JsMap.t V) :
  JsMap.get k m = Some v -> JsMap.set k v m = m.
Proof.
  induction m as [|[k0 v0] m IH]; simpl; [discriminate|].
  destruct (String.eqb_spec k k0) as [->|Hne].
  - now intros [= ->].
  - intros H. f_equal. now apply IH.
Qed.

Lemma tidy_put_participant (st : store) (pa : nat) (p : participant) :
  tidy st -> is_Some (participant_objects st !! pa) ->
  tidy (put_participant pa p st).
Proof.
  intros (H1 & H2 & H3) Hpa. split; [|split]; [|exact H2|exact H3].
  intros room a Hr. destruct (H1 room a Hr) as (Ha & o & Ho & Hnd & Hm).
  split; [exact Ha|]. exists o. split; [exact Ho|]. split; [exact Hnd|].
  intros k pa' Hin. destruct (Hm k pa' Hin) as [Hlt Hsome].
  split; [exact Hlt|]. cbn [participant_objects put_participant].
  destruct (decide (pa' = pa)) as [->|Hne].
  - rewrite lookup_insert_eq. eauto.
  - now rewrite lookup_insert_ne by congruence.
Qed.

Lemma snapshot_put_participant (st : store) (sk room : string) (a pa : nat)
    (o : session_object) (p : participant) :
  tidy st -> registered st room a o ->
  JsMap.get sk (o_participants o) = Some pa ->
  activeQuizSessions (snapshot (put_participant pa p st)) =
  <[room := with_participants (session_value st o)
              (JsMap.set sk p (members st o))]>
    (activeQuizSessions (snapshot st)).
Proof.
  intros Ht Hreg Hget. pose proof Ht as (H1 & H2 & H3).
  destruct (tidy_members st room a o Ht Hreg) as [Hnd Hm].
  destruct Hreg as [Hr Ho]. apply jsmap_get_In in Hget as Hin.
  apply map_eq. intros r. rewrite snapshot_lookup.
  cbn [registry session_objects put_participant].
  destruct (decide (r = room)) as [->|Hne].
  - rewrite lookup_insert_eq, Hr. simpl. rewrite Ho. simpl. f_equal.
    unfold session_value, with_participants.
    cbn [sess_quiz participants currentQuestion isActive startTime]. f_equal.
    unfold members. cbn [participant_objects put_participant].
    rewrite <- (jsmap_set_same sk pa (o_participants o) Hget) at 1.
    apply deref_set; auto.
    + intros k' pa' Hin'. apply (Hm k' pa' Hin').
    + intros k' pa' Hin' Hk. apply lookup_insert_ne. intros <-.
      apply Hk. symmetry.
      apply (H3 room a o sk room a o k' pa (conj Hr Ho) Hin (conj Hr Ho) Hin').
    + apply lookup_insert_eq.
  - rewrite lookup_insert_ne by congruence. rewrite snapshot_lookup.
    destruct (registry st !! r) as [b|] eqn:Hrb; [|reflexivity]. simpl.
    destruct (session_objects st !! b) as [ob|] eqn:Hob; [|reflexivity].
    simpl. f_equal. unfold session_value. f_equal.
    unfold members. cbn [participant_objects put_participant].
    apply deref_ext. intros k pa' Hin'. apply lookup_insert_ne. intros <-.
    apply Hne.
    apply (H3 r b ob k room a o sk pa (conj Hrb Hob) Hin' (conj Hr Ho) Hin).
Qed.

(** ** The handlers with awaits *)

Lemma submit_agrees (sk questionId : string) (selected : Js.str) (spent : Z)
    (found : awaited (option question)) (saved : bool) (st : store) :
  tidy st ->
  match submit_answer sk questionId selected spent found saved (snapshot st) with
  | Ok w' out =>
      exists st',
        play (script (ESubmit sk questionId selected spent found saved))
             (idle st) = Played (idle st') out /\
        snapshot st' = w' /\ tidy st'
  | Uncaught => False
  end.
Proof.
  intros Ht. unfold submit_answer. rewrite session_of_snapshot.
  cbn [script play act arrive idle objects waiting].
  unfold submit_begin.
  destruct (session_at sk st) as [[[room a] o]|] eqn:Hs; simpl;
    [|exists st; auto].
  destruct (session_at_registered sk room a o st Hs) as [Hreg _].
  destruct (tidy_members st room a o Ht Hreg) as [Hnd Hm].
  destruct (o_isActive o); simpl; [|exists st; auto].
  rewrite (members_get st o sk) by (intros k' pa' Hin; apply (Hm k' pa' Hin)).
  destruct (JsMap.get sk (o_participants o)) as [pa|] eqn:Hget; simpl;
    [|exists st; auto].
  destruct (Hm sk pa (jsmap_get_In _ _ _ Hget)) as [_ [p Hp]].
  rewrite Hp. unfold submit_found. rewrite Hp.
  destruct found as [[q|]|]; simpl; [|exists st; auto..].
  unfold submit_saved. cbn [participant_objects put_participant].
  rewrite lookup_insert_eq.
  eexists. split; [|split].
  - destruct saved; reflexivity.
  - unfold with_sessions. apply snapshot_eq; [|reflexivity..].
    apply (snapshot_put_participant st sk room a pa o); auto.
  - apply tidy_put_participant; eauto.
Qed.

Lemma finish_agrees (sk : string) (now : Z) (stored : bool) (st : store) :
  tidy st ->
  match finish_quiz sk now stored (snapshot st) with
  | Ok w' out =>
      exists st',
        play (script (EFinish sk now stored)) (idle st) = Played (idle st') out /\
        snapshot st' = w' /\ tidy st'
  | Uncaught => False
  end.
Proof.
  intros Ht. unfold finish_quiz. rewrite session_of_snapshot.
  cbn [script play act arrive idle objects waiting].
  unfold finish_begin.
  destruct (session_at sk st) as [[[room a] o]|] eqn:Hs; simpl;
    [|exists st; auto].
  destruct (session_at_registered sk room a o st Hs)
    as [Hreg (so & Hso & Hroom)].
  destruct (tidy_members st room a o Ht Hreg) as [Hnd Hm].
  rewrite (members_get st o sk) by (intros k' pa' Hin; apply (Hm k' pa' Hin)).
  destruct (JsMap.get sk (o_participants o)) as [pa|] eqn:Hget; simpl;
    [|exists st; auto].
  destruct (Hm sk pa (jsmap_get_In _ _ _ Hget)) as [_ [p Hp]].
  rewrite Hp. simpl. unfold finish_end.
  destruct stored; [|exists st; auto].
  destruct Hreg as [Hr Ho]. rewrite Ho, Hp, Hso, Hroom.
  destruct (leave_agrees sk room a o st Ht (conj Hr Ho)) as [E1 E2].
  eexists. split; [reflexivity|]. split; [exact E1|exact E2].
Qed.

Lemma deref_length (objs : gmap nat participant) (ps : JsMap.t nat) :
  (forall k pa, In (k, pa) ps -> is_Some (objs !! pa)) ->
  length (deref objs ps) = length ps.
Proof.
  unfold deref. induction ps as [|[k0 pa0] m IH]; intros H; [reflexivity|].
  cbn [flat_map fst snd].
  destruct (H k0 pa0 (or_introl eq_refl)) as [p Hp]. rewrite Hp.
  cbn [app length]. f_equal. apply IH.
  intros k pa Hin. apply (H k pa). now right.
Qed.

(** Lines 114-130 of join-quiz: the session object [o] at address [a],
    found or new, gets a new participant object at address [next]. *)
Lemma install_agrees (st : store) (sk room : string) (a next : nat)
    (o : session_object) (so : socket) (fp : participant) :
  tidy st ->
  (registered st room a o /\ next = next_address st) \/
  (registry st !! room = None /\ a = next_address st /\
   next = S (next_address st) /\ o_participants o = []) ->
  let ps1 := JsMap.set sk next (o_participants o) in
  let st' := {| registry := <[room := a]> (registry st);
                session_objects := <[a := with_members o ps1]> (session_objects st);
                participant_objects := <[next := fp]> (participant_objects st);
                socket_fields := <[sk := so]> (socket_fields st);
                pending_timers := pending_timers st;
                next_address := S next |} in
  activeQuizSessions (snapshot st') =
    <[room := with_participants (session_value st o)
                (JsMap.set sk fp (members st o))]>
      (activeQuizSessions (snapshot st)) /\
  tidy st' /\
  JsMap.size ps1 = JsMap.size (JsMap.set sk fp (members st o)).
Proof.
  intros Ht Hcase ps1 st'. pose proof Ht as (H1 & H2 & H3).
  assert (F1 : List.NoDup (JsMap.keys (o_participants o))).
  { destruct Hcase as [[Hreg _]|(_ & _ & _ & ->)]; [|constructor].
    apply (tidy_members st room a o Ht Hreg). }
  assert (F2 : forall k pa, In (k, pa) (o_participants o) ->
                 (pa < next_address st)%nat /\
                 is_Some (participant_objects st !! pa)).
  { destruct Hcase as [[Hreg _]|(_ & _ & _ & ->)]; [|intros k pa []].
    apply (tidy_members st room a o Ht Hreg). }
  assert (F3 : forall r b, registry st !! r = Some b -> r <> room -> b <> a).
  { intros r b Hr Hne ->.
    destruct Hcase as [[[Hra _] _]|(_ & -> & _)].
    - apply Hne. apply (H2 r room a Hr Hra).
    - destruct (H1 r _ Hr) as [Hlt _]. lia. }
  assert (F4 : forall r b ob k k' pa,
            registered st r b ob -> r <> room ->
            In (k, pa) (o_participants ob) ->
            In (k', pa) (o_participants o) -> False).
  { intros r b ob k k' pa Hrb Hne Hin Hin'.
    destruct Hcase as [[Hreg _]|(_ & _ & _ & E)].
    - apply Hne. apply (H3 r b ob k room a o k' pa Hrb Hin Hreg Hin').
    - rewrite E in Hin'. destruct Hin'. }
  assert (F5 : (next_address st <= next)%nat /\ (a < S next)%nat).
  { destruct Hcase as [[[Hra _] ->]|(_ & -> & -> & _)]; [|lia].
    destruct (H1 room a Hra) as [Hlt _]. lia. }
  assert (F7 : forall k1 k2 pa, In (k1, pa) (o_participants o) ->
                 In (k2, pa) (o_participants o) -> k1 = k2).
  { intros k1 k2 pa Hi1 Hi2.
    destruct Hcase as [[Hreg _]|(_ & _ & _ & E)].
    - apply (H3 room a o k1 room a o k2 pa Hreg Hi1 Hreg Hi2).
    - rewrite E in Hi1. destruct Hi1. }
  clear Hcase. destruct F5 as [F5 F6].
  assert (Fold : forall r b ob, registered st r b ob ->
            forall k pa, In (k, pa) (o_participants ob) ->
              (pa < next_address st)%nat /\
              <[next := fp]> (participant_objects st) !! pa =
                participant_objects st !! pa).
  { intros r b ob Hrb k pa Hin.
    destruct (tidy_members st r b ob Ht Hrb) as [_ Hm].
    destruct (Hm k pa Hin) as [Hlt _]. split; [exact Hlt|].
    apply lookup_insert_ne. lia. }
  assert (Fmem : deref (<[next := fp]> (participant_objects st)) ps1 =
                 JsMap.set sk fp (members st o)).
  { unfold ps1, members. apply deref_set; auto.
    - intros k pa Hin. apply (F2 k pa Hin).
    - intros k pa Hin _. apply lookup_insert_ne.
      destruct (F2 k pa Hin) as [Hlt _]. lia.
    - apply lookup_insert_eq. }
  assert (Fin : forall k pa, In (k, pa) ps1 ->
            (k = sk /\ pa = next) \/ In (k, pa) (o_participants o)).
  { intros k pa Hin. apply jsmap_In_set in Hin as [[= -> ->]|Hin]; auto. }
  assert (Freg : forall r b ob, registered st' r b ob ->
            (r = room /\ b = a /\ ob = with_members o ps1) \/
            (r <> room /\ registered st r b ob)).
  { intros r b ob [Hr Ho]. cbn [registry session_objects st'] in Hr, Ho.
    destruct (decide (r = room)) as [->|Hne].
    - rewrite lookup_insert_eq in Hr. injection Hr as <-.
      rewrite lookup_insert_eq in Ho. injection Ho as <-. now left.
    - rewrite lookup_insert_ne in Hr by congruence.
      rewrite lookup_insert_ne in Ho by (apply not_eq_sym, (F3 r b); auto).
      right. split; [exact Hne|]. split; assumption. }
  split; [|split].
  - apply map_eq. intros r. rewrite snapshot_lookup.
    cbn [registry session_objects st'].
    destruct (decide (r = room)) as [->|Hne].
    + rewrite !lookup_insert_eq. simpl. rewrite lookup_insert_eq. simpl.
      f_equal. unfold session_value at 1, with_participants.
      cbn [sess_quiz participants currentQuestion isActive startTime
           o_quiz o_currentQuestion o_isActive o_startTime with_members
           session_value].
      f_equal. exact Fmem.
    + rewrite !lookup_insert_ne by congruence. rewrite snapshot_lookup.
      destruct (registry st !! r) as [b|] eqn:Hrb; [|reflexivity]. simpl.
      rewrite lookup_insert_ne by (apply not_eq_sym, (F3 r b); auto).
      destruct (session_objects st !! b) as [ob|] eqn:Hob; [|reflexivity].
      simpl. f_equal. unfold session_value. f_equal.
      unfold members. cbn [participant_objects st']. apply deref_ext.
      intros k pa Hin. apply (Fold r b ob (conj Hrb Hob) k pa Hin).
  - split; [|split].
    + intros r b Hr. cbn [registry st'] in Hr. cbn [next_address st'].
      destruct (decide (r = room)) as [->|Hne].
      * rewrite lookup_insert_eq in Hr. injection Hr as <-.
        split; [exact F6|]. exists (with_members o ps1).
        cbn [session_objects st']. rewrite lookup_insert_eq.
        split; [reflexivity|]. cbn [o_participants with_members].
        split; [now apply jsmap_set_NoDup|].
        intros k pa Hin. cbn [participant_objects st'].
        destruct (Fin k pa Hin) as [[-> ->]|Hin'].
        -- rewrite lookup_insert_eq. split; [lia|eauto].
        -- destruct (F2 k pa Hin') as [Hlt Hs]. split; [lia|].
           now rewrite lookup_insert_ne by lia.
      * rewrite lookup_insert_ne in Hr by congruence.
        destruct (H1 r b Hr) as (Hlt & ob & Hob & Hnd & Hm).
        split; [lia|]. exists ob. cbn [session_objects st'].
        rewrite lookup_insert_ne by (apply not_eq_sym, (F3 r b); auto).
        split; [exact Hob|]. split; [exact Hnd|].
        intros k pa Hin. cbn [participant_objects st'].
        destruct (Hm k pa Hin) as [Hlt' Hs]. split; [lia|].
        now rewrite lookup_insert_ne by lia.
    + intros r1 r2 b Hr1 Hr2. cbn [registry st'] in Hr1, Hr2.
      destruct (decide (r1 = room)) as [->|Hn1];
        destruct (decide (r2 = room)) as [->|Hn2]; [reflexivity|..].
      * rewrite lookup_insert_eq in Hr1. injection Hr1 as <-.
        rewrite lookup_insert_ne in Hr2 by congruence.
        now destruct (F3 r2 a Hr2 Hn2).
      * rewrite lookup_insert_eq in Hr2. injection Hr2 as <-.
        rewrite lookup_insert_ne in Hr1 by congruence.
        now destruct (F3 r1 a Hr1 Hn1).
      * rewrite lookup_insert_ne in Hr1, Hr2 by congruence.
        apply (H2 r1 r2 b Hr1 Hr2).
    + intros r1 a1 o1 k1 r2 a2 o2 k2 pa Hg1 Hi1 Hg2 Hi2.
      destruct (Freg r1 a1 o1 Hg1) as [(-> & -> & ->)|[Hn1 Hg1']];
        destruct (Freg r2 a2 o2 Hg2) as [(-> & -> & ->)|[Hn2 Hg2']].
      * split; [reflexivity|]. cbn [o_participants with_members] in Hi1, Hi2.
        destruct (Fin k1 pa Hi1) as [[E1 E1']|Hi1'];
          destruct (Fin k2 pa Hi2) as [[E2 E2']|Hi2'].
        -- congruence.
        -- destruct (F2 k2 pa Hi2') as [Hlt _]. lia.
        -- destruct (F2 k1 pa Hi1') as [Hlt _]. lia.
        -- apply (F7 k1 k2 pa Hi1' Hi2').
      * exfalso. cbn [o_participants with_members] in Hi1.
        destruct (Fold r2 a2 o2 Hg2' k2 pa Hi2) as [Hlt _].
        destruct (Fin k1 pa Hi1) as [[-> ->]|Hi1']; [lia|].
        apply (F4 r2 a2 o2 k2 k1 pa Hg2' Hn2 Hi2 Hi1').
      * exfalso. cbn [o_participants with_members] in Hi2.
        destruct (Fold r1 a1 o1 Hg1' k1 pa Hi1) as [Hlt _].
        destruct (Fin k2 pa Hi2) as [[-> ->]|Hi2']; [lia|].
        apply (F4 r1 a1 o1 k1 k2 pa Hg1' Hn1 Hi1 Hi2').
      * apply (H3 r1 a1 o1 k1 r2 a2 o2 k2 pa Hg1' Hi1 Hg2' Hi2).
  - unfold JsMap.size. rewrite <- Fmem. symmetry. apply deref_length.
    intros k pa Hin. destruct (Fin k pa Hin) as [[-> ->]|Hin'].
    + rewrite lookup_insert_eq. eauto.
    + destruct (F2 k pa Hin') as [Hlt Hs]. now rewrite lookup_insert_ne by lia.
Qed.

Lemma join_agrees (sk quizId uid uname : string)
    (found : awaited (option quiz)) (st : store) :
  tidy st ->
  match join_quiz sk quizId uid uname found (snapshot st) with
  | Ok w' out =>
      exists st',
        play (script (EJoin sk quizId uid uname found)) (idle st) =
          Played (idle st') out /\
        snapshot st' = w' /\ tidy st'
  | Uncaught => False
  end.
Proof.
  intros Ht. unfold join_quiz.
  destruct found as [[qz|]|]; [|exists st; auto..].
  simpl play. unfold join_resumed. rewrite snapshot_lookup.
  destruct (registry st !! room_name quizId) as [a|] eqn:Hr.
  - pose proof Ht as (H1 & _ & _).
    destruct (H1 _ _ Hr) as (_ & o & Ho & _).
    cbn [mbind option_bind]. rewrite !Ho.
    cbn [default from_option id fmap option_fmap option_map continue
         option_list app].
    destruct (install_agrees st sk (room_name quizId) a (next_address st) o
                {| sock_userId := uid; sock_username := uname;
                   sock_quizId := quizId; roomId := room_name quizId |}
                (fresh_participant uid uname) Ht
                (or_introl (conj (conj Hr Ho) eq_refl))) as (E1 & E2 & E3).
    cbn [o_participants with_members participants with_participants
         isActive o_isActive session_value].
    cbv zeta in E3. rewrite E3.
    eexists. split; [reflexivity|]. split; [|exact E2].
    apply snapshot_eq; [exact E1|reflexivity..].
  - cbn [default from_option id mbind option_bind fmap option_fmap option_map
         continue option_list app].
    set (o := {| o_quiz := qz; o_participants := [];
                 o_currentQuestion := 0%nat; o_isActive := false;
                 o_startTime := None |}).
    destruct (install_agrees st sk (room_name quizId) (next_address st)
                (S (next_address st)) o
                {| sock_userId := uid; sock_username := uname;
                   sock_quizId := quizId; roomId := room_name quizId |}
                (fresh_participant uid uname) Ht
                (or_intror (conj Hr (conj eq_refl (conj eq_refl eq_refl)))))
      as (E1 & E2 & E3).
    eexists. split; [|split; [|exact E2]].
    + reflexivity.
    + apply snapshot_eq; [exact E1|reflexivity..].
Qed.

(** A handler whose awaits settle before anything else arrives does
    what the handler taken as one step does. *)
Lemma sequential_agrees (e : event) (st : store) :
  tidy st ->
  match handle e (snapshot st) with
  | Ok w' out =>
      exists st', play (script e) (idle st) = Played (idle st') out /\
                  snapshot st' = w' /\ tidy st'
  | Uncaught => play (script e) (idle st) = Crashed
  end.
Proof.
  intros Ht. destruct e as [sk quizId uid uname found|sk now
    |sk questionId selected spent found saved|sk|sk now stored|sk|sk];
    cbn [handle].
  - pose proof (join_agrees sk quizId uid uname found st Ht) as H.
    destruct (join_quiz sk quizId uid uname found (snapshot st)); [exact H|].
    destruct H.
  - pose proof (start_agrees sk now st Ht) as H.
    cbn [script play act arrive idle objects waiting].
    destruct (start_quiz sk now (snapshot st)) as [w' out|].
    + destruct H as (st' & -> & H). exists st'. split; [|exact H].
      cbn [continue option_list]. now rewrite !app_nil_r.
    + now rewrite H.
  - pose proof (submit_agrees sk questionId selected spent found saved st Ht)
      as H.
    destruct (submit_answer sk questionId selected spent found saved
                (snapshot st)); [exact H|destruct H].
  - pose proof (next_agrees sk st Ht) as H.
    cbn [script play act arrive idle objects waiting].
    destruct (next_question sk (snapshot st)) as [w' out|].
    + destruct H as (st' & -> & H). exists st'. split; [|exact H].
      cbn [continue option_list]. now rewrite !app_nil_r.
    + now rewrite H.
  - pose proof (finish_agrees sk now stored st Ht) as H.
    destruct (finish_quiz sk now stored (snapshot st)); [exact H|destruct H].
  - pose proof (leaderboard_agrees sk st) as H.
    cbn [script play act arrive idle objects waiting]. rewrite H.
    destruct (get_leaderboard sk (snapshot st)) as [w' out|] eqn:E;
      [|reflexivity].
    exists st. cbn [continue option_list]. rewrite !app_nil_r.
    split; [reflexivity|]. split; [|exact Ht].
    unfold get_leaderboard in E.
    destruct (session_of sk (snapshot st)) as [[room s]|]; congruence.
  - pose proof (disconnect_agrees sk st Ht) as H.
    cbn [script play act arrive idle objects waiting].
    destruct (disconnect sk (snapshot st)) as [w' out|]; [|destruct H].
    destruct H as (st' & -> & H). exists st'. split; [|exact H].
    cbn [continue option_list]. now rewrite !app_nil_r.
Qed.

Lemma play_app (l1 l2 : list action) (sv : server) :
  play (l1 ++ l2) sv =
  match play l1 sv with
  | Played sv1 out =>
      match play l2 sv1 with
      | Played sv2 out' => Played sv2 (out ++ out')
      | Crashed => Crashed
      end
  | Crashed => Crashed
  end.
Proof.
  revert sv. induction l1 as [|a l1 IH]; intros sv; cbn [app play].
  - now destruct (play l2 sv).
  - destruct (act a sv) as [sv1 out|]; [|reflexivity]. rewrite IH.
    destruct (play l1 sv1) as [sv2 out2|]; [|reflexivity].
    destruct (play l2 sv2) as [sv3 out3|]; [|reflexivity].
    now rewrite app_assoc.
Qed.

Lemma run_agrees (evs : list event) (st : store) :
  tidy st ->
  match run evs (snapshot st) with
  | Ok w' out =>
      exists st', play (flat_map script evs) (idle st) = Played (idle st') out /\
                  snapshot st' = w' /\ tidy st'
  | Uncaught => play (flat_map script evs) (idle st) = Crashed
  end.
Proof.
  revert st. induction evs as [|e evs IH]; intros st Ht.
  - exists st. auto.
  - cbn [run flat_map]. rewrite play_app. unfold and_then.
    pose proof (sequential_agrees e st Ht) as H.
    destruct (handle e (snapshot st)) as [w1 out1|]; [|now rewrite H].
    destruct H as (st1 & -> & <- & Ht1).
    specialize (IH st1 Ht1).
    destruct (run evs (snapshot st1)) as [w2 out2|]; [|now rewrite IH].
    destruct IH as (st2 & -> & H). now exists st2.
Qed.

Lemma tidy_initial : tidy initial_store.
Proof.
  split; [|split].
  - intros room a H. cbn [registry initial_store] in H.
    now rewrite lookup_empty in H.
  - intros r1 r2 a H. cbn [registry initial_store] in H.
    now rewrite lookup_empty in H.
  - intros r1 a1 o1 k1 r2 a2 o2 k2 pa [H _]. cbn [registry initial_store] in H.
    now rewrite lookup_empty in H.
Qed.

Lemma snapshot_initial : snapshot initial_store = initial_world.
Proof.
  unfold initial_world. apply snapshot_eq; reflexivity.
Qed.

(** X17. Events handled one after the other, each with its awaited
    calls settled before the next event arrives, starting from the
    server as it is created: the stretches of the handlers, run on the
    objects of the server, send what [run] sends and leave the sessions,
    the sockets and the timers that [run] leaves, and an exception that
    escapes a handler in one escapes it in the other. *)
Theorem run_is_sequential_play (evs : list event) :
  match run evs initial_world with
  | Ok w out =>
      exists st, play (flat_map script evs) initial_server = Played (idle st) out /\
                 snapshot st = w
  | Uncaught => play (flat_map script evs) initial_server = Crashed
  end.
Proof.
  pose proof (run_agrees evs initial_store tidy_initial) as H.
  rewrite snapshot_initial in H.
  destruct (run evs initial_world) as [w out|]; [|exact H].
  destruct H as (st & H1 & H2 & _). exists st. split; [exact H1|exact H2].
Qed.

(** A rejected [Score.create] and a rejected [quiz.updateStats] end
    finish-quiz alike. *)
Lemma finish_rejected_alike (sk : string) (now : Z) (c u : bool)
    (st : store) :
  c && u = false ->
  play [Arrive (RFinish sk now); Settle 0 (Done c); Settle 0 (Done u)] (idle st) =
  play (script (EFinish sk now false)) (idle st).
Proof.
  intros H. cbn [script play act arrive idle objects waiting].
  destruct (finish_begin sk now st) as [st1 out1 [k|]|] eqn:E;
    [|destruct c, u; try discriminate; reflexivity..].
  unfold finish_begin in E.
  destruct (session_at sk st) as [[[room a] o]|]; [|discriminate].
  destruct (JsMap.get sk (o_participants o)) as [pa|]; [|discriminate].
  destruct (participant_objects st !! pa) as [p|]; [|discriminate].
  injection E as <- <- <-.
  destruct c, u; try discriminate; reflexivity.
Qed.
